(** * Clover MCP: the OAuth token lifecycle (oauth-v2.ts, clover-client.ts)

    A shallow embedding of [OAuthV2Client] and of the axios interceptors
    installed by [CloverApiClient.updateClient], and the properties of the
    token lifecycle proved about them.

    Modelling conventions.
    - A JavaScript value that may be missing ([undefined] or [null]) is an
      [option]; a present field has the type its TypeScript interface
      declares.  Truthiness ([!x], [a || b]) is written out: the empty string
      and the number 0 are falsy.
    - Timestamps are whole seconds, [Z]; [Math.floor(Date.now() / 1000)] reads
      the field [now] of the world.
    - The module-level [currentTokens], the fields of the client object, the
      pending timers and everything the program does to the outside (HTTP
      requests, HTTP replies, promise settlements) live in one [World]; the
      code runs in a state-and-exception monad over it.
    - The authorization server and the merchant API are the environment: they
      answer a request as a function of the history so far.
    - An [async] function is run to completion: what it does between its
      [await]s is not interleaved with other handlers.
    - The mirror of the tokens in the [.env] file and the logger are left out:
      [updateEnvFile] catches its own errors and touches nothing below. *)

From Stdlib Require Import ZArith String List Bool Lia.
Import ListNotations.
Open Scope Z_scope.
Open Scope string_scope.

(** ** JavaScript truthiness on the two field types *)

Module Js.

(** [!!s] for [s : string | null | undefined]. *)
Definition truthyS (v : option string) : bool :=
  match v with
  | Some s => negb (String.eqb s "")
  | None => false
  end.

(** [!!n] for [n : number | null | undefined] (a whole number, never NaN). *)
Definition truthyN (v : option Z) : bool :=
  match v with
  | Some n => negb (Z.eqb n 0)
  | None => false
  end.

(** [a || b]. *)
Definition orS (a b : option string) : option string :=
  if truthyS a then a else b.

Definition orN (a b : option Z) : option Z :=
  if truthyN a then a else b.

(** [isNaN(x)]: a missing value converts to NaN, a number from JSON never
    is NaN. *)
Definition isNaN (v : option Z) : bool :=
  match v with
  | Some _ => false
  | None => true
  end.

(** [a >= b] for a number [a]: a missing [b] converts to NaN and every
    comparison with NaN is false. *)
Definition ge (a : Z) (b : option Z) : bool :=
  match b with
  | Some n => a >=? n
  | None => false
  end.

(** [`${v}`] in a template literal. *)
Definition show (v : option string) : string :=
  match v with
  | Some s => s
  | None => "undefined"
  end.

End Js.

(** ** Data *)

(** [interface OAuthConfig]. *)
Record OAuthConfig := mkConfig {
  clientId : string;
  clientSecret : string;
  baseUrl : string;
  redirectUrl : string
}.

(** [interface OAuthV2TokenResponse]; a field the object does not carry is
    [None]. *)
Record OAuthV2TokenResponse := mkV2 {
  access_token : option string;
  refresh_token : option string;
  merchant_id : option string;
  access_token_expiry : option Z;
  refresh_token_expiry : option Z
}.

(** A JSON object as the provider sends it: the properties the code reads,
    those of [OAuthV2TokenResponse] and the [expires_in] of the legacy
    [OAuthTokenResponse]. *)
Record WireObject := mkWire {
  w_access_token : option string;
  w_refresh_token : option string;
  w_merchant_id : option string;
  w_access_token_expiry : option Z;
  w_refresh_token_expiry : option Z;
  w_expires_in : option Z
}.

(** [response.data] of a 2xx response.  axios parses a JSON body and, with
    its default settings, hands back the text of a body it cannot parse. *)
Inductive Body :=
| BObject (d : WireObject)
| BText (s : string)
| BNull.

(** What [exchangeCodeForTokens] and [refreshAccessToken] return: declared
    [OAuthV2TokenResponse], at run time whatever [data] was. *)
Inductive Data :=
| DObject (r : OAuthV2TokenResponse)
| DText (s : string)
| DNull.

Definition asV2 (d : WireObject) : OAuthV2TokenResponse :=
  mkV2 (w_access_token d) (w_refresh_token d) (w_merchant_id d)
       (w_access_token_expiry d) (w_refresh_token_expiry d).

Definition asData (b : Body) : Data :=
  match b with
  | BObject d => DObject (asV2 d)
  | BText s => DText s
  | BNull => DNull
  end.

(** The module-level [currentTokens]. *)
Record Tokens := mkTokens {
  accessToken : option string;
  refreshToken : option string;
  merchantId : option string;
  accessTokenExpiry : option Z;
  refreshTokenExpiry : option Z
}.

Definition noTokens : Tokens := mkTokens None None None None None.

(** A request to the authorization server: [axios.post(url, body, headers)].
    The encoding fixes the Content-Type header; [fields] keeps the order in
    which the body is built. *)
Inductive Encoding := JsonBody | FormBody.

Record Request := mkRequest {
  url : string;
  encoding : Encoding;
  fields : list (string * string)
}.

(** The config of a request to the merchant API, with the [_retry] mark the
    response interceptor puts on it. *)
Record ReqConfig := mkReqConfig {
  path : string;
  authorization : option string;
  _retry : bool
}.

(** An axios error: [error.response?.status], [error.response?.data?.message],
    [error.message] and [error.config] (kept for requests to the merchant API
    only). *)
Record AxiosError := mkAxiosError {
  status : option Z;
  dataMessage : option string;
  message : string;
  config : option ReqConfig
}.

Inductive Exn :=
| AxiosErr (e : AxiosError)
| Err (msg : string)
| TypeErr (msg : string).

Definition messageOf (e : Exn) : string :=
  match e with
  | AxiosErr a => message a
  | Err m => m
  | TypeErr m => m
  end.

Inductive HttpResult :=
| HttpOk (b : Body)
| HttpFail (e : AxiosError).

(** An answer of the merchant API to a dispatched request. *)
Inductive ApiResult :=
| ApiOk (data : string)
| ApiFail (status : option Z) (dataMessage : option string) (message : string).

(** The query of a request to [/oauth-callback]. *)
Record Query := mkQuery {
  q_code : option string;
  q_state : option string;
  q_merchant_id : option string;
  q_client_id : option string
}.

(** What the callback route sends to the browser. *)
Inductive Page :=
| SuccessPage
| Text (s : string).

Inductive Settlement :=
| Resolved (v : OAuthV2TokenResponse)
| Rejected (e : Exn).

(** What the program does to the outside, in the order it does it. *)
Inductive Effect :=
| Post (r : Request)
| Respond (code : Z) (p : Page)
| Settle (promise : nat) (s : Settlement)
| Dispatch (c : ReqConfig)
| RefreshCall.

Record World := mkWorld {
  currentTokens : Tokens;
  now : Z;
  server : option Z;
  state : string;
  promiseResolve : option nat;
  promiseReject : option nat;
  timers : nat;
  closing : nat;
  nextPromise : nat;
  trace : list Effect
}.

Definition initialWorld (t : Z) : World :=
  mkWorld noTokens t None "" None None 0 0 0 [].

(** ** The monad *)

Inductive Res (A : Type) :=
| Ret (a : A)
| Throw (e : Exn)
| Diverge.
Arguments Ret {A} a.
Arguments Throw {A} e.
Arguments Diverge {A}.

Definition M (A : Type) : Type := World -> Res A * World.

Definition ret {A} (a : A) : M A := fun w => (Ret a, w).

Definition throw {A} (e : Exn) : M A := fun w => (Throw e, w).

Definition bind {A B} (m : M A) (k : A -> M B) : M B :=
  fun w =>
    match m w with
    | (Ret a, w') => k a w'
    | (Throw e, w') => (Throw e, w')
    | (Diverge, w') => (Diverge, w')
    end.

(** [try { m } catch (e) { h e }]. *)
Definition try_catch {A} (m : M A) (h : Exn -> M A) : M A :=
  fun w =>
    match m w with
    | (Throw e, w') => h e w'
    | r => r
    end.

Definition get : M World := fun w => (Ret w, w).

Definition modify (f : World -> World) : M unit := fun w => (Ret tt, f w).

Declare Scope js_scope.
Delimit Scope js_scope with js.
Notation "x <- m ;; k" := (bind m (fun x => k))
  (at level 61, m at next level, right associativity) : js_scope.
Notation "m ;;; k" := (bind m (fun _ => k))
  (at level 61, right associativity) : js_scope.
Open Scope js_scope.

(** Field updates of the world. *)
Definition setCurrentTokens (t : Tokens) (w : World) : World :=
  mkWorld t (now w) (server w) (state w) (promiseResolve w) (promiseReject w)
          (timers w) (closing w) (nextPromise w) (trace w).

Definition setNow (t : Z) (w : World) : World :=
  mkWorld (currentTokens w) t (server w) (state w) (promiseResolve w)
          (promiseReject w) (timers w) (closing w) (nextPromise w) (trace w).

Definition setServer (s : option Z) (w : World) : World :=
  mkWorld (currentTokens w) (now w) s (state w) (promiseResolve w)
          (promiseReject w) (timers w) (closing w) (nextPromise w) (trace w).

Definition setState (s : string) (w : World) : World :=
  mkWorld (currentTokens w) (now w) (server w) s (promiseResolve w)
          (promiseReject w) (timers w) (closing w) (nextPromise w) (trace w).

Definition setPromise (res rej : option nat) (w : World) : World :=
  mkWorld (currentTokens w) (now w) (server w) (state w) res rej
          (timers w) (closing w) (nextPromise w) (trace w).

Definition setTimers (n : nat) (w : World) : World :=
  mkWorld (currentTokens w) (now w) (server w) (state w) (promiseResolve w)
          (promiseReject w) n (closing w) (nextPromise w) (trace w).

Definition setClosing (n : nat) (w : World) : World :=
  mkWorld (currentTokens w) (now w) (server w) (state w) (promiseResolve w)
          (promiseReject w) (timers w) n (nextPromise w) (trace w).

Definition setNextPromise (n : nat) (w : World) : World :=
  mkWorld (currentTokens w) (now w) (server w) (state w) (promiseResolve w)
          (promiseReject w) (timers w) (closing w) n (trace w).

Definition emit (e : Effect) (w : World) : World :=
  mkWorld (currentTokens w) (now w) (server w) (state w) (promiseResolve w)
          (promiseReject w) (timers w) (closing w) (nextPromise w)
          (trace w ++ [e]).

(** ** OAuthV2Client *)

Section Client.

(** [this.config], and the two servers the client talks to: each answers a
    request given everything that has happened so far. *)
Variable cfg : OAuthConfig.
Variable authServer : list Effect -> Request -> HttpResult.
Variable upstream : list Effect -> ReqConfig -> ApiResult.

(** [axios.post] to the authorization server: a 2xx answer resolves with its
    data, anything else rejects with an axios error. *)
Definition post (r : Request) : M Body :=
  fun w =>
    match authServer (trace w) r with
    | HttpOk b => (Ret b, emit (Post r) w)
    | HttpFail e => (Throw (AxiosErr e), emit (Post r) w)
    end.

(** [getTokens()]. *)
Definition getTokens (w : World) : Tokens :=
  mkTokens (accessToken (currentTokens w)) (refreshToken (currentTokens w))
           (merchantId (currentTokens w)) (accessTokenExpiry (currentTokens w))
           (refreshTokenExpiry (currentTokens w)).

(** [setTokens(tokens)].  Reading a property of a string gives [undefined];
    reading a property of [null] throws before anything is assigned. *)
Definition setTokens (tokens : Data) : M unit :=
  match tokens with
  | DObject r =>
      modify (setCurrentTokens
                (mkTokens (access_token r) (refresh_token r) (merchant_id r)
                          (access_token_expiry r) (refresh_token_expiry r)))
  | DText _ => modify (setCurrentTokens noTokens)
  | DNull =>
      throw (TypeErr "Cannot read properties of null (reading 'access_token')")
  end.

(** [hasValidTokens()]. *)
Definition hasValidTokens (w : World) : bool :=
  let t := currentTokens w in
  if negb (Js.truthyS (accessToken t)) || negb (Js.truthyS (merchantId t))
  then false
  else
    if Js.truthyN (accessTokenExpiry t)
    then (if Js.ge (now w) (accessTokenExpiry t) then false else true)
    else true.

(** The two bodies of a token request. *)
Definition v2Request (endpoint grant value : string) : Request :=
  mkRequest (baseUrl cfg ++ endpoint) JsonBody
            [("client_id", clientId cfg);
             ("client_secret", clientSecret cfg);
             (grant, value)].

Definition v1Request (grant value : string) : Request :=
  mkRequest (baseUrl cfg ++ "/oauth/token") FormBody
            [("client_id", clientId cfg);
             ("client_secret", clientSecret cfg);
             (grant, value)].

(** [v1Response.data] read as an object: a string has none of the properties,
    [null] throws on the first read. *)
Definition v1Fields (b : Body) : M WireObject :=
  match b with
  | BObject d => ret d
  | BText _ => ret (mkWire None None None None None None)
  | BNull =>
      throw (TypeErr "Cannot read properties of null (reading 'access_token')")
  end.

(** [now + (v1Data.expires_in || 3600)]. *)
Definition expiryFrom (t : Z) (expires_in : option Z) : option Z :=
  match Js.orN expires_in (Some 3600) with
  | Some d => Some (t + d)
  | None => None
  end.

(** The outer [catch] of [exchangeCodeForTokens]. *)
Definition exchangeError (error : Exn) : Exn :=
  match error with
  | AxiosErr e =>
      Err ("OAuth error: "
             ++ Js.show (Js.orS (dataMessage e) (Some (message e))))
  | _ => error
  end.

(** [exchangeCodeForTokens(code)]. *)
Definition exchangeCodeForTokens (code : string) : M Data :=
  try_catch
    (try_catch
       (v2Response <- post (v2Request "/oauth/v2/token" "code" code) ;;
        ret (asData v2Response))
       (fun _ =>
          v1Response <- post (v1Request "code" code) ;;
          v1Data <- v1Fields v1Response ;;
          w <- get ;;
          ret (DObject
                 (mkV2 (w_access_token v1Data)
                       (Js.orS (w_refresh_token v1Data) (Some ""))
                       (w_merchant_id v1Data)
                       (expiryFrom (now w) (w_expires_in v1Data))
                       (Some (now w + 30 * 86400))))))
    (fun error => throw (exchangeError error)).

(** The outer [catch] of [refreshAccessToken]. *)
Definition refreshError (error : Exn) : Exn :=
  match error with
  | AxiosErr _ =>
      Err "OAuth refresh error: Token expired or invalid. Please reauthenticate."
  | _ => error
  end.

(** [refreshAccessToken()]. *)
Definition refreshAccessToken : M Data :=
  modify (emit RefreshCall) ;;;
  w0 <- get ;;
  match refreshToken (currentTokens w0) with
  | None => throw (Err "No refresh token available")
  | Some held =>
      if negb (Js.truthyS (Some held))
      then throw (Err "No refresh token available")
      else
        try_catch
          (try_catch
             (v2Response <- post (v2Request "/oauth/v2/refresh"
                                            "refresh_token" held) ;;
              setTokens (asData v2Response) ;;;
              ret (asData v2Response))
             (fun _ =>
                w1 <- get ;;
                v1Response <- post (v1Request "refresh_token"
                                      (Js.show (refreshToken (currentTokens w1)))) ;;
                v1Data <- v1Fields v1Response ;;
                w <- get ;;
                let transformedData :=
                  DObject
                    (mkV2 (w_access_token v1Data)
                          (Js.orS (w_refresh_token v1Data)
                                  (refreshToken (currentTokens w)))
                          (Js.orS (w_merchant_id v1Data)
                                  (merchantId (currentTokens w)))
                          (expiryFrom (now w) (w_expires_in v1Data))
                          (Js.orN (refreshTokenExpiry (currentTokens w))
                                  (Some (now w + 30 * 86400)))) in
                setTokens transformedData ;;;
                ret transformedData))
          (fun error => throw (refreshError error))
  end.

(** [tokenResponse.access_token] of what [refreshAccessToken] returned. *)
Definition accessTokenOf (d : Data) : M (option string) :=
  match d with
  | DObject r => ret (access_token r)
  | DText _ => ret None
  | DNull =>
      throw (TypeErr "Cannot read properties of null (reading 'access_token')")
  end.

(** [ensureValidToken()]. *)
Definition ensureValidToken : M (option string) :=
  w <- get ;;
  if negb (hasValidTokens w)
  then
    if Js.truthyS (refreshToken (currentTokens w))
    then
      try_catch
        (tokenResponse <- refreshAccessToken ;;
         accessTokenOf tokenResponse)
        (fun _ => throw (Err "Unable to refresh token. Please re-authenticate."))
    else
      throw (Err "No valid tokens available. Please authenticate using the OAuth flow.")
  else ret (accessToken (currentTokens w)).

(** [resolvePromise(value)] and [rejectPromise(reason)]: the stored callbacks
    are called once and both forgotten. *)
Definition resolvePromise (value : OAuthV2TokenResponse) : M unit :=
  w <- get ;;
  match promiseResolve w with
  | Some p =>
      modify (emit (Settle p (Resolved value))) ;;;
      modify (setPromise None None)
  | None => ret tt
  end.

Definition rejectPromise (reason : Exn) : M unit :=
  w <- get ;;
  match promiseReject w with
  | Some p =>
      modify (emit (Settle p (Rejected reason))) ;;;
      modify (setPromise None None)
  | None => ret tt
  end.

(** [closeServer()]: asks the listener to close; [this.server] is cleared by
    the callback of [close], see [closeCallback]. *)
Definition closeServer : M unit :=
  w <- get ;;
  match server w with
  | Some _ => modify (setClosing (S (closing w)))
  | None => ret tt
  end.

Definition closeCallback : M unit := modify (setServer None).

(** [res.status(code).send(page)]. *)
Definition respond (code : Z) (p : Page) : M unit :=
  modify (emit (Respond code p)).

(** The part of the callback route after the exchange, inside its [try]:
    the class body is strict code, so setting a property on a string throws. *)
Definition cannotCreate (prop s : string) : Exn :=
  TypeErr ("Cannot create property '" ++ prop ++ "' on string '" ++ s ++ "'").

Definition fillDefaults (callbackMerchantId : option string) (t : Z)
    (r : OAuthV2TokenResponse) : OAuthV2TokenResponse :=
  let r1 :=
    if negb (Js.truthyS (merchant_id r)) && Js.truthyS callbackMerchantId
    then mkV2 (access_token r) (refresh_token r) callbackMerchantId
              (access_token_expiry r) (refresh_token_expiry r)
    else r in
  let r2 :=
    if negb (Js.truthyN (access_token_expiry r1))
       || Js.isNaN (access_token_expiry r1)
    then mkV2 (access_token r1) (refresh_token r1) (merchant_id r1)
              (Some (t + 3600)) (refresh_token_expiry r1)
    else r1 in
  if negb (Js.truthyN (refresh_token_expiry r2))
     || Js.isNaN (refresh_token_expiry r2)
  then mkV2 (access_token r2) (refresh_token r2) (merchant_id r2)
            (access_token_expiry r2) (Some (t + 30 * 86400))
  else r2.

Definition noTokensInResponse : M unit :=
  respond 500 (Text "Error: Failed to obtain tokens") ;;;
  rejectPromise (Err "No tokens in response").

Definition afterExchange (callbackMerchantId : option string)
    (tokenResponse : Data) : M unit :=
  match tokenResponse with
  | DNull => noTokensInResponse
  | DText s =>
      if String.eqb s "" then noTokensInResponse
      else if Js.truthyS callbackMerchantId
           then throw (cannotCreate "merchant_id" s)
           else throw (cannotCreate "access_token_expiry" s)
  | DObject r =>
      w <- get ;;
      let filled := fillDefaults callbackMerchantId (now w) r in
      setTokens (DObject filled) ;;;
      respond 200 SuccessPage ;;;
      resolvePromise filled ;;;
      w' <- get ;;
      modify (setTimers (S (timers w')))
  end.

(** The route [app.get("/oauth-callback", ...)]. *)
Definition oauthCallback (q : Query) : M unit :=
  match q_code q with
  | None =>
      respond 400 (Text "Error: Missing authorization code") ;;;
      rejectPromise (Err "Missing authorization code")
  | Some code =>
      if negb (Js.truthyS (Some code))
      then
        respond 400 (Text "Error: Missing authorization code") ;;;
        rejectPromise (Err "Missing authorization code")
      else
        try_catch
          (tokenResponse <- exchangeCodeForTokens code ;;
           afterExchange (q_merchant_id q) tokenResponse)
          (fun error =>
             respond 500 (Text ("Error: " ++ messageOf error)) ;;;
             rejectPromise error)
  end.

(** [startOAuthFlow(port)], up to the call of [app.listen]; [rnd] is what
    [crypto.randomBytes(16).toString("hex")] gives.  Each call makes a new
    promise, numbered [nextPromise]. *)
Definition startOAuthFlow (port : Z) (rnd : string) : M unit :=
  w <- get ;;
  let p := nextPromise w in
  modify (setNextPromise (S p)) ;;;
  match server w with
  | Some _ =>
      modify (emit (Settle p (Rejected (Err "OAuth server is already running"))))
  | None =>
      modify (setPromise (Some p) (Some p)) ;;;
      modify (setState rnd) ;;;
      modify (setServer (Some port))
  end.

(** ** CloverApiClient: the interceptors of [updateClient] *)

(** The request interceptor: a valid token goes into the Authorization
    header; an error of [ensureValidToken] rejects the request. *)
Definition bearer (token : option string) : option string :=
  Some ("Bearer " ++ Js.show token).

Definition requestInterceptor (c : ReqConfig) : M ReqConfig :=
  try_catch
    (token <- ensureValidToken ;;
     ret (mkReqConfig (path c) (bearer token) (_retry c)))
    (fun error => throw error).

(** The request on the wire: a 2xx answer resolves, anything else rejects with
    an axios error that carries the config of the request. *)
Definition dispatch (c : ReqConfig) : M string :=
  fun w =>
    match upstream (trace w) c with
    | ApiOk data => (Ret data, emit (Dispatch c) w)
    | ApiFail st dm msg =>
        (Throw (AxiosErr (mkAxiosError st dm msg (Some c))), emit (Dispatch c) w)
    end.

(** [error.response?.status === 401]. *)
Definition is401 (e : AxiosError) : bool :=
  match status e with
  | Some s => Z.eqb s 401
  | None => false
  end.

(** The rejection handler of the response interceptor; [client] is
    [baseClient], which it calls for the retry.  The [catch] covers the
    refresh only: the promise of the retry is returned, not awaited. *)
Definition onRejected (client : ReqConfig -> M string) (error : Exn)
    : M string :=
  match error with
  | AxiosErr e =>
      if is401 e
      then
        match config e with
        | Some originalRequest =>
            if negb (_retry originalRequest)
            then
              try_catch (refreshAccessToken ;;; ret tt)
                        (fun refreshError => throw refreshError) ;;;
              client (mkReqConfig (path originalRequest)
                                  (authorization originalRequest) true)
            else throw error
        | None =>
            throw (TypeErr "Cannot read properties of undefined (reading '_retry')")
        end
      else throw error
  | _ => throw error
  end.

(** [baseClient(config)]: request interceptor, the request itself, response
    interceptor.  A custom property of the config such as [_retry] is carried
    over when axios merges the config of the retry.  [fuel] bounds the depth
    of retries. *)
Definition attempt (c : ReqConfig) : M string :=
  c' <- requestInterceptor c ;; dispatch c'.

Fixpoint baseClient (fuel : nat) (c : ReqConfig) : M string :=
  match fuel with
  | O => fun w => (Diverge, w)
  | S fuel' => try_catch (attempt c) (onRejected (baseClient fuel'))
  end.

(** What can happen to a client, one handler at a time. *)
Inductive Event :=
| StartFlow (port : Z) (rnd : string)
| Callback (q : Query)
| ServerError (e : Exn)
| TimerFire
| CloseDone
| Tick (seconds : Z)
| Refresh
| ApiRequest (c : ReqConfig).

Definition handle (ev : Event) : M unit :=
  match ev with
  | StartFlow port rnd => startOAuthFlow port rnd
  | Callback q =>
      w <- get ;;
      match server w with
      | Some _ => oauthCallback q
      | None => ret tt
      end
  | ServerError e => rejectPromise e
  | TimerFire =>
      w <- get ;;
      match timers w with
      | S n => modify (setTimers n) ;;; closeServer
      | O => ret tt
      end
  | CloseDone =>
      w <- get ;;
      match closing w with
      | S n => modify (setClosing n) ;;; closeCallback
      | O => ret tt
      end
  | Tick d => w <- get ;; modify (setNow (now w + Z.max 0 d))
  | Refresh => try_catch (refreshAccessToken ;;; ret tt) (fun _ => ret tt)
  | ApiRequest c => try_catch (baseClient 2 c ;;; ret tt) (fun _ => ret tt)
  end.

Definition step (w : World) (ev : Event) : World := snd (handle ev w).

Definition run (w : World) (evs : list Event) : World := fold_left step evs w.

End Client.

(** ** Strings and numbers in templates *)

From Stdlib Require Import Ascii DecimalString.

(** A [string] is a sequence of characters, one [ascii] each: text outside
    Latin-1 is not covered, so the only line terminators are line feed and
    carriage return. *)
Module Text.

(** [`${n}`] for a whole number. *)
Definition showZ (n : Z) : string := NilZero.string_of_int (Z.to_int n).

(** [`${n}`] for a number that may be missing. *)
Definition showN (v : option Z) : string :=
  match v with
  | Some n => showZ n
  | None => "undefined"
  end.

Definition nl : string := String "010"%char "".

(** [s.includes(c)] for a one-character [c]. *)
Fixpoint includes (c : ascii) (s : string) : bool :=
  match s with
  | "" => false
  | String x s' => Ascii.eqb x c || includes c s'
  end.

(** [s.startsWith(p) ? s.slice(p.length) : undefined]. *)
Fixpoint dropPrefix (p s : string) : option string :=
  match p, s with
  | "", _ => Some s
  | String a p', String b s' => if Ascii.eqb a b then dropPrefix p' s' else None
  | String _ _, "" => None
  end.

(** What comes before the first [c] of [s] (all of [s] without one), and what
    comes after it. *)
Fixpoint upTo (c : ascii) (s : string) : string :=
  match s with
  | "" => ""
  | String x s' => if Ascii.eqb x c then "" else String x (upTo c s')
  end.

Fixpoint after (c : ascii) (s : string) : string :=
  match s with
  | "" => ""
  | String x s' => if Ascii.eqb x c then s' else after c s'
  end.

(** [s.replace(/a/g, b)] for characters [a] and [b]. *)
Fixpoint replaceAll (a b : ascii) (s : string) : string :=
  match s with
  | "" => ""
  | String x s' => String (if Ascii.eqb x a then b else x) (replaceAll a b s')
  end.

(** [c.repeat(n)]. *)
Fixpoint repeat (c : ascii) (n : nat) : string :=
  match n with
  | O => ""
  | S n' => String c (repeat c n')
  end.

End Text.

(** ** CloverApiClient: the methods *)

Section Methods.

Variable cfg : OAuthConfig.
Variable authServer : list Effect -> Request -> HttpResult.
Variable upstream : list Effect -> ReqConfig -> ApiResult.

(** [JSON.parse(Buffer.from(paddedBase64, "base64").toString()).app_uuid] as
    [getAppId] uses it: the value when all of this succeeds and the value is
    truthy, nothing when it throws or the value is falsy. *)
Variable appUuid : string -> option string.

(** [ensureCredentials()]. *)
Definition ensureCredentials : M unit :=
  w <- get ;;
  let tokens := getTokens w in
  if negb (Js.truthyS (accessToken tokens))
  then throw (Err "API key is required. Use initiate_oauth_flow to obtain it.")
  else
    if negb (Js.truthyS (merchantId tokens))
    then throw (Err "Merchant ID is required. Use initiate_oauth_flow with a valid merchant account.")
    else ensureValidToken cfg authServer ;;; ret tt.

(** The [catch] of each method: an axios error becomes a plain error with
    the status and the message, anything else is thrown again. *)
Definition apiError (error : Exn) : Exn :=
  match error with
  | AxiosErr e =>
      Err ("Clover API error: " ++ Text.showN (status e) ++ " "
             ++ Js.show (Js.orS (dataMessage e) (Some (message e))))
  | _ => error
  end.

(** [this.client.get(path)]: the client with its interceptors, on a fresh
    config. *)
Definition clientGet (path : string) : M string :=
  baseClient cfg authServer upstream 2 (mkReqConfig path None false).

(** [getOrder(orderId)] and [getItem(itemId)]. *)
Definition getOrder (orderId : string) : M string :=
  ensureCredentials ;;;
  try_catch
    (w <- get ;;
     clientGet ("/v3/merchants/" ++ Js.show (merchantId (getTokens w))
                  ++ "/orders/" ++ orderId))
    (fun error => throw (apiError error)).

Definition getItem (itemId : string) : M string :=
  ensureCredentials ;;;
  try_catch
    (w <- get ;;
     clientGet ("/v3/merchants/" ++ Js.show (merchantId (getTokens w))
                  ++ "/items/" ++ itemId))
    (fun error => throw (apiError error)).

(** [getMerchantInfo()]: the request goes out through plain [axios.get], to
    the full address, not through the client with the interceptors. *)
Definition getMerchantInfo : M string :=
  ensureCredentials ;;;
  try_catch
    (token <- ensureValidToken cfg authServer ;;
     w <- get ;;
     dispatch upstream
       (mkReqConfig
          (baseUrl cfg ++ "/v3/merchants/" ++ Js.show (merchantId (getTokens w)))
          (bearer token) false))
    (fun error => throw (apiError error)).

(** The base64 text [getAppId] makes of the payload of a token. *)
Definition paddedBase64 (payload : string) : string :=
  let base64 :=
    Text.replaceAll "_" "/" (Text.replaceAll "-" "+" payload) in
  let padding := Nat.modulo (String.length base64) 4 in
  match padding with
  | O => base64
  | _ => base64 ++ Text.repeat "=" (4 - padding)
  end.

(** [token.split(".")[1]] for a token with a dot. *)
Definition payloadOf (token : string) : string :=
  Text.upTo "." (Text.after "." token).

(** [getAppId()]. *)
Definition getAppId : M (option string) :=
  try_catch
    (token <- ensureValidToken cfg authServer ;;
     match token with
     | None =>
         throw (TypeErr "Cannot read properties of undefined (reading 'includes')")
     | Some t =>
         if Text.includes "." t
         then
           match appUuid (paddedBase64 (payloadOf t)) with
           | Some uuid => ret (Some uuid)
           | None => ret (Some (clientId cfg))
           end
         else ret (Some (clientId cfg))
     end)
    (fun _ => ret None).

End Methods.

(** ** The [.env] mirror of the tokens *)

Module EnvFile.

Definition isLineTerminator (c : ascii) : bool :=
  Ascii.eqb c "010" || Ascii.eqb c "013".

(** What [.*] matches at the start of [s], and what is left. *)
Fixpoint restOfLine (s : string) : string * string :=
  match s with
  | "" => ("", "")
  | String c s' =>
      if isLineTerminator c then ("", s)
      else let (line, rest) := restOfLine s' in (String c line, rest)
  end.

(** The first occurrence of [key] in [s]: what is before it and what is
    after it. *)
Fixpoint search (key s : string) : option (string * string) :=
  match Text.dropPrefix key s with
  | Some rest => Some ("", rest)
  | None =>
      match s with
      | "" => None
      | String c s' =>
          match search key s' with
          | Some (before, rest) => Some (String c before, rest)
          | None => None
          end
      end
  end.

(** The replacement text of [String.prototype.replace] for a pattern
    without groups: [$$], [$&], [$`] and [$'] are expanded, every other
    character stands for itself. *)
Fixpoint substitute (replacement matched before rest : string) : string :=
  match replacement with
  | "" => ""
  | String c tail =>
      if Ascii.eqb c "$"
      then
        match tail with
        | String d tail' =>
            if Ascii.eqb d "$"
            then String "$" (substitute tail' matched before rest)
            else if Ascii.eqb d "&"
            then matched ++ substitute tail' matched before rest
            else if Ascii.eqb d "`"
            then before ++ substitute tail' matched before rest
            else if Ascii.eqb d "'"
            then rest ++ substitute tail' matched before rest
            else String c (substitute tail matched before rest)
        | "" => String c ""
        end
      else String c (substitute tail matched before rest)
  end.

(** [content.replace(/key.*/, replacement)] for a [key] of plain
    characters. *)
Definition replaceLine (key replacement content : string) : string :=
  match search key content with
  | None => content
  | Some (before, afterKey) =>
      let (line, rest) := restOfLine afterKey in
      before ++ substitute replacement (key ++ line) before rest ++ rest
  end.

(** [updateEnvFile()] on the content of the [.env] file, [None] when there is
    no such file: the new content.  Reading and writing are taken to
    succeed. *)
Definition updateEnvFile (tokens : Tokens) (file : option string)
    : option string :=
  match file with
  | None => None
  | Some envContent =>
      let withKey :=
        match accessToken tokens with
        | Some token =>
            if Js.truthyS (Some token)
            then replaceLine "CLOVER_API_KEY=" ("CLOVER_API_KEY=" ++ token)
                             envContent
            else envContent
        | None => envContent
        end in
      let withMerchant :=
        match merchantId tokens with
        | Some merchant =>
            if Js.truthyS (Some merchant)
            then replaceLine "CLOVER_MERCHANT_ID="
                             ("CLOVER_MERCHANT_ID=" ++ merchant) withKey
            else withKey
        | None => withKey
        end in
      Some withMerchant
  end.

End EnvFile.

(** ** The server: resources and status (index.ts) *)

Module Server.

(** [uri.match(/^prefix([^/]+)$/)], the group: the rest of [uri] after
    [prefix] when it is not empty and has no slash. *)
Definition idAfter (prefix uri : string) : option string :=
  match Text.dropPrefix prefix uri with
  | Some id =>
      if negb (String.eqb id "") && negb (Text.includes "/" id)
      then Some id
      else None
  | None => None
  end.

(** What the handler of [ReadResourceRequestSchema] does with a URI. *)
Inductive Resource :=
| ItemResource (itemId : string)
| OrderResource (orderId : string)
| InvalidUri.

Definition resourceOf (uri : string) : Resource :=
  match idAfter "clover://items/" uri with
  | Some itemId => ItemResource itemId
  | None =>
      match idAfter "clover://orders/" uri with
      | Some orderId => OrderResource orderId
      | None => InvalidUri
      end
  end.

(** [`${t.substring(0, 5)}...${t.substring(t.length - 5)}`]. *)
Definition maskToken (t : string) : string :=
  substring 0 5 t ++ "..." ++ substring (String.length t - 5) 5 t.

(** Numbers are doubles in the source and whole numbers here.  A difference
    of two whole numbers and its floored quotient by 60 or by 86400 are the
    same in both as long as the operands and the difference are safe
    integers, at most [Number.MAX_SAFE_INTEGER] in size, and [`${n}`] then
    prints the digits of the quotient.  Outside of this range the source
    rounds, and prints an exponent from 1e21 on: the model gives no text
    there. *)
Definition safeInteger (n : Z) : bool := Z.leb (Z.abs n) 9007199254740991.

Definition inRange (expiry t : Z) : bool :=
  safeInteger expiry && safeInteger t && safeInteger (expiry - t).

(** The two lines on the expiries in the text of [get_oauth_status]: the
    line, empty for an expiry that is missing or 0; nothing where the
    whole numbers are not those of the source. *)
Definition expiryLine (label unit : string) (per : Z) (expiry : option Z)
    (t : Z) : option string :=
  match expiry with
  | Some e =>
      if Js.truthyN (Some e)
      then
        if inRange e t
        then Some (Text.nl ++ label ++ " expires in: "
                     ++ Text.showZ ((e - t) / per) ++ " " ++ unit)
        else None
      else Some ""
  | None => Some ""
  end.

(** The text of the tool [get_oauth_status], where the model has one. *)
Definition oauthStatus (w : World) : option string :=
  let hasCredentials := hasValidTokens w in
  let tokens := getTokens w in
  let statusText :=
    if hasCredentials
    then "OAuth credentials are available and valid."
    else "OAuth credentials are not available. Use the initiate_oauth_flow tool to obtain them." in
  match accessToken tokens with
  | Some t =>
      if Js.truthyS (Some t)
      then
        match expiryLine "Access Token" "minutes" 60
                         (accessTokenExpiry tokens) (now w),
              expiryLine "Refresh Token" "days" 86400
                         (refreshTokenExpiry tokens) (now w) with
        | Some access, Some refresh =>
            Some (statusText
                    ++ Text.nl ++ Text.nl ++ "Access Token: " ++ maskToken t
                    ++ Text.nl ++ "Merchant ID: " ++ Js.show (merchantId tokens)
                    ++ access ++ refresh)
        | _, _ => None
        end
      else Some statusText
  | None => Some statusText
  end.

End Server.

(** ** Await points *)

(** The handlers above run each async function in one piece.  In the source
    an async function gives way at every [await] of a request to the
    authorization server, and other handlers run before the answer comes.
    Here such a function is taken as far as its next [await]: it has
    settled, or it waits for the answer to a request and goes on from there,
    in whatever world there is when the answer comes.  An [await] of a
    promise that has settled already goes on in the same turn. *)
#[local] Set Warnings "-register-all".
Inductive Async (A : Type) : Type :=
| Settled (r : Res A)
| Awaiting (request : Request) (k : HttpResult -> World -> Async A * World).
Arguments Settled {A} r.
Arguments Awaiting {A} request k.
#[local] Set Warnings "register-all".

Definition Step (A : Type) : Type := World -> Async A * World.

(** A piece of code without [await]. *)
Definition settle {A} (m : M A) : Step A :=
  fun w => let (r, w') := m w in (Settled r, w').

(** [await axios.post(request)], and what comes after it. *)
Definition await {A} (request : Request) (k : HttpResult -> Step A) : Step A :=
  fun w => (Awaiting request k, w).

(** [await t], and what comes after it. *)
Fixpoint andThen {A B} (t : Async A) (f : Res A -> Step B) (w : World)
    : Async B * World :=
  match t with
  | Settled r => f r w
  | Awaiting request k =>
      (Awaiting request
         (fun answer w1 => let (t', w1') := k answer w1 in andThen t' f w1'),
       w)
  end.

Section Awaits.

Variable cfg : OAuthConfig.
Variable authServer : list Effect -> Request -> HttpResult.

(** An async function run in one piece: every request is answered at once,
    as [post] does it. *)
Fixpoint complete {A} (t : Async A) (w : World) : Res A * World :=
  match t with
  | Settled r => (r, w)
  | Awaiting request k =>
      let (t', w') :=
        k (authServer (trace w) request) (emit (Post request) w) in
      complete t' w'
  end.

Definition atOnce {A} (s : Step A) : M A :=
  fun w => let (t, w') := s w in complete t w'.

(** [refreshAccessToken()], after the answer to the legacy request. *)
Definition refreshLegacyDone (answer : HttpResult) : M Data :=
  match answer with
  | HttpFail e => throw (refreshError (AxiosErr e))
  | HttpOk v1Response =>
      try_catch
        (v1Data <- v1Fields v1Response ;;
         w <- get ;;
         let transformedData :=
           DObject
             (mkV2 (w_access_token v1Data)
                   (Js.orS (w_refresh_token v1Data)
                           (refreshToken (currentTokens w)))
                   (Js.orS (w_merchant_id v1Data)
                           (merchantId (currentTokens w)))
                   (expiryFrom (now w) (w_expires_in v1Data))
                   (Js.orN (refreshTokenExpiry (currentTokens w))
                           (Some (now w + 30 * 86400)))) in
         setTokens transformedData ;;;
         ret transformedData)
        (fun error => throw (refreshError error))
  end.

(** The [catch (v2Error)] of [refreshAccessToken()], up to its [await]: the
    stored refresh token is read again. *)
Definition refreshLegacy : Step Data :=
  fun w =>
    await (v1Request cfg "refresh_token"
                     (Js.show (refreshToken (currentTokens w))))
          (fun answer => settle (refreshLegacyDone answer)) w.

(** [refreshAccessToken()], after the answer to the versioned request. *)
Definition refreshVersionedDone (answer : HttpResult) : Step Data :=
  match answer with
  | HttpFail _ => refreshLegacy
  | HttpOk v2Response =>
      fun w =>
        match setTokens (asData v2Response) w with
        | (Ret _, w') => (Settled (Ret (asData v2Response)), w')
        | (Throw _, w') => refreshLegacy w'
        | (Diverge, w') => (Settled Diverge, w')
        end
  end.

(** [refreshAccessToken()], up to its first [await]. *)
Definition refreshAsync : Step Data :=
  fun w =>
    let w0 := emit RefreshCall w in
    match refreshToken (currentTokens w0) with
    | None => (Settled (Throw (Err "No refresh token available")), w0)
    | Some held =>
        if negb (Js.truthyS (Some held))
        then (Settled (Throw (Err "No refresh token available")), w0)
        else
          await (v2Request cfg "/oauth/v2/refresh" "refresh_token" held)
                refreshVersionedDone w0
    end.

(** [exchangeCodeForTokens(code)], after the answer to the legacy request,
    after the answer to the versioned one, and up to its first [await]. *)
Definition exchangeLegacyDone (answer : HttpResult) : M Data :=
  match answer with
  | HttpFail e => throw (exchangeError (AxiosErr e))
  | HttpOk v1Response =>
      try_catch
        (v1Data <- v1Fields v1Response ;;
         w <- get ;;
         ret (DObject
                (mkV2 (w_access_token v1Data)
                      (Js.orS (w_refresh_token v1Data) (Some ""))
                      (w_merchant_id v1Data)
                      (expiryFrom (now w) (w_expires_in v1Data))
                      (Some (now w + 30 * 86400)))))
        (fun error => throw (exchangeError error))
  end.

Definition exchangeVersionedDone (code : string) (answer : HttpResult)
    : Step Data :=
  match answer with
  | HttpOk v2Response => settle (ret (asData v2Response))
  | HttpFail _ =>
      await (v1Request cfg "code" code)
            (fun answer' => settle (exchangeLegacyDone answer'))
  end.

Definition exchangeAsync (code : string) : Step Data :=
  await (v2Request cfg "/oauth/v2/token" "code" code)
        (exchangeVersionedDone code).

(** The callback route from the point where the exchange has settled: the
    rest of the [try], and the [catch]. *)
Definition exchangeFailed (error : Exn) : M unit :=
  respond 500 (Text ("Error: " ++ messageOf error)) ;;;
  rejectPromise error.

Definition callbackResumed (callbackMerchantId : option string)
    (tokenResponse : Res Data) : Step unit :=
  settle
    match tokenResponse with
    | Ret d => try_catch (afterExchange callbackMerchantId d) exchangeFailed
    | Throw error => exchangeFailed error
    | Diverge => fun w => (Diverge, w)
    end.

(** The route [app.get("/oauth-callback", ...)], up to its first [await]. *)
Definition callbackAsync (q : Query) : Step unit :=
  match q_code q with
  | None =>
      settle (respond 400 (Text "Error: Missing authorization code") ;;;
              rejectPromise (Err "Missing authorization code"))
  | Some code =>
      if negb (Js.truthyS (Some code))
      then
        settle (respond 400 (Text "Error: Missing authorization code") ;;;
                rejectPromise (Err "Missing authorization code"))
      else
        fun w =>
          let (t, w') := exchangeAsync code w in
          andThen t (callbackResumed (q_merchant_id q)) w'
  end.

End Awaits.

(** * What the properties are stated with *)

Open Scope list_scope.

(** ** Observations on a trace *)

(** The settlements delivered to promise [p], oldest first. *)
Fixpoint settlements (p : nat) (tr : list Effect) : list Settlement :=
  match tr with
  | [] => []
  | Settle q s :: tr' =>
      if Nat.eqb p q then s :: settlements p tr' else settlements p tr'
  | _ :: tr' => settlements p tr'
  end.

(** The requests sent to the authorization server. *)
Fixpoint posts (tr : list Effect) : list Request :=
  match tr with
  | [] => []
  | Post r :: tr' => r :: posts tr'
  | _ :: tr' => posts tr'
  end.

(** The requests sent to the merchant API. *)
Fixpoint dispatches (tr : list Effect) : list ReqConfig :=
  match tr with
  | [] => []
  | Dispatch c :: tr' => c :: dispatches tr'
  | _ :: tr' => dispatches tr'
  end.

(** The number of calls of [refreshAccessToken]. *)
Fixpoint refreshCalls (tr : list Effect) : nat :=
  match tr with
  | [] => O
  | RefreshCall :: tr' => S (refreshCalls tr')
  | _ :: tr' => refreshCalls tr'
  end.

Definition isPost (e : Effect) : bool :=
  match e with
  | Post _ => true
  | _ => false
  end.

(** [w'] differs from [w] in the stored tokens and the trace only. *)
Definition sameClient (w w' : World) : Prop :=
  now w' = now w /\ server w' = server w /\ state w' = state w
  /\ promiseResolve w' = promiseResolve w
  /\ promiseReject w' = promiseReject w
  /\ timers w' = timers w /\ closing w' = closing w
  /\ nextPromise w' = nextPromise w.

(** In a refresh the versioned tier gives way to the legacy one when its request is
    rejected, and when it answers [null]. *)
Definition v2GivesWay (r : HttpResult) : Prop :=
  (exists e, r = HttpFail e) \/ r = HttpOk BNull.

(** An effect other than the settlement of a promise. *)
Definition isQuiet (e : Effect) : bool :=
  match e with
  | Settle _ _ => false
  | _ => true
  end.

(** [w'] comes from [w] by a change of the stored tokens and by effects that
    settle no promise. *)
Definition quiet (w w' : World) : Prop :=
  sameClient w w'
  /\ exists tr, trace w' = trace w ++ tr /\ forallb isQuiet tr = true.

(** A computation whose final world is related by [R] to the one it starts
    in, wherever it starts. *)
Definition respects {A} (R : World -> World -> Prop) (m : M A) : Prop :=
  forall w, R w (snd (m w)).

(** A computation that is quiet wherever it starts. *)
Definition keeps {A} (m : M A) : Prop := respects quiet m.

(** A computation that returns or throws. *)
Definition total {A} (m : M A) : Prop := forall w, fst (m w) <> Diverge.

(** The promises of a world are in order: the two callbacks are kept and
    dropped together, a kept promise is not settled yet, no promise yet to be
    made is settled, and no promise is settled twice. *)
Definition sessionInv (w : World) : Prop :=
  promiseReject w = promiseResolve w
  /\ (forall p, promiseResolve w = Some p ->
                (p < nextPromise w)%nat /\ settlements p (trace w) = [])
  /\ (forall p, (nextPromise w <= p)%nat -> settlements p (trace w) = [])
  /\ (forall p, (length (settlements p (trace w)) <= 1)%nat).

(** [w'] comes from [w] by adding to the trace, and its promises are in
    order if those of [w] are. *)
Definition evolves (w w' : World) : Prop :=
  (sessionInv w -> sessionInv w')
  /\ exists tr, trace w' = trace w ++ tr.

(** How axios settles a request to the merchant API sent with config [c]. *)
Definition settled (c : ReqConfig) (a : ApiResult) : Res string :=
  match a with
  | ApiOk data => Ret data
  | ApiFail st dm msg => Throw (AxiosErr (mkAxiosError st dm msg (Some c)))
  end.

(** The record [setTokens] stores for an object. *)
Definition stored (r : OAuthV2TokenResponse) : Tokens :=
  mkTokens (access_token r) (refresh_token r) (merchant_id r)
           (access_token_expiry r) (refresh_token_expiry r).

(** ** Conditions of the specification *)

(** The access token expiry, when there is one, has been reached. *)
Definition expired (w : World) : Prop :=
  exists expiry,
    accessTokenExpiry (currentTokens w) = Some expiry /\ now w >= expiry.

(** The same for an expiry other than 0, which is what the code tests. *)
Definition expiredNonZero (w : World) : Prop :=
  exists expiry,
    accessTokenExpiry (currentTokens w) = Some expiry
    /\ expiry <> 0 /\ now w >= expiry.

(** A stored record with a token but no merchant id, or the reverse. *)
Definition partial (t : Tokens) : bool :=
  xorb (Js.truthyS (accessToken t)) (Js.truthyS (merchantId t)).

(** ** Scenarios *)

Module Scenario.

Definition cfg : OAuthConfig :=
  mkConfig "client" "secret" "https://sandbox.dev.clover.com"
           "http://localhost:4000/oauth-callback".

Definition fail (code : Z) : HttpResult :=
  HttpFail (mkAxiosError (Some code) None "Request failed" None).

(** An authorization server that answers on one path only. *)
Definition only (suffix : string) (b : Body) (h : list Effect) (r : Request)
    : HttpResult :=
  if String.eqb (url r) (baseUrl cfg ++ suffix) then HttpOk b else fail 404.

(** An authorization server that is down. *)
Definition down (h : list Effect) (r : Request) : HttpResult := fail 503.

(** A merchant API that accepts nothing, and one that accepts everything. *)
Definition unauthorized (h : list Effect) (c : ReqConfig) : ApiResult :=
  ApiFail (Some 401) None "Request failed with status code 401".

Definition fine (h : list Effect) (c : ReqConfig) : ApiResult := ApiOk "{}".

(** The legacy answer of the end-to-end scenario of the specification. *)
Definition legacyAnswer : WireObject :=
  mkWire (Some "tok123") None (Some "M1") None None (Some 1800).

(** A world holding a full record, not yet expired. *)
Definition authorized : World :=
  mkWorld (mkTokens (Some "old") (Some "r0") (Some "M1")
                    (Some 1700003600) (Some 1702592000))
          1700000000 None "" None None 0 0 0 [].

(** A token, a merchant id and an expiry of 0. *)
Definition zeroExpiry : World :=
  mkWorld (mkTokens (Some "tok") None (Some "M1") (Some 0) None)
          1700000000 None "" None None 0 0 0 [].

(** A versioned refresh answer that carries the new access token only. *)
Definition bareRefresh : WireObject :=
  mkWire (Some "new") None None (Some 1700007200) None None.

(** A versioned exchange answer without a merchant id. *)
Definition noMerchant : WireObject :=
  mkWire (Some "tok") (Some "r1") None None None None.

(** A versioned refresh answer that carries every field. *)
Definition fullRefresh : WireObject :=
  mkWire (Some "new") (Some "r1") (Some "M1") (Some 1700007200)
         (Some 1702592000) None.

(** An authorization server that knows the versioned exchange only and
    issues a token named after the code it is given. *)
Definition codeOf (r : Request) : string :=
  match fields r with
  | [_; _; (_, value)] => value
  | _ => ""
  end.

Definition issuing (h : list Effect) (r : Request) : HttpResult :=
  if String.eqb (url r) (baseUrl cfg ++ "/oauth/v2/token")
  then HttpOk (BObject (mkWire (Some ("tok-" ++ codeOf r)%string) (Some "r1")
                               (Some "M1") (Some 1700003600)
                               (Some 1702592000) None))
  else fail 404.

Definition start : World := initialWorld 1700000000.

Definition withCode (code : string) : Query :=
  mkQuery (Some code) None None None.

Definition withoutCode : Query := mkQuery None (Some "xyz") (Some "M1") None.


End Scenario.

(** ** More observations *)

(** The replies sent to the browser. *)
Fixpoint replies (tr : list Effect) : list (Z * Page) :=
  match tr with
  | [] => []
  | Respond code p :: tr' => (code, p) :: replies tr'
  | _ :: tr' => replies tr'
  end.

(** The record a returned [Data] stands for in the store: an object as it is,
    a text as a record without fields. *)
Definition recordOf (d : Data) : option Tokens :=
  match d with
  | DObject r => Some (stored r)
  | DText _ => Some noTokens
  | DNull => None
  end.

(** The access token a caller reads off a returned [Data]. *)
Definition tokenOf (d : Data) : option string :=
  match d with
  | DObject r => access_token r
  | _ => None
  end.

(** Promise [p] has been made and the client does not hold its callbacks. *)
Definition unheld (p : nat) (w : World) : Prop :=
  promiseResolve w <> Some p /\ promiseReject w <> Some p
  /\ (p < nextPromise w)%nat.

(** From [w] to [w'] an unheld promise stays unheld and gets no
    settlement. *)
Definition leaves (p : nat) (w w' : World) : Prop :=
  unheld p w ->
  unheld p w' /\ settlements p (trace w') = settlements p (trace w).

(** From [w] to [w'] the trace has grown by at most [d] requests to the
    merchant API, all of them satisfying [ok], and by at most [r] calls of
    [refreshAccessToken]. *)
Definition spends (d r : nat) (ok : ReqConfig -> Prop) (w w' : World) : Prop :=
  exists tr,
    trace w' = trace w ++ tr
    /\ (List.length (dispatches tr) <= d)%nat
    /\ (refreshCalls tr <= r)%nat
    /\ Forall ok (dispatches tr).

(** A request on path [p] that carries a bearer token. *)
Definition bearing (p : string) (c : ReqConfig) : Prop :=
  path c = p /\ exists token, authorization c = bearer token.

(** The two errors of [ensureCredentials]. *)
Definition keyRequired : Exn :=
  Err "API key is required. Use initiate_oauth_flow to obtain it.".

Definition merchantRequired : Exn :=
  Err "Merchant ID is required. Use initiate_oauth_flow with a valid merchant account.".

(** From [w] to [w'] one reply has been sent, with status [code]; the
    promise held in [w], if there is one, has got one settlement, a
    resolution exactly when [code] is 200; no other promise has got one; and
    unless [code] is 200 the stored record is as it was. *)
Definition answers (code : Z) (w w' : World) : Prop :=
  (exists page, replies (trace w') = replies (trace w) ++ [(code, page)])
  /\ (forall p, promiseResolve w = Some p ->
                exists s, settlements p (trace w')
                          = settlements p (trace w) ++ [s]
                          /\ (code = 200 <-> exists v, s = Resolved v))
  /\ (forall p, promiseResolve w <> Some p ->
                settlements p (trace w') = settlements p (trace w))
  /\ (code <> 200 -> currentTokens w' = currentTokens w).

(** ** The [.env] file as lines *)

(** Lines joined by line feeds. *)
Fixpoint joinLines (ls : list string) : string :=
  match ls with
  | [] => ""
  | l :: ls' =>
      match ls' with
      | [] => l
      | _ :: _ => l ++ Text.nl ++ joinLines ls'
      end
  end.

(** A text without line terminator, and one without dollar sign. *)
Definition noEol (s : string) : bool :=
  negb (Text.includes "010" s) && negb (Text.includes "013" s).

Definition noDollar (s : string) : bool := negb (Text.includes "$" s).

(** The first line that contains [key] is cut where [key] starts and [out]
    is put there; every other line stays. *)
Fixpoint editFirst (key out : string) (ls : list string) : list string :=
  match ls with
  | [] => []
  | l :: ls' =>
      match EnvFile.search key l with
      | Some (before, _) => (before ++ out)%string :: ls'
      | None => l :: editFirst key out ls'
      end
  end.

(** ** Further scenarios *)

Module Cases.

Import Scenario.

(** A world whose access token has run out and whose refresh token is still
    held. *)
Definition lapsed : World :=
  mkWorld (mkTokens (Some "old") (Some "r0") (Some "M1")
                    (Some 1700000000) (Some 1702592000))
          1700000000 None "" None None 0 0 0 [].

(** A callback with a code and the merchant id in the query. *)
Definition withMerchant : Query := mkQuery (Some "abc") None (Some "M9") None.

(** Two sessions, the first one answered twice and shut down once. *)
Definition twoSuccesses : list Event :=
  [StartFlow 4000 "s1"; Callback (withCode "a"); Callback (withCode "b");
   TimerFire; CloseDone].

Definition restarted : list Event :=
  [StartFlow 4000 "s1"; Callback (withCode "a"); TimerFire; CloseDone;
   StartFlow 4000 "s2"].

(** A merchant API that knows the merchant but fails. *)
Definition failing (h : list Effect) (c : ReqConfig) : ApiResult :=
  ApiFail (Some 500) (Some "boom") "Request failed with status code 500".

(** The record a finished session holds, and [.env] files. *)
Definition record : Tokens :=
  mkTokens (Some "tok-a") (Some "r1") (Some "M1")
           (Some 1700003600) (Some 1702592000).

Definition envLines : list string :=
  ["# clover"; "CLOVER_API_KEY=old # key"; "export CLOVER_MERCHANT_ID=";
   "CLOVER_API_KEY=second"]%string.

Definition otherEnv : string := "PORT=4000"%string.


End Cases.

(** * Properties *)

(** ** Truthiness *)

Lemma truthyS_spec (v : option string) :
  Js.truthyS v = true <-> exists s, v = Some s /\ s <> "".
Proof.
  destruct v as [s|]; simpl.
  - rewrite negb_true_iff. split.
    + intros H. exists s. split; [reflexivity|].
      intros ->. discriminate.
    + intros (s' & [= <-] & Hne). apply String.eqb_neq. exact Hne.
  - split; [discriminate|]. intros (s & H & _). discriminate.
Qed.

Lemma truthyN_spec (v : option Z) :
  Js.truthyN v = true <-> exists n, v = Some n /\ n <> 0.
Proof.
  destruct v as [n|]; simpl.
  - rewrite negb_true_iff, Z.eqb_neq. split.
    + intros H. exists n. auto.
    + intros (n' & [= <-] & Hne). exact Hne.
  - split; [discriminate|]. intros (n & H & _). discriminate.
Qed.

(** ** hasValidTokens *)

(** C4, as amended: [hasValidTokens()] is false exactly when the access token
    is missing or empty, or the merchant id is missing or empty, or the access
    token expiry is present, is not 0 and has been reached ([now >= expiry]);
    in every other state, a missing expiry and an expiry of 0 included, it is
    true. *)
Theorem hasValidTokens_false_iff (w : World) :
  hasValidTokens w = false <->
  Js.truthyS (accessToken (currentTokens w)) = false
  \/ Js.truthyS (merchantId (currentTokens w)) = false
  \/ expiredNonZero w.
Proof.
  unfold hasValidTokens, expiredNonZero.
  destruct (Js.truthyS (accessToken (currentTokens w))); simpl; [|tauto].
  destruct (Js.truthyS (merchantId (currentTokens w))); simpl; [|tauto].
  destruct (accessTokenExpiry (currentTokens w)) as [expiry|]; simpl.
  - destruct (Z.eqb_spec expiry 0) as [->|Hne]; simpl.
    + split; [discriminate|].
      intros [H|[H|(e & [= <-] & Hz & _)]]; try discriminate. now elim Hz.
    + destruct (Z.geb_spec (now w) expiry) as [Hge|Hlt].
      * split; [|reflexivity]. intros _. right. right.
        exists expiry. repeat split; [exact Hne|lia].
      * split; [discriminate|].
        intros [H|[H|(e & [= <-] & _ & Hge)]]; try discriminate. lia.
  - split; [discriminate|].
    intros [H|[H|(e & He & _)]]; discriminate.
Qed.

(** A stored record the code calls valid has a token and a merchant id. *)
Lemma hasValidTokens_complete (w : World) :
  hasValidTokens w = true ->
  Js.truthyS (accessToken (currentTokens w)) = true
  /\ Js.truthyS (merchantId (currentTokens w)) = true.
Proof.
  unfold hasValidTokens.
  destruct (Js.truthyS (accessToken (currentTokens w))); simpl; [|discriminate].
  destruct (Js.truthyS (merchantId (currentTokens w))); simpl; [|discriminate].
  auto.
Qed.

(** C4 as written fails: with an expiry of 0 the access token and the merchant
    id are present and [now >= access_token_expiry] holds, yet
    [hasValidTokens()] answers true. *)
Lemma hasValidTokens_zero_expiry :
  accessToken (currentTokens Scenario.zeroExpiry) = Some "tok"
  /\ merchantId (currentTokens Scenario.zeroExpiry) = Some "M1"
  /\ expired Scenario.zeroExpiry
  /\ hasValidTokens Scenario.zeroExpiry = true.
Proof.
  repeat split.
  exists 0. split; [reflexivity|]. simpl. lia.
Qed.

(** ** exchangeCodeForTokens *)

Section Exchange.

Variable cfg : OAuthConfig.
Variable authServer : list Effect -> Request -> HttpResult.

Let v2 (code : string) : Request := v2Request cfg "/oauth/v2/token" "code" code.
Let v1 (code : string) : Request := v1Request cfg "code" code.

(** The legacy request carries the code, the client id and the client secret
    of the versioned one, form-encoded, to [/oauth/token]. *)
Lemma legacy_request_same_fields (code : string) :
  fields (v1 code) = fields (v2 code)
  /\ fields (v1 code)
     = [("client_id", clientId cfg); ("client_secret", clientSecret cfg);
        ("code", code)]
  /\ encoding (v1 code) = FormBody
  /\ url (v1 code) = (baseUrl cfg ++ "/oauth/token")%string.
Proof. repeat split. Qed.

(** A 2xx answer of the versioned endpoint is returned as it came, and the
    legacy endpoint is not tried. *)
Lemma exchange_v2_answer (code : string) (w : World) (b : Body) :
  authServer (trace w) (v2 code) = HttpOk b ->
  exchangeCodeForTokens cfg authServer code w
  = (Ret (asData b), emit (Post (v2 code)) w).
Proof.
  intros H. unfold exchangeCodeForTokens, try_catch, bind, post.
  fold (v2 code). rewrite H. reflexivity.
Qed.

(** After a rejected versioned request the legacy request is sent; the
    exchange fails when that one is rejected too. *)
Lemma exchange_both_rejected (code : string) (w : World) (e2 e1 : AxiosError) :
  authServer (trace w) (v2 code) = HttpFail e2 ->
  authServer (trace w ++ [Post (v2 code)]) (v1 code) = HttpFail e1 ->
  exchangeCodeForTokens cfg authServer code w
  = (Throw (exchangeError (AxiosErr e1)),
     emit (Post (v1 code)) (emit (Post (v2 code)) w)).
Proof.
  intros H2 H1. unfold exchangeCodeForTokens, try_catch, bind, post.
  fold (v2 code) (v1 code). rewrite H2. simpl. rewrite H1. reflexivity.
Qed.

Lemma exchange_legacy_null (code : string) (w : World) (e2 : AxiosError) :
  authServer (trace w) (v2 code) = HttpFail e2 ->
  authServer (trace w ++ [Post (v2 code)]) (v1 code) = HttpOk BNull ->
  exists m,
    exchangeCodeForTokens cfg authServer code w
    = (Throw (TypeErr m), emit (Post (v1 code)) (emit (Post (v2 code)) w)).
Proof.
  intros H2 H1. unfold exchangeCodeForTokens, try_catch, bind, post.
  fold (v2 code) (v1 code). rewrite H2. simpl. rewrite H1. simpl.
  eexists. reflexivity.
Qed.

Lemma exchange_legacy_object (code : string) (w : World) (e2 : AxiosError)
    (d : WireObject) :
  authServer (trace w) (v2 code) = HttpFail e2 ->
  authServer (trace w ++ [Post (v2 code)]) (v1 code) = HttpOk (BObject d) ->
  exchangeCodeForTokens cfg authServer code w
  = (Ret (DObject
            (mkV2 (w_access_token d)
                  (Js.orS (w_refresh_token d) (Some ""))
                  (w_merchant_id d)
                  (expiryFrom (now w) (w_expires_in d))
                  (Some (now w + 30 * 86400)))),
     emit (Post (v1 code)) (emit (Post (v2 code)) w)).
Proof.
  intros H2 H1. unfold exchangeCodeForTokens, try_catch, bind, post.
  fold (v2 code) (v1 code). rewrite H2. simpl. rewrite H1. reflexivity.
Qed.

Lemma exchange_legacy_text (code : string) (w : World) (e2 : AxiosError)
    (s : string) :
  authServer (trace w) (v2 code) = HttpFail e2 ->
  authServer (trace w ++ [Post (v2 code)]) (v1 code) = HttpOk (BText s) ->
  exchangeCodeForTokens cfg authServer code w
  = (Ret (DObject (mkV2 None (Some "") None (Some (now w + 3600))
                        (Some (now w + 30 * 86400)))),
     emit (Post (v1 code)) (emit (Post (v2 code)) w)).
Proof.
  intros H2 H1. unfold exchangeCodeForTokens, try_catch, bind, post.
  fold (v2 code) (v1 code). rewrite H2. simpl. rewrite H1. reflexivity.
Qed.

(** The exchange touches nothing but the trace, to which it adds its one or
    two requests. *)
Lemma exchange_world (code : string) (w : World) :
  snd (exchangeCodeForTokens cfg authServer code w) = emit (Post (v2 code)) w
  \/ snd (exchangeCodeForTokens cfg authServer code w)
     = emit (Post (v1 code)) (emit (Post (v2 code)) w).
Proof.
  destruct (authServer (trace w) (v2 code)) as [b|e2] eqn:H2.
  - left. now rewrite (exchange_v2_answer _ _ _ H2).
  - right.
    destruct (authServer (trace w ++ [Post (v2 code)]) (v1 code))
      as [[d|s|]|e1] eqn:H1.
    + now rewrite (exchange_legacy_object _ _ _ _ H2 H1).
    + now rewrite (exchange_legacy_text _ _ _ _ H2 H1).
    + destruct (exchange_legacy_null _ _ _ H2 H1) as (m & ->). reflexivity.
    + now rewrite (exchange_both_rejected _ _ _ _ H2 H1).
Qed.

(** The exchange never runs out of fuel: it has no loop. *)
Lemma exchange_returns (code : string) (w : World) :
  fst (exchangeCodeForTokens cfg authServer code w) <> Diverge.
Proof.
  destruct (authServer (trace w) (v2 code)) as [b|e2] eqn:H2.
  - now rewrite (exchange_v2_answer _ _ _ H2).
  - destruct (authServer (trace w ++ [Post (v2 code)]) (v1 code))
      as [[d|s|]|e1] eqn:H1.
    + now rewrite (exchange_legacy_object _ _ _ _ H2 H1).
    + now rewrite (exchange_legacy_text _ _ _ _ H2 H1).
    + destruct (exchange_legacy_null _ _ _ H2 H1) as (m & ->). discriminate.
    + rewrite (exchange_both_rejected _ _ _ _ H2 H1). discriminate.
Qed.

(** C6, as amended: when the request to the versioned JSON endpoint is
    rejected (network error or non-2xx status), [exchangeCodeForTokens] sends
    the legacy form-encoded request with the same code, client id and client
    secret before failing, and it fails only when the legacy request is
    rejected too or answers [null]; a 2xx answer of the versioned endpoint is
    returned as received, whatever its body, and the legacy endpoint is not
    tried. *)
Theorem exchange_fallback (code : string) (w : World) :
  let out := exchangeCodeForTokens cfg authServer code w in
  fields (v1 code) = fields (v2 code)
  /\ match authServer (trace w) (v2 code) with
     | HttpOk b =>
         fst out = Ret (asData b)
         /\ trace (snd out) = trace w ++ [Post (v2 code)]
     | HttpFail _ =>
         trace (snd out) = trace w ++ [Post (v2 code); Post (v1 code)]
         /\ match authServer (trace w ++ [Post (v2 code)]) (v1 code) with
            | HttpOk BNull => exists m, fst out = Throw (TypeErr m)
            | HttpOk _ => exists r, fst out = Ret (DObject r)
            | HttpFail e1 => fst out = Throw (exchangeError (AxiosErr e1))
            end
     end.
Proof.
  cbv zeta. split; [reflexivity|].
  destruct (authServer (trace w) (v2 code)) as [b|e2] eqn:H2.
  - rewrite (exchange_v2_answer _ _ _ H2). split; reflexivity.
  - destruct (authServer (trace w ++ [Post (v2 code)]) (v1 code))
      as [[d|s|]|e1] eqn:H1.
    + rewrite (exchange_legacy_object _ _ _ _ H2 H1). simpl.
      rewrite <- app_assoc. split; [reflexivity|]. eexists. reflexivity.
    + rewrite (exchange_legacy_text _ _ _ _ H2 H1). simpl.
      rewrite <- app_assoc. split; [reflexivity|]. eexists. reflexivity.
    + destruct (exchange_legacy_null _ _ _ H2 H1) as (m & ->). simpl.
      rewrite <- app_assoc. split; [reflexivity|]. eexists. reflexivity.
    + rewrite (exchange_both_rejected _ _ _ _ H2 H1). simpl.
      rewrite <- app_assoc. split; reflexivity.
Qed.

(** C7: when the versioned request is rejected and the legacy endpoint
    answers [{access_token: "tok123", merchant_id: "M1", expires_in: 1800}]
    without a refresh token, [exchangeCodeForTokens] returns the record
    [{access_token: "tok123", refresh_token: "", merchant_id: "M1",
    access_token_expiry: now + 1800, refresh_token_expiry: now + 2592000}]. *)
Theorem exchange_legacy_scenario (code : string) (w : World) (e2 : AxiosError)
    (x y : option Z) :
  authServer (trace w) (v2 code) = HttpFail e2 ->
  authServer (trace w ++ [Post (v2 code)]) (v1 code)
  = HttpOk (BObject (mkWire (Some "tok123") None (Some "M1") x y (Some 1800))) ->
  fst (exchangeCodeForTokens cfg authServer code w)
  = Ret (DObject (mkV2 (Some "tok123") (Some "") (Some "M1")
                       (Some (now w + 1800)) (Some (now w + 2592000)))).
Proof.
  intros H2 H1. rewrite (exchange_legacy_object _ _ _ _ H2 H1). reflexivity.
Qed.

End Exchange.

(** C7 on the scenario: a server that knows the legacy endpoint only. *)
Lemma exchange_legacy_scenario_run :
  fst (exchangeCodeForTokens Scenario.cfg
         (Scenario.only "/oauth/token" (BObject Scenario.legacyAnswer))
         "code-1" Scenario.authorized)
  = Ret (DObject (mkV2 (Some "tok123") (Some "") (Some "M1")
                       (Some (1700000000 + 1800))
                       (Some (1700000000 + 2592000)))).
Proof.
  apply (exchange_legacy_scenario Scenario.cfg
           (Scenario.only "/oauth/token" (BObject Scenario.legacyAnswer))
           "code-1" Scenario.authorized
           (mkAxiosError (Some 404) None "Request failed" None) None None);
    reflexivity.
Defined.

(** C6 as written fails for a malformed body: the versioned endpoint answers
    200 with a body that is not JSON, or with a JSON object that is no token
    response; [exchangeCodeForTokens] returns what it got and sends nothing to
    the legacy endpoint. *)
Lemma exchange_malformed_no_fallback :
  let text :=
    exchangeCodeForTokens Scenario.cfg
      (Scenario.only "/oauth/v2/token" (BText "<html>Bad gateway</html>"))
      "code-1" Scenario.authorized in
  let empty :=
    exchangeCodeForTokens Scenario.cfg
      (Scenario.only "/oauth/v2/token"
         (BObject (mkWire None None None None None None)))
      "code-1" Scenario.authorized in
  (fst text = Ret (DText "<html>Bad gateway</html>")
   /\ posts (trace (snd text))
      = [v2Request Scenario.cfg "/oauth/v2/token" "code" "code-1"])
  /\ (fst empty = Ret (DObject (mkV2 None None None None None))
      /\ posts (trace (snd empty))
         = [v2Request Scenario.cfg "/oauth/v2/token" "code" "code-1"]).
Proof. repeat split. Qed.

(** ** refreshAccessToken *)

Section Refresh.

Variable cfg : OAuthConfig.
Variable authServer : list Effect -> Request -> HttpResult.

Let refresh := refreshAccessToken cfg authServer.
Let v2 (held : string) : Request :=
  v2Request cfg "/oauth/v2/refresh" "refresh_token" held.
Let v1 (held : string) : Request := v1Request cfg "refresh_token" held.

Lemma sameClient_refl (w : World) : sameClient w w.
Proof. repeat split. Qed.

Lemma sameClient_trans (a b c : World) :
  sameClient a b -> sameClient b c -> sameClient a c.
Proof.
  unfold sameClient. intros H1 H2.
  decompose [and] H1. decompose [and] H2. repeat split; congruence.
Qed.

(** Without a refresh token nothing is sent. *)
Lemma refresh_without_token (w : World) :
  Js.truthyS (refreshToken (currentTokens w)) = false ->
  refresh w = (Throw (Err "No refresh token available"), emit RefreshCall w).
Proof.
  intros H. unfold refresh, refreshAccessToken, bind, modify, get. simpl.
  destruct (refreshToken (currentTokens w)) as [held|]; [|reflexivity].
  simpl in H. apply negb_false_iff in H. rewrite H. reflexivity.
Qed.

(** The versioned tier: the answer is stored as it came. *)
Lemma refresh_v2_object (w : World) (held : string) (d : WireObject) :
  refreshToken (currentTokens w) = Some held -> held <> "" ->
  authServer (trace w ++ [RefreshCall]) (v2 held) = HttpOk (BObject d) ->
  refresh w
  = (Ret (DObject (asV2 d)),
     setCurrentTokens (stored (asV2 d))
       (emit (Post (v2 held)) (emit RefreshCall w))).
Proof.
  intros Ht Hne H2.
  unfold refresh, refreshAccessToken, bind, modify, get, try_catch, post.
  simpl. rewrite Ht. simpl.
  apply String.eqb_neq in Hne. rewrite Hne. simpl.
  fold (v2 held). rewrite H2. reflexivity.
Qed.

Lemma refresh_v2_text (w : World) (held s : string) :
  refreshToken (currentTokens w) = Some held -> held <> "" ->
  authServer (trace w ++ [RefreshCall]) (v2 held) = HttpOk (BText s) ->
  refresh w
  = (Ret (DText s),
     setCurrentTokens noTokens (emit (Post (v2 held)) (emit RefreshCall w))).
Proof.
  intros Ht Hne H2.
  unfold refresh, refreshAccessToken, bind, modify, get, try_catch, post.
  simpl. rewrite Ht. simpl.
  apply String.eqb_neq in Hne. rewrite Hne. simpl.
  fold (v2 held). rewrite H2. reflexivity.
Qed.

(** The legacy tier: what the answer omits is taken from the stored record. *)
Lemma refresh_legacy_object (w : World) (held : string) (d : WireObject) :
  refreshToken (currentTokens w) = Some held -> held <> "" ->
  v2GivesWay (authServer (trace w ++ [RefreshCall]) (v2 held)) ->
  authServer (trace w ++ [RefreshCall; Post (v2 held)]) (v1 held)
  = HttpOk (BObject d) ->
  let r := mkV2 (w_access_token d)
                (Js.orS (w_refresh_token d) (Some held))
                (Js.orS (w_merchant_id d) (merchantId (currentTokens w)))
                (expiryFrom (now w) (w_expires_in d))
                (Js.orN (refreshTokenExpiry (currentTokens w))
                        (Some (now w + 30 * 86400))) in
  refresh w
  = (Ret (DObject r),
     setCurrentTokens (stored r)
       (emit (Post (v1 held)) (emit (Post (v2 held)) (emit RefreshCall w)))).
Proof.
  intros Ht Hne H2 H1.
  unfold refresh, refreshAccessToken, bind, modify, get, try_catch, post.
  simpl. rewrite Ht. simpl.
  apply String.eqb_neq in Hne. rewrite Hne. simpl.
  fold (v2 held).
  destruct H2 as [(e & ->)| ->]; simpl; rewrite Ht; simpl; fold (v1 held);
    rewrite <- app_assoc; simpl; rewrite H1; simpl; rewrite Ht; reflexivity.
Qed.

(** Every way a refresh can go: it returns or throws, it changes the stored
    tokens and the trace only, it adds its own mark and then requests to the
    authorization server only, and when it throws the stored tokens are what
    they were. *)
Lemma refresh_outcome (w : World) :
  sameClient w (snd (refresh w))
  /\ fst (refresh w) <> Diverge
  /\ fst (refresh w) <> Ret DNull
  /\ (exists ps, trace (snd (refresh w)) = trace w ++ RefreshCall :: ps
                 /\ forallb isPost ps = true)
  /\ (forall e, fst (refresh w) = Throw e ->
                currentTokens (snd (refresh w)) = currentTokens w).
Proof.
  assert (Hlegacy : forall held,
    refreshToken (currentTokens w) = Some held ->
    forall r2, v2GivesWay r2 ->
    authServer (trace w ++ [RefreshCall]) (v2 held) = r2 ->
    (held =? "")%string = false ->
    sameClient w (snd (refresh w))
    /\ fst (refresh w) <> Diverge
    /\ fst (refresh w) <> Ret DNull
    /\ (exists ps, trace (snd (refresh w)) = trace w ++ RefreshCall :: ps
                   /\ forallb isPost ps = true)
    /\ (forall e, fst (refresh w) = Throw e ->
                  currentTokens (snd (refresh w)) = currentTokens w)).
  { intros held Ht r2 Hr2 H2 Hne.
    unfold refresh, refreshAccessToken, bind, modify, get, try_catch, post.
    simpl. rewrite Ht. simpl. rewrite Hne. simpl. fold (v2 held). rewrite H2.
    destruct Hr2 as [(e2 & ->)| ->]; simpl; rewrite Ht; simpl;
      fold (v1 held);
      destruct (authServer ((trace w ++ [RefreshCall]) ++ [Post (v2 held)])
                           (v1 held)) as [[d1|s1|]|e1]; simpl;
      (split; [repeat split|]);
      (split; [discriminate|]);
      (split; [discriminate|]);
      (split; [eexists; rewrite <- ?app_assoc; simpl; split; reflexivity|]);
      intros e0 He0; try discriminate; reflexivity. }
  destruct (refreshToken (currentTokens w)) as [held|] eqn:Ht.
  - destruct (String.eqb held "") eqn:Hne.
    + rewrite refresh_without_token
        by (rewrite Ht; simpl; now rewrite Hne).
      simpl. repeat split; try discriminate.
      exists []. split; reflexivity.
    + assert (Hne' : held <> "") by now apply String.eqb_neq.
      destruct (authServer (trace w ++ [RefreshCall]) (v2 held))
        as [[d|s|]|e2] eqn:H2.
      * rewrite (refresh_v2_object w held d Ht Hne' H2). simpl.
        repeat split; try discriminate.
        eexists. rewrite <- app_assoc. simpl. split; reflexivity.
      * rewrite (refresh_v2_text w held s Ht Hne' H2). simpl.
        repeat split; try discriminate.
        eexists. rewrite <- app_assoc. simpl. split; reflexivity.
      * apply (Hlegacy held eq_refl (HttpOk BNull)); auto.
        now right.
      * apply (Hlegacy held eq_refl (HttpFail e2)); auto.
        left. now exists e2.
  - rewrite refresh_without_token by now rewrite Ht.
    simpl. repeat split; try discriminate.
    exists []. split; reflexivity.
Qed.

Lemma refresh_returns (w : World) : fst (refresh w) <> Diverge.
Proof. apply refresh_outcome. Qed.

Lemma refresh_sameClient (w : World) : sameClient w (snd (refresh w)).
Proof. apply refresh_outcome. Qed.

Lemma refresh_trace (w : World) :
  exists ps, trace (snd (refresh w)) = trace w ++ RefreshCall :: ps
             /\ forallb isPost ps = true.
Proof. apply refresh_outcome. Qed.

(** A failed refresh leaves the stored record as it was. *)
Lemma refresh_failed_keeps_tokens (w : World) (e : Exn) :
  fst (refresh w) = Throw e ->
  currentTokens (snd (refresh w)) = currentTokens w.
Proof. apply refresh_outcome. Qed.

(** On the legacy tier a refresh token, a merchant id and a refresh token
    expiry that were known stay known when the answer omits them. *)
Lemma refresh_legacy_backfills (w : World) (held : string) (d : WireObject) :
  refreshToken (currentTokens w) = Some held -> held <> "" ->
  v2GivesWay (authServer (trace w ++ [RefreshCall]) (v2 held)) ->
  authServer (trace w ++ [RefreshCall; Post (v2 held)]) (v1 held)
  = HttpOk (BObject d) ->
  let t' := currentTokens (snd (refresh w)) in
  Js.truthyS (refreshToken t') = true
  /\ (Js.truthyS (merchantId (currentTokens w)) = true ->
      Js.truthyS (merchantId t') = true)
  /\ (Js.truthyN (refreshTokenExpiry (currentTokens w)) = true ->
      refreshTokenExpiry t' = refreshTokenExpiry (currentTokens w))
  /\ (w_refresh_token d = None -> refreshToken t' = Some held)
  /\ (w_merchant_id d = None -> merchantId t' = merchantId (currentTokens w)).
Proof.
  intros Ht Hne H2 H1.
  rewrite (refresh_legacy_object w held d Ht Hne H2 H1). simpl.
  assert (Hheld : Js.truthyS (Some held) = true).
  { simpl. apply negb_true_iff, String.eqb_neq, Hne. }
  repeat split.
  - unfold Js.orS. destruct (Js.truthyS (w_refresh_token d)) eqn:E; auto.
  - intros Hm. unfold Js.orS.
    destruct (Js.truthyS (w_merchant_id d)) eqn:E; auto.
  - intros He. unfold Js.orN. now rewrite He.
  - intros ->. reflexivity.
  - intros ->. reflexivity.
Qed.

End Refresh.

(** C1 fails on the versioned tier: the stored record holds a refresh token, a
    merchant id and a refresh token expiry; the versioned refresh endpoint
    answers with a new access token and its expiry only; the refresh succeeds
    and the three fields it did not get are cleared. *)
Theorem refresh_v2_clears_omitted_fields :
  let before := currentTokens Scenario.authorized in
  let out :=
    refreshAccessToken Scenario.cfg
      (Scenario.only "/oauth/v2/refresh" (BObject Scenario.bareRefresh))
      Scenario.authorized in
  let after := currentTokens (snd out) in
  fst out = Ret (DObject (asV2 Scenario.bareRefresh))
  /\ (refreshToken before = Some "r0" /\ refreshToken after = None)
  /\ (merchantId before = Some "M1" /\ merchantId after = None)
  /\ (refreshTokenExpiry before = Some 1702592000
      /\ refreshTokenExpiry after = None).
Proof. cbv zeta. repeat split. Qed.

(** The same answer on the legacy tier keeps the three fields. *)
Example refresh_legacy_keeps_omitted_fields :
  let out :=
    refreshAccessToken Scenario.cfg
      (Scenario.only "/oauth/token" (BObject Scenario.bareRefresh))
      Scenario.authorized in
  currentTokens (snd out)
  = mkTokens (Some "new") (Some "r0") (Some "M1")
             (Some (1700000000 + 3600)) (Some 1702592000).
Proof. reflexivity. Qed.

(** ** Traces and frames *)

Lemma settlements_app (p : nat) (a b : list Effect) :
  settlements p (a ++ b) = settlements p a ++ settlements p b.
Proof.
  induction a as [|e a IH]; simpl; [reflexivity|].
  destruct e; auto. destruct (Nat.eqb p promise); simpl; now rewrite IH.
Qed.

Lemma posts_app (a b : list Effect) : posts (a ++ b) = posts a ++ posts b.
Proof.
  induction a as [|e a IH]; simpl; [reflexivity|].
  destruct e; simpl; now rewrite ?IH.
Qed.

Lemma dispatches_app (a b : list Effect) :
  dispatches (a ++ b) = dispatches a ++ dispatches b.
Proof.
  induction a as [|e a IH]; simpl; [reflexivity|].
  destruct e; simpl; now rewrite ?IH.
Qed.

Lemma refreshCalls_app (a b : list Effect) :
  refreshCalls (a ++ b) = (refreshCalls a + refreshCalls b)%nat.
Proof.
  induction a as [|e a IH]; simpl; [reflexivity|].
  destruct e; simpl; now rewrite ?IH.
Qed.

Lemma settlements_quiet (p : nat) (tr : list Effect) :
  forallb isQuiet tr = true -> settlements p tr = [].
Proof.
  induction tr as [|e tr IH]; simpl; [reflexivity|].
  intros H. apply andb_true_iff in H as [He Htr].
  destruct e; auto. discriminate.
Qed.

Lemma posts_only (tr : list Effect) :
  forallb isPost tr = true ->
  forallb isQuiet tr = true /\ dispatches tr = [] /\ refreshCalls tr = O.
Proof.
  induction tr as [|e tr IH]; simpl; [auto|].
  intros H. apply andb_true_iff in H as [He Htr].
  destruct e; try discriminate. simpl. auto.
Qed.

Lemma quiet_refl (w : World) : quiet w w.
Proof.
  split; [apply sameClient_refl|].
  exists []. now rewrite app_nil_r.
Qed.

Lemma quiet_trans (a b c : World) : quiet a b -> quiet b c -> quiet a c.
Proof.
  intros [S1 (t1 & E1 & Q1)] [S2 (t2 & E2 & Q2)]. split.
  - eapply sameClient_trans; eassumption.
  - exists (t1 ++ t2). rewrite E2, E1, app_assoc. split; [reflexivity|].
    rewrite forallb_app, Q1, Q2. reflexivity.
Qed.

Lemma quiet_settlements (w w' : World) (p : nat) :
  quiet w w' -> settlements p (trace w') = settlements p (trace w).
Proof.
  intros [_ (tr & -> & Q)].
  rewrite settlements_app, (settlements_quiet p tr Q). apply app_nil_r.
Qed.

Lemma quiet_emit (e : Effect) (w : World) :
  isQuiet e = true -> quiet w (emit e w).
Proof.
  intros H. split; [repeat split|].
  exists [e]. simpl. now rewrite H.
Qed.

Lemma quiet_setCurrentTokens (t : Tokens) (w : World) :
  quiet w (setCurrentTokens t w).
Proof.
  split; [repeat split|]. exists []. simpl. now rewrite app_nil_r.
Qed.

(** A quiet computation keeps the promises in order. *)
Lemma quiet_sessionInv (w w' : World) :
  quiet w w' -> sessionInv w -> sessionInv w'.
Proof.
  intros Q (H1 & H2 & H3 & H4).
  pose proof Q as [(_ & _ & _ & Eres & Erej & _ & _ & Enext) _].
  unfold sessionInv.
  rewrite Eres, Erej, Enext.
  repeat split; auto.
  - apply (H2 p H).
  - rewrite (quiet_settlements w w' p Q). apply (H2 p H).
  - intros p Hp. rewrite (quiet_settlements w w' p Q). auto.
  - intros p. rewrite (quiet_settlements w w' p Q). auto.
Qed.

(** *** Computations that respect a preorder on worlds *)

Section Respects.

Variable R : World -> World -> Prop.
Hypothesis R_refl : forall w, R w w.
Hypothesis R_trans : forall a b c, R a b -> R b c -> R a c.

Lemma respects_ret {A} (a : A) : respects R (ret a).
Proof. intros w. apply R_refl. Qed.

Lemma respects_throw {A} (e : Exn) : respects R (@throw A e).
Proof. intros w. apply R_refl. Qed.

Lemma respects_get : respects R get.
Proof. intros w. apply R_refl. Qed.

Lemma respects_modify (f : World -> World) :
  (forall w, R w (f w)) -> respects R (modify f).
Proof. intros H w. apply H. Qed.

Lemma respects_bind {A B} (m : M A) (k : A -> M B) :
  respects R m -> (forall a, respects R (k a)) -> respects R (bind m k).
Proof.
  intros Hm Hk w. unfold bind. specialize (Hm w).
  destruct (m w) as [[a|e|] w1]; simpl in *; auto.
  eapply R_trans; [exact Hm|]. apply Hk.
Qed.

Lemma respects_try_catch {A} (m : M A) (h : Exn -> M A) :
  respects R m -> (forall e, respects R (h e)) -> respects R (try_catch m h).
Proof.
  intros Hm Hh w. unfold try_catch. specialize (Hm w).
  destruct (m w) as [[a|e|] w1]; simpl in *; auto.
  eapply R_trans; [exact Hm|]. apply Hh.
Qed.

End Respects.

(** *** The computations that settle no promise *)

Section Keeps.

Variable cfg : OAuthConfig.
Variable authServer : list Effect -> Request -> HttpResult.
Variable upstream : list Effect -> ReqConfig -> ApiResult.

Lemma keeps_ret {A} (a : A) : keeps (ret a).
Proof. apply (respects_ret quiet quiet_refl). Qed.

Lemma keeps_throw {A} (e : Exn) : keeps (@throw A e).
Proof. apply (respects_throw quiet quiet_refl). Qed.

Lemma keeps_get : keeps get.
Proof. apply (respects_get quiet quiet_refl). Qed.

Lemma keeps_bind {A B} (m : M A) (k : A -> M B) :
  keeps m -> (forall a, keeps (k a)) -> keeps (bind m k).
Proof. apply (respects_bind quiet quiet_trans). Qed.

Lemma keeps_try_catch {A} (m : M A) (h : Exn -> M A) :
  keeps m -> (forall e, keeps (h e)) -> keeps (try_catch m h).
Proof. apply (respects_try_catch quiet quiet_trans). Qed.

Lemma total_ret {A} (a : A) : total (ret a).
Proof. intros w. discriminate. Qed.

Lemma total_throw {A} (e : Exn) : total (@throw A e).
Proof. intros w. discriminate. Qed.

Lemma total_bind {A B} (m : M A) (k : A -> M B) :
  total m -> (forall a, total (k a)) -> total (bind m k).
Proof.
  intros Hm Hk w. unfold bind. specialize (Hm w).
  destruct (m w) as [[a|e|] w1]; simpl in *; try discriminate.
  - apply Hk.
  - congruence.
Qed.

Lemma total_try_catch {A} (m : M A) (h : Exn -> M A) :
  total m -> (forall e, total (h e)) -> total (try_catch m h).
Proof.
  intros Hm Hh w. unfold try_catch. specialize (Hm w).
  destruct (m w) as [[a|e|] w1]; simpl in *; try discriminate.
  - apply Hh.
  - congruence.
Qed.

Lemma keeps_post (r : Request) : keeps (post authServer r).
Proof.
  intros w. unfold post.
  destruct (authServer (trace w) r); simpl; now apply quiet_emit.
Qed.

Lemma keeps_dispatch (c : ReqConfig) : keeps (dispatch upstream c).
Proof.
  intros w. unfold dispatch.
  destruct (upstream (trace w) c); simpl; now apply quiet_emit.
Qed.

Lemma total_dispatch (c : ReqConfig) : total (dispatch upstream c).
Proof.
  intros w. unfold dispatch. destruct (upstream (trace w) c); discriminate.
Qed.

Lemma keeps_exchange (code : string) :
  keeps (exchangeCodeForTokens cfg authServer code).
Proof.
  intros w.
  destruct (exchange_world cfg authServer code w) as [-> | ->].
  - now apply quiet_emit.
  - eapply quiet_trans; now apply quiet_emit.
Qed.

Lemma keeps_refresh : keeps (refreshAccessToken cfg authServer).
Proof.
  intros w. split; [apply refresh_sameClient|].
  destruct (refresh_trace cfg authServer w) as (ps & -> & Hps).
  exists (RefreshCall :: ps). split; [reflexivity|].
  simpl. now apply posts_only.
Qed.

Lemma total_refresh : total (refreshAccessToken cfg authServer).
Proof. intros w. apply refresh_returns. Qed.

Lemma keeps_accessTokenOf (d : Data) : keeps (accessTokenOf d).
Proof. destruct d; intros w; apply quiet_refl. Qed.

Lemma total_accessTokenOf (d : Data) : total (accessTokenOf d).
Proof. destruct d; intros w; discriminate. Qed.

Lemma keeps_ensureValidToken : keeps (ensureValidToken cfg authServer).
Proof.
  unfold ensureValidToken. apply keeps_bind; [apply keeps_get|].
  intros w0. destruct (negb (hasValidTokens w0)); [|apply keeps_ret].
  destruct (Js.truthyS (refreshToken (currentTokens w0)));
    [|apply keeps_throw].
  apply keeps_try_catch; [|intros; apply keeps_throw].
  apply keeps_bind; [apply keeps_refresh|apply keeps_accessTokenOf].
Qed.

Lemma total_ensureValidToken : total (ensureValidToken cfg authServer).
Proof.
  unfold ensureValidToken. apply total_bind; [discriminate|].
  intros w0. destruct (negb (hasValidTokens w0)); [|apply total_ret].
  destruct (Js.truthyS (refreshToken (currentTokens w0)));
    [|apply total_throw].
  apply total_try_catch; [|intros; apply total_throw].
  apply total_bind; [apply total_refresh|apply total_accessTokenOf].
Qed.

Lemma keeps_requestInterceptor (c : ReqConfig) :
  keeps (requestInterceptor cfg authServer c).
Proof.
  unfold requestInterceptor.
  apply keeps_try_catch; [|intros; apply keeps_throw].
  apply keeps_bind; [apply keeps_ensureValidToken|intros; apply keeps_ret].
Qed.

Lemma total_requestInterceptor (c : ReqConfig) :
  total (requestInterceptor cfg authServer c).
Proof.
  unfold requestInterceptor.
  apply total_try_catch; [|intros; apply total_throw].
  apply total_bind; [apply total_ensureValidToken|intros; apply total_ret].
Qed.

Lemma keeps_onRejected (client : ReqConfig -> M string) (error : Exn) :
  (forall c, keeps (client c)) ->
  keeps (onRejected cfg authServer client error).
Proof.
  intros Hc. unfold onRejected.
  destruct error as [e|m|m]; try apply keeps_throw.
  destruct (is401 e); [|apply keeps_throw].
  destruct (config e) as [orig|]; [|apply keeps_throw].
  destruct (negb (_retry orig)); [|apply keeps_throw].
  apply keeps_bind; [|intros; apply Hc].
  apply keeps_try_catch; [|intros; apply keeps_throw].
  apply keeps_bind; [apply keeps_refresh|intros; apply keeps_ret].
Qed.

Lemma keeps_baseClient (fuel : nat) (c : ReqConfig) :
  keeps (baseClient cfg authServer upstream fuel c).
Proof.
  revert c. induction fuel as [|fuel IH]; intros c; simpl.
  - intros w. apply quiet_refl.
  - apply keeps_try_catch.
    + apply keeps_bind; [apply keeps_requestInterceptor|].
      intros; apply keeps_dispatch.
    + intros e. now apply keeps_onRejected.
Qed.

End Keeps.

(** ** The authorization session *)

Lemma settlements_snoc (p q : nat) (s : Settlement) (tr : list Effect) :
  settlements p (tr ++ [Settle q s])
  = settlements p tr ++ (if Nat.eqb p q then [s] else []).
Proof. rewrite settlements_app. simpl. now destruct (Nat.eqb p q). Qed.

Lemma evolves_refl (w : World) : evolves w w.
Proof. split; [auto|]. exists []. now rewrite app_nil_r. Qed.

Lemma evolves_trans (a b c : World) : evolves a b -> evolves b c -> evolves a c.
Proof.
  intros [I1 (t1 & E1)] [I2 (t2 & E2)]. split; [auto|].
  exists (t1 ++ t2). now rewrite E2, E1, app_assoc.
Qed.

Lemma quiet_evolves (w w' : World) : quiet w w' -> evolves w w'.
Proof.
  intros Q. split; [now apply quiet_sessionInv|].
  destruct Q as [_ (tr & E & _)]. now exists tr.
Qed.

(** The order of the promises depends on four fields only. *)
Lemma evolves_same (w w' : World) :
  promiseResolve w' = promiseResolve w ->
  promiseReject w' = promiseReject w ->
  nextPromise w' = nextPromise w ->
  trace w' = trace w ->
  evolves w w'.
Proof.
  intros E1 E2 E3 E4. split.
  - unfold sessionInv. now rewrite E1, E2, E3, E4.
  - exists []. now rewrite app_nil_r.
Qed.

(** Settling the kept promise and dropping both callbacks. *)
Lemma sessionInv_settle (w : World) (p : nat) (s : Settlement) :
  sessionInv w -> promiseResolve w = Some p ->
  sessionInv (setPromise None None (emit (Settle p s) w)).
Proof.
  intros (H1 & H2 & H3 & H4) Hp.
  destruct (H2 p Hp) as [Hlt Hnone].
  unfold sessionInv. simpl. repeat split; try discriminate.
  - intros q Hq. rewrite settlements_snoc, (H3 q Hq).
    destruct (Nat.eqb_spec q p); [lia|reflexivity].
  - intros q. rewrite settlements_snoc.
    destruct (Nat.eqb_spec q p) as [->|Hne].
    + rewrite Hnone. simpl. lia.
    + rewrite app_nil_r. apply H4.
Qed.

Lemma resolvePromise_pending (v : OAuthV2TokenResponse) (w : World) (p : nat) :
  promiseResolve w = Some p ->
  resolvePromise v w
  = (Ret tt, setPromise None None (emit (Settle p (Resolved v)) w)).
Proof. intros H. unfold resolvePromise, bind, get. now rewrite H. Qed.

Lemma rejectPromise_pending (e : Exn) (w : World) (p : nat) :
  promiseReject w = Some p ->
  rejectPromise e w
  = (Ret tt, setPromise None None (emit (Settle p (Rejected e)) w)).
Proof. intros H. unfold rejectPromise, bind, get. now rewrite H. Qed.

(** Once the callbacks are dropped, resolving and rejecting do nothing. *)
Lemma resolvePromise_settled (v : OAuthV2TokenResponse) (w : World) :
  promiseResolve w = None -> resolvePromise v w = (Ret tt, w).
Proof. intros H. unfold resolvePromise, bind, get. now rewrite H. Qed.

Lemma rejectPromise_settled (e : Exn) (w : World) :
  promiseReject w = None -> rejectPromise e w = (Ret tt, w).
Proof. intros H. unfold rejectPromise, bind, get. now rewrite H. Qed.

Lemma evolves_resolvePromise (v : OAuthV2TokenResponse) :
  respects evolves (resolvePromise v).
Proof.
  intros w. destruct (promiseResolve w) as [p|] eqn:Hp.
  - rewrite (resolvePromise_pending v w p Hp). simpl. split.
    + intros Hi. now apply sessionInv_settle.
    + now eexists.
  - rewrite (resolvePromise_settled v w Hp). apply evolves_refl.
Qed.

Lemma evolves_rejectPromise (e : Exn) : respects evolves (rejectPromise e).
Proof.
  intros w. destruct (promiseReject w) as [p|] eqn:Hp.
  - rewrite (rejectPromise_pending e w p Hp). simpl. split.
    + intros Hi. apply sessionInv_settle; [exact Hi|].
      destruct Hi as (H1 & _). congruence.
    + now eexists.
  - rewrite (rejectPromise_settled e w Hp). apply evolves_refl.
Qed.

Section Session.

Variable cfg : OAuthConfig.
Variable authServer : list Effect -> Request -> HttpResult.
Variable upstream : list Effect -> ReqConfig -> ApiResult.

Let ev_ret {A} := @respects_ret evolves evolves_refl A.
Let ev_throw {A} := @respects_throw evolves evolves_refl A.
Let ev_bind {A B} := @respects_bind evolves evolves_trans A B.
Let ev_try {A} := @respects_try_catch evolves evolves_trans A.

Lemma evolves_keeps {A} (m : M A) : keeps m -> respects evolves m.
Proof. intros H w. apply quiet_evolves, H. Qed.

Lemma evolves_respond (code : Z) (p : Page) : respects evolves (respond code p).
Proof. intros w. now apply quiet_evolves, quiet_emit. Qed.

Lemma evolves_setTokens (d : Data) : respects evolves (setTokens d).
Proof.
  destruct d; intros w; simpl;
    try apply quiet_evolves, quiet_setCurrentTokens.
  apply evolves_refl.
Qed.

Lemma evolves_closeServer : respects evolves closeServer.
Proof.
  intros w. unfold closeServer, bind, get.
  destruct (server w); simpl; [now apply evolves_same|apply evolves_refl].
Qed.

Lemma evolves_startOAuthFlow (port : Z) (rnd : string) :
  respects evolves (startOAuthFlow port rnd).
Proof.
  intros w. unfold startOAuthFlow, bind, get, modify.
  destruct (server w) as [running|]; simpl.
  - split; [|now eexists].
    intros (H1 & H2 & H3 & H4). unfold sessionInv. simpl.
    repeat split; auto.
    + destruct (H2 p H). lia.
    + rewrite settlements_snoc. destruct (H2 p H) as [Hlt ->].
      destruct (Nat.eqb_spec p (nextPromise w)); [lia|reflexivity].
    + intros p Hp. rewrite settlements_snoc, H3 by lia.
      destruct (Nat.eqb_spec p (nextPromise w)); [lia|reflexivity].
    + intros p. rewrite settlements_snoc.
      destruct (Nat.eqb_spec p (nextPromise w)) as [->|Hne].
      * rewrite H3 by lia. simpl. lia.
      * rewrite app_nil_r. apply H4.
  - split; [|exists []; now rewrite app_nil_r].
    intros (H1 & H2 & H3 & H4). unfold sessionInv. simpl.
    repeat split; auto.
    + injection H as <-. lia.
    + injection H as <-. apply H3. lia.
    + intros p Hp. apply H3. lia.
Qed.

Lemma evolves_afterExchange (mid : option string) (d : Data) :
  respects evolves (afterExchange mid d).
Proof.
  assert (Hno : respects evolves noTokensInResponse).
  { apply ev_bind; [apply evolves_respond|].
    intros; apply evolves_rejectPromise. }
  destruct d as [r|s|]; simpl; auto.
  - apply ev_bind; [apply (respects_get evolves evolves_refl)|]. intros w0.
    apply ev_bind; [apply (evolves_setTokens (DObject _))|]. intros _.
    apply ev_bind; [apply evolves_respond|]. intros _.
    apply ev_bind; [apply evolves_resolvePromise|]. intros _.
    apply ev_bind; [apply (respects_get evolves evolves_refl)|]. intros w1.
    intros w. now apply evolves_same.
  - destruct (String.eqb s ""); auto.
    destruct (Js.truthyS mid); apply ev_throw.
Qed.

Lemma evolves_oauthCallback (q : Query) :
  respects evolves (oauthCallback cfg authServer q).
Proof.
  assert (Hmissing :
    respects evolves
      (respond 400 (Text "Error: Missing authorization code") ;;;
       rejectPromise (Err "Missing authorization code"))).
  { apply ev_bind; [apply evolves_respond|].
    intros; apply evolves_rejectPromise. }
  unfold oauthCallback. destruct (q_code q) as [code|]; auto.
  destruct (negb (Js.truthyS (Some code))); auto.
  apply ev_try.
  - apply ev_bind; [apply evolves_keeps, keeps_exchange|].
    intros d. apply evolves_afterExchange.
  - intros e. apply ev_bind; [apply evolves_respond|].
    intros; apply evolves_rejectPromise.
Qed.

Lemma evolves_handle (ev : Event) :
  respects evolves (handle cfg authServer upstream ev).
Proof.
  destruct ev; unfold handle.
  - apply evolves_startOAuthFlow.
  - apply ev_bind; [apply (respects_get evolves evolves_refl)|]. intros w0.
    destruct (server w0); [apply evolves_oauthCallback|apply ev_ret].
  - apply evolves_rejectPromise.
  - apply ev_bind; [apply (respects_get evolves evolves_refl)|]. intros w0.
    destruct (timers w0); [apply ev_ret|].
    apply ev_bind; [|intros; apply evolves_closeServer].
    intros w. now apply evolves_same.
  - apply ev_bind; [apply (respects_get evolves evolves_refl)|]. intros w0.
    destruct (closing w0); [apply ev_ret|].
    apply ev_bind; [intros w|intros _ w]; now apply evolves_same.
  - apply ev_bind; [apply (respects_get evolves evolves_refl)|]. intros w0.
    intros w. now apply evolves_same.
  - apply ev_try; [|intros; apply ev_ret].
    apply ev_bind; [apply evolves_keeps, keeps_refresh|intros; apply ev_ret].
  - apply ev_try; [|intros; apply ev_ret].
    apply ev_bind; [apply evolves_keeps, (keeps_baseClient cfg authServer upstream 2)|intros; apply ev_ret].
Qed.

Lemma evolves_run (evs : list Event) (w : World) :
  evolves w (run cfg authServer upstream w evs).
Proof.
  revert w. induction evs as [|ev evs IH]; intros w; simpl.
  - apply evolves_refl.
  - eapply evolves_trans; [apply (evolves_handle ev w)|apply IH].
Qed.

Lemma run_app (evs more : list Event) (w : World) :
  run cfg authServer upstream w (evs ++ more)
  = run cfg authServer upstream (run cfg authServer upstream w evs) more.
Proof. apply fold_left_app. Qed.

Lemma sessionInv_initial (t : Z) : sessionInv (initialWorld t).
Proof. repeat split; simpl; auto; discriminate. Qed.

(** A settlement is kept through everything that follows. *)
Lemma settlement_kept (w : World) (p : nat) (s : Settlement)
    (more : list Event) :
  sessionInv w ->
  settlements p (trace w) = [s] ->
  settlements p (trace (run cfg authServer upstream w more)) = [s].
Proof.
  intros Hi Hs.
  destruct (evolves_run more w) as [Hinv (tr & Etr)].
  destruct (Hinv Hi) as (_ & _ & _ & Hle). specialize (Hle p).
  rewrite Etr, settlements_app, Hs in *.
  destruct (settlements p tr); [reflexivity|]. simpl in Hle. lia.
Qed.

(** C2: whatever happens to a client, each promise that [startOAuthFlow] has
    returned is settled at most once, and the settlement it has got is the one
    it keeps: every later resolve or reject leaves it as it is.  The first
    resolution wins: a promise whose callbacks are held is not settled yet,
    a call of [resolvePromise] settles it with success and a call of
    [rejectPromise] (also the one of the listener's error handler) with
    failure, and whichever of them comes first gives the settlement the
    promise has after everything that follows.  The promise of a flow that
    [startOAuthFlow] accepts is held and not settled. *)
Theorem single_resolution (t : Z) (evs : list Event) (p : nat) :
  let w := run cfg authServer upstream (initialWorld t) evs in
  (length (settlements p (trace w)) <= 1)%nat
  /\ (forall (s : Settlement) (more : list Event),
        settlements p (trace w) = [s] ->
        settlements p
          (trace (run cfg authServer upstream (initialWorld t) (evs ++ more)))
        = [s])
  /\ (promiseResolve w = None ->
      forall v e, resolvePromise v w = (Ret tt, w)
                  /\ rejectPromise e w = (Ret tt, w))
  /\ (promiseResolve w = Some p ->
      settlements p (trace w) = []
      /\ forall v e (more : list Event),
           settlements p
             (trace (run cfg authServer upstream
                       (snd (resolvePromise v w)) more))
           = [Resolved v]
           /\ settlements p
                (trace (run cfg authServer upstream
                          (snd (rejectPromise e w)) more))
              = [Rejected e]
           /\ settlements p
                (trace (run cfg authServer upstream w
                          (ServerError e :: more)))
              = [Rejected e])
  /\ (forall port rnd,
        server w = None ->
        let w' := step cfg authServer upstream w (StartFlow port rnd) in
        promiseResolve w' = Some (nextPromise w)
        /\ promiseReject w' = Some (nextPromise w)
        /\ settlements (nextPromise w) (trace w') = []).
Proof.
  cbv zeta.
  assert (Hinv : forall l,
    sessionInv (run cfg authServer upstream (initialWorld t) l)).
  { intros l. apply (evolves_run l (initialWorld t)), sessionInv_initial. }
  split; [apply (Hinv evs)|]. split; [|split; [|split]].
  - intros s more Hs. rewrite run_app.
    now apply settlement_kept.
  - intros Hnone v e. split.
    + now apply resolvePromise_settled.
    + apply rejectPromise_settled.
      destruct (Hinv evs) as (Heq & _). congruence.
  - intros Hp.
    set (w := run cfg authServer upstream (initialWorld t) evs) in *.
    pose proof (Hinv evs) as Hi. fold w in Hi.
    pose proof Hi as (Heq & Hheld & _).
    destruct (Hheld p Hp) as [_ Hnone].
    assert (Hrej : promiseReject w = Some p) by congruence.
    split; [exact Hnone|]. intros v e more.
    assert (Hres : settlements p
                     (trace (run cfg authServer upstream
                               (snd (rejectPromise e w)) more))
                   = [Rejected e]).
    { apply settlement_kept.
      + exact (proj1 (evolves_rejectPromise e w) Hi).
      + rewrite (rejectPromise_pending e w p Hrej). simpl.
        now rewrite settlements_snoc, Hnone, Nat.eqb_refl. }
    split; [|split; [exact Hres|exact Hres]].
    apply settlement_kept.
    + exact (proj1 (evolves_resolvePromise v w) Hi).
    + rewrite (resolvePromise_pending v w p Hp). simpl.
      now rewrite settlements_snoc, Hnone, Nat.eqb_refl.
  - intros port rnd Hs.
    destruct (Hinv evs) as (_ & _ & Hfresh & _).
    unfold step, handle, startOAuthFlow, bind, get, modify. rewrite Hs.
    simpl. repeat split. apply Hfresh. lia.
Qed.

End Session.

(** ** The callback route *)

Section Callback.

Variable cfg : OAuthConfig.
Variable authServer : list Effect -> Request -> HttpResult.
Variable upstream : list Effect -> ReqConfig -> ApiResult.

Let exchange := exchangeCodeForTokens cfg authServer.
Let callback := oauthCallback cfg authServer.
Let refresh := refreshAccessToken cfg authServer.
Let stepC := step cfg authServer upstream.
Let runC := run cfg authServer upstream.

(** C8: a callback request without [code] is answered with status 400,
    rejects the pending promise, if there is one, with the error "Missing
    authorization code", sends nothing to the authorization server and leaves
    the stored tokens as they are. *)
Theorem callback_without_code (q : Query) (w : World) :
  q_code q = None ->
  let w' := snd (callback q w) in
  trace w'
  = trace w
    ++ Respond 400 (Text "Error: Missing authorization code")
    :: match promiseReject w with
       | Some p => [Settle p (Rejected (Err "Missing authorization code"))]
       | None => []
       end
  /\ posts (trace w') = posts (trace w)
  /\ currentTokens w' = currentTokens w.
Proof.
  intros Hq. cbv zeta. unfold callback, oauthCallback. rewrite Hq.
  unfold bind, respond, modify. simpl.
  destruct (promiseReject w) as [p|] eqn:Hp.
  - rewrite (rejectPromise_pending _ _ p) by exact Hp. simpl.
    rewrite <- app_assoc. simpl. repeat split.
    rewrite posts_app. simpl. apply app_nil_r.
  - rewrite rejectPromise_settled by exact Hp. simpl. repeat split.
    rewrite posts_app. simpl. apply app_nil_r.
Qed.

(** An exchange leaves everything but the trace as it was. *)
Lemma exchange_keeps_world (code : string) (w : World) :
  let w1 := snd (exchange code w) in
  currentTokens w1 = currentTokens w /\ sameClient w w1.
Proof.
  cbv zeta.
  destruct (exchange_world cfg authServer code w) as [E | E];
    unfold exchange; rewrite E; repeat split.
Qed.

(** The route on an exchange that returned an object. *)
Lemma callback_exchanged (q : Query) (w w1 : World) (code : string)
    (r : OAuthV2TokenResponse) :
  q_code q = Some code -> code <> "" ->
  exchange code w = (Ret (DObject r), w1) ->
  let filled := fillDefaults (q_merchant_id q) (now w) r in
  callback q w
  = (Ret tt,
     setTimers (S (timers w))
       (snd (resolvePromise filled
               (emit (Respond 200 SuccessPage)
                     (setCurrentTokens (stored filled) w1))))).
Proof.
  intros Hq Hne Hx. cbv zeta.
  destruct (exchange_keeps_world code w) as [_ Hsame].
  fold exchange in Hx. rewrite Hx in Hsame. simpl in Hsame.
  destruct Hsame as (Hnow & _ & _ & Hres & _ & Htim & _).
  unfold callback, oauthCallback. rewrite Hq. simpl.
  apply String.eqb_neq in Hne. rewrite Hne. simpl.
  unfold try_catch, bind at 1. fold exchange. rewrite Hx.
  unfold afterExchange, bind, get, modify, respond. simpl.
  rewrite Hnow.
  destruct (promiseResolve w) as [p|] eqn:Hp.
  - rewrite !(resolvePromise_pending _ _ p) by (simpl; congruence).
    simpl. now rewrite Htim.
  - rewrite !resolvePromise_settled by (simpl; congruence).
    simpl. now rewrite Htim.
Qed.

(** The route on an exchange that returned no object: nothing is stored. *)
Lemma callback_not_exchanged (q : Query) (w : World) :
  (forall code r, q_code q = Some code ->
                  fst (exchange code w) <> Ret (DObject r)) ->
  currentTokens (snd (callback q w)) = currentTokens w.
Proof.
  intros Hno.
  assert (Hrej : forall c pg e w0, exists w',
    (respond c pg ;;; rejectPromise e) w0 = (Ret tt, w')
    /\ currentTokens w' = currentTokens w0).
  { intros c pg e w0. unfold bind, respond, modify.
    destruct (promiseReject w0) as [p|] eqn:Hp.
    - rewrite (rejectPromise_pending e (emit (Respond c pg) w0) p Hp).
      eexists. split; reflexivity.
    - rewrite (rejectPromise_settled e (emit (Respond c pg) w0) Hp).
      eexists. split; reflexivity. }
  unfold callback, oauthCallback.
  destruct (q_code q) as [code|] eqn:Hq;
    [|destruct (Hrej 400 (Text "Error: Missing authorization code")
                 (Err "Missing authorization code") w) as (w' & -> & E);
      exact E].
  destruct (negb (Js.truthyS (Some code)));
    [destruct (Hrej 400 (Text "Error: Missing authorization code")
                 (Err "Missing authorization code") w) as (w' & -> & E);
     exact E|].
  specialize (Hno code).
  destruct (exchange_keeps_world code w) as [Htok _].
  pose proof (exchange_returns cfg authServer code w) as Hret.
  unfold try_catch, bind at 1. fold exchange. fold exchange in Hret.
  destruct (exchange code w) as [[[r|s|]|e|] w1]; cbn [fst snd] in *.
  - now elim (Hno r).
  - unfold afterExchange. destruct (String.eqb s "").
    + unfold noTokensInResponse.
      destruct (Hrej 500 (Text "Error: Failed to obtain tokens")
                  (Err "No tokens in response") w1) as (w' & -> & E).
      simpl. congruence.
    + destruct (Js.truthyS (q_merchant_id q)); unfold throw;
        match goal with
        | |- context [(respond ?c ?pg ;;; rejectPromise ?e) ?w0] =>
            destruct (Hrej c pg e w0) as (w' & -> & E)
        end; simpl; congruence.
  - unfold afterExchange, noTokensInResponse.
    destruct (Hrej 500 (Text "Error: Failed to obtain tokens")
                (Err "No tokens in response") w1) as (w' & -> & E).
    simpl. congruence.
  - match goal with
    | |- context [(respond ?c ?pg ;;; rejectPromise ?e0) ?w0] =>
        destruct (Hrej c pg e0 w0) as (w' & -> & E)
    end; simpl; congruence.
  - now elim Hret.
Qed.

(** C10: a callback request with a code whose exchange returns a record
    writes that record, once completed, to the stored tokens also when the
    promise of the flow has been settled before; no promise is settled by
    it. *)
Theorem callback_overwrites_after_resolution (q : Query) (w w1 : World)
    (code : string) (r : OAuthV2TokenResponse) :
  q_code q = Some code -> code <> "" ->
  exchange code w = (Ret (DObject r), w1) ->
  promiseResolve w = None ->
  let w' := snd (callback q w) in
  currentTokens w' = stored (fillDefaults (q_merchant_id q) (now w) r)
  /\ trace w' = trace w1 ++ [Respond 200 SuccessPage]
  /\ forall p, settlements p (trace w') = settlements p (trace w).
Proof.
  intros Hq Hne Hx Hnone. cbv zeta.
  rewrite (callback_exchanged q w w1 code r Hq Hne Hx).
  pose proof (keeps_exchange cfg authServer code w) as Hquiet.
  fold exchange in Hquiet. rewrite Hx in Hquiet. simpl in Hquiet.
  pose proof Hquiet as [(_ & _ & _ & Hres & _) _].
  rewrite resolvePromise_settled by (simpl; congruence). simpl.
  repeat split. intros p.
  rewrite settlements_app, (quiet_settlements w w1 p Hquiet). simpl.
  apply app_nil_r.
Qed.

(** What [fillDefaults] leaves alone: the access token, and the merchant id
    when the callback carries none. *)
Lemma fillDefaults_keeps (mid : option string) (t : Z)
    (r : OAuthV2TokenResponse) :
  access_token (fillDefaults mid t r) = access_token r
  /\ (Js.truthyS mid = false ->
      merchant_id (fillDefaults mid t r) = merchant_id r).
Proof.
  unfold fillDefaults. split.
  - repeat match goal with
           | |- context [if ?b then _ else _] => destruct b
           end; reflexivity.
  - intros ->. rewrite andb_false_r.
    repeat match goal with
           | |- context [if ?b then _ else _] => destruct b
           end; reflexivity.
Qed.

(** C9, as amended: a callback whose exchange throws and a refresh that
    throws leave the stored record as it was.  Nothing checks a record
    before it is stored: a callback whose exchange returns a record stores
    it, completed by [fillDefaults], and when that record has an access
    token and no merchant id and the callback carries no merchant id either,
    the stored record has a token and no merchant id.  Such a record is
    never reported valid: [hasValidTokens()] is true only when both are
    present and not empty. *)
Theorem store_after_failure (w : World) :
  (forall q code e,
      q_code q = Some code -> fst (exchange code w) = Throw e ->
      currentTokens (snd (callback q w)) = currentTokens w)
  /\ (forall e, fst (refresh w) = Throw e ->
                currentTokens (snd (refresh w)) = currentTokens w)
  /\ (forall q code r w1,
        q_code q = Some code -> code <> "" ->
        exchange code w = (Ret (DObject r), w1) ->
        currentTokens (snd (callback q w))
        = stored (fillDefaults (q_merchant_id q) (now w) r)
        /\ (Js.truthyS (access_token r) = true ->
            Js.truthyS (merchant_id r) = false ->
            Js.truthyS (q_merchant_id q) = false ->
            partial (currentTokens (snd (callback q w))) = true))
  /\ (hasValidTokens w = true -> partial (currentTokens w) = false).
Proof.
  split; [|split; [|split]].
  - intros q code e Hq Hx. apply callback_not_exchanged.
    intros code' r Hq'. rewrite Hq in Hq'. injection Hq' as <-.
    rewrite Hx. discriminate.
  - intros e. apply refresh_failed_keeps_tokens.
  - intros q code r w1 Hq Hne Hx.
    assert (Hst : currentTokens (snd (callback q w))
                  = stored (fillDefaults (q_merchant_id q) (now w) r)).
    { rewrite (callback_exchanged q w w1 code r Hq Hne Hx). simpl.
      match goal with
      | |- context [resolvePromise ?v ?w0] =>
          destruct (promiseResolve w0) as [p|] eqn:Hp;
          [rewrite (resolvePromise_pending v w0 p Hp)
          |rewrite (resolvePromise_settled v w0 Hp)]
      end; reflexivity. }
    split; [exact Hst|]. intros Ha Hm Hmid. rewrite Hst.
    destruct (fillDefaults_keeps (q_merchant_id q) (now w) r) as [Ea Em].
    unfold partial, stored. simpl. now rewrite Ea, (Em Hmid), Ha, Hm.
  - intros Hv. destruct (hasValidTokens_complete w Hv) as [Ha Hm].
    unfold partial. now rewrite Ha, Hm.
Qed.

(** C3, as amended: when a session resolves with success the two callbacks
    of its promise are dropped at once and the shutdown of the listener is
    scheduled; as long as the listener is up a new [startOAuthFlow] is
    rejected as already running; once the timer has fired and the listener
    has closed, [this.server] is cleared and a new [startOAuthFlow] is
    accepted. *)
Theorem success_then_ready (q : Query) (w w1 : World) (code : string)
    (r : OAuthV2TokenResponse) (port : Z) (rnd : string) :
  server w <> None ->
  promiseReject w = promiseResolve w ->
  q_code q = Some code -> code <> "" ->
  exchange code w = (Ret (DObject r), w1) ->
  let wa := stepC w (Callback q) in
  let wb := runC wa [TimerFire; CloseDone] in
  let wc := stepC wb (StartFlow port rnd) in
  (promiseResolve wa = None /\ promiseReject wa = None
   /\ timers wa = S (timers w) /\ server wa = server w)
  /\ trace (stepC wa (StartFlow port rnd))
     = trace wa
       ++ [Settle (nextPromise wa)
             (Rejected (Err "OAuth server is already running"))]
  /\ (server wb = None /\ trace wb = trace wa)
  /\ (server wc = Some port
      /\ promiseResolve wc = Some (nextPromise wb)
      /\ promiseReject wc = Some (nextPromise wb)
      /\ trace wc = trace wb).
Proof.
  intros Hs Hpr Hq Hne Hx. cbv zeta.
  destruct (exchange_keeps_world code w) as [_ Hsame].
  fold exchange in Hx. rewrite Hx in Hsame. simpl in Hsame.
  destruct Hsame as (_ & Hsrv & _ & Hres & Hrej & _).
  destruct (server w) as [running|] eqn:Hrun; [clear Hs|now elim Hs].
  assert (Ewa : stepC w (Callback q)
                = setTimers (S (timers w))
                    (snd (resolvePromise
                            (fillDefaults (q_merchant_id q) (now w) r)
                            (emit (Respond 200 SuccessPage)
                               (setCurrentTokens
                                  (stored (fillDefaults (q_merchant_id q)
                                                        (now w) r)) w1))))).
  { unfold stepC, step, handle, bind, get. simpl. rewrite Hrun.
    fold callback. now rewrite (callback_exchanged q w w1 code r Hq Hne Hx). }
  rewrite Ewa. clear Ewa.
  destruct (promiseResolve w) as [p|] eqn:Hp.
  - rewrite (resolvePromise_pending _ _ p) by (simpl; congruence).
    unfold runC, run, stepC, step, handle, startOAuthFlow, closeServer,
      closeCallback, bind, get, modify.
    simpl. rewrite Hsrv. simpl. repeat split.
  - rewrite resolvePromise_settled by (simpl; congruence).
    unfold runC, run, stepC, step, handle, startOAuthFlow, closeServer,
      closeCallback, bind, get, modify.
    simpl. rewrite Hsrv, Hrej, Hpr. simpl. repeat split. exact Hres.
Qed.

End Callback.

(** ** The interceptors *)

Section Interceptors.

Variable cfg : OAuthConfig.
Variable authServer : list Effect -> Request -> HttpResult.
Variable upstream : list Effect -> ReqConfig -> ApiResult.

Let refresh := refreshAccessToken cfg authServer.
Let guard := ensureValidToken cfg authServer.
Let client := baseClient cfg authServer upstream.
Let try_once := attempt cfg authServer upstream.

(** With a valid record the guard hands out the stored access token and does
    nothing else. *)
Lemma guard_valid (w : World) :
  hasValidTokens w = true ->
  guard w = (Ret (accessToken (currentTokens w)), w).
Proof.
  intros H. unfold guard, ensureValidToken, bind, get. now rewrite H.
Qed.

(** The guard throws plain errors only. *)
Lemma guard_throws (w w1 : World) (e : Exn) :
  guard w = (Throw e, w1) -> exists m, e = Err m.
Proof.
  unfold guard, ensureValidToken, bind, get.
  destruct (negb (hasValidTokens w)); [|discriminate].
  destruct (Js.truthyS (refreshToken (currentTokens w))).
  - unfold try_catch.
    destruct (refreshAccessToken cfg authServer w) as [[d|e0|] w0];
      [destruct d; simpl| |]; intros [= <- <-]; eauto.
  - intros [= <- <-]. eauto.
Qed.

(** One attempt: the guard, then the request with the token it gave. *)
Lemma try_once_sent (c : ReqConfig) (w w1 : World) (token : option string) :
  guard w = (Ret token, w1) ->
  let c' := mkReqConfig (path c) (bearer token) (_retry c) in
  try_once c w = (settled c' (upstream (trace w1) c'), emit (Dispatch c') w1).
Proof.
  intros Hg. cbv zeta.
  unfold try_once, attempt, requestInterceptor, try_catch, bind at 1 2.
  fold guard. rewrite Hg. unfold ret, dispatch, bearer.
  destruct (upstream _ _); reflexivity.
Qed.

Lemma try_once_unguarded (c : ReqConfig) (w w1 : World) (e : Exn) :
  guard w = (Throw e, w1) -> try_once c w = (Throw e, w1).
Proof.
  intros Hg.
  unfold try_once, attempt, requestInterceptor, try_catch, bind at 1 2.
  fold guard. now rewrite Hg.
Qed.

Lemma total_try_once (c : ReqConfig) : total (try_once c).
Proof.
  apply total_bind; [apply total_requestInterceptor|].
  intros; apply total_dispatch.
Qed.

(** An attempt of a request that is marked [_retry] is final: whatever way it
    fails, the rejection handler passes the failure on. *)
Lemma retried_is_final (other : ReqConfig -> M string) (c : ReqConfig)
    (w : World) :
  _retry c = true ->
  try_catch (try_once c) (onRejected cfg authServer other) w = try_once c w.
Proof.
  intros Hr. unfold try_catch.
  destruct (guard w) as [[token|e|] w1] eqn:Hg.
  - rewrite (try_once_sent c w w1 token Hg).
    destruct (upstream _ _) as [data|st dm msg]; simpl; [reflexivity|].
    unfold is401. simpl.
    destruct st as [s|]; [|reflexivity].
    destruct (Z.eqb s 401); [|reflexivity].
    now rewrite Hr.
  - rewrite (try_once_unguarded c w w1 e Hg).
    destruct (guard_throws w w1 e Hg) as (m & ->). reflexivity.
  - pose proof (total_ensureValidToken cfg authServer w) as Ht.
    fold guard in Ht. rewrite Hg in Ht. now elim Ht.
Qed.

(** The rejection handler calls the client on a request marked [_retry] only,
    so it does not matter how much fuel the client it is given has left. *)
Lemma onRejected_fuel (n : nat) (e : Exn) (w : World) :
  onRejected cfg authServer (client (S n)) e w
  = onRejected cfg authServer try_once e w.
Proof.
  unfold onRejected.
  destruct e as [a|m|m]; try reflexivity.
  destruct (is401 a); [|reflexivity].
  destruct (config a) as [orig|]; [|reflexivity].
  destruct (negb (_retry orig)); [|reflexivity].
  unfold bind at 1 3.
  destruct (try_catch _ _ w) as [[u|e|] w1]; try reflexivity.
  unfold client. simpl. fold try_once. now apply retried_is_final.
Qed.

(** Two units of fuel are enough: with them and with more the client is the
    attempt, the rejection handler, and in it at most one more attempt. *)
Lemma client_unfold (n : nat) (c : ReqConfig) (w : World) :
  client (S (S n)) c w
  = try_catch (try_once c) (onRejected cfg authServer try_once) w.
Proof.
  unfold client. simpl. fold try_once. unfold try_catch.
  destruct (try_once c w) as [[data|e|] w1]; try reflexivity.
  apply (onRejected_fuel n e w1).
Qed.

Lemma client_fuel (n : nat) (c : ReqConfig) (w : World) :
  client (S (S n)) c w = client 2 c w.
Proof. now rewrite !client_unfold. Qed.

(** The client returns or throws. *)
Lemma client_returns (n : nat) (c : ReqConfig) : total (client (S (S n)) c).
Proof.
  intros w. rewrite client_unfold. revert w.
  apply total_try_catch; [apply total_try_once|].
  intros e. unfold onRejected.
  destruct e as [a|m|m]; try apply total_throw.
  destruct (is401 a); [|apply total_throw].
  destruct (config a) as [orig|]; [|apply total_throw].
  destruct (negb (_retry orig)); [|apply total_throw].
  apply total_bind; [|intros; apply total_try_once].
  apply total_try_catch; [|intros; apply total_throw].
  apply total_bind; [apply total_refresh|intros; apply total_ret].
Qed.



End Interceptors.

(** ** The properties on the scenarios *)

Module Run.

Import Scenario.

(** C1 again, as a run: after the versioned refresh the record is no longer
    valid, although the refresh succeeded and the record was valid before. *)
Example refresh_v2_invalidates :
  let out :=
    refreshAccessToken cfg (only "/oauth/v2/refresh" (BObject bareRefresh))
                       authorized in
  hasValidTokens authorized = true /\ hasValidTokens (snd out) = false.
Proof. split; reflexivity. Qed.

(** C2 on a run: a flow is started and its callback arrives three times, with
    a code, without one and with a code again; the promise keeps the first
    settlement. *)
Lemma single_resolution_run :
  settlements 0
    (trace (run cfg issuing fine start
              ([StartFlow 4000 "s1"; Callback (withCode "a")]
               ++ [Callback withoutCode; Callback (withCode "b")])))
  = [Resolved (mkV2 (Some "tok-a") (Some "r1") (Some "M1")
                    (Some 1700003600) (Some 1702592000))].
Proof.
  apply (proj1 (proj2 (single_resolution cfg issuing fine 1700000000
                         [StartFlow 4000 "s1"; Callback (withCode "a")] 0%nat))).
  reflexivity.
Defined.

(** C3 as written fails: the session has resolved with success, the listener
    is still up, and a new [startOAuthFlow] is rejected as already running. *)
Lemma resolved_but_still_running :
  let w := run cfg issuing fine start
               [StartFlow 4000 "s1"; Callback (withCode "a")] in
  settlements 0 (trace w)
  = [Resolved (mkV2 (Some "tok-a") (Some "r1") (Some "M1")
                    (Some 1700003600) (Some 1702592000))]
  /\ server w = Some 4000
  /\ settlements 1 (trace (step cfg issuing fine w (StartFlow 4000 "s2")))
     = [Rejected (Err "OAuth server is already running")].
Proof. repeat split. Qed.

(** After a session that resolved with failure no shutdown is scheduled: the
    listener stays up and later calls are rejected. *)
Example failed_session_keeps_listener :
  let w := run cfg issuing fine start
               [StartFlow 4000 "s1"; Callback withoutCode;
                TimerFire; CloseDone; Tick 3600] in
  settlements 0 (trace w) = [Rejected (Err "Missing authorization code")]
  /\ timers w = 0%nat /\ server w = Some 4000
  /\ settlements 1 (trace (step cfg issuing fine w (StartFlow 4000 "s2")))
     = [Rejected (Err "OAuth server is already running")].
Proof. repeat split. Qed.

(** C3, as amended, on a run. *)
Lemma success_then_ready_run :
  let w := run cfg issuing fine start [StartFlow 4000 "s1"] in
  let wa := step cfg issuing fine w (Callback (withCode "a")) in
  let wb := run cfg issuing fine wa [TimerFire; CloseDone] in
  let wc := step cfg issuing fine wb (StartFlow 4001 "s2") in
  server wa = server w
  /\ server wb = None
  /\ server wc = Some 4001
  /\ promiseResolve wc = Some (nextPromise wb).
Proof.
  pose proof (success_then_ready cfg issuing fine (withCode "a")
                (run cfg issuing fine start [StartFlow 4000 "s1"])
                (snd (exchangeCodeForTokens cfg issuing "a"
                        (run cfg issuing fine start [StartFlow 4000 "s1"])))
                "a"
                (mkV2 (Some "tok-a") (Some "r1") (Some "M1")
                      (Some 1700003600) (Some 1702592000))
                4001 "s2") as H.
  assert (Hup : server (run cfg issuing fine start [StartFlow 4000 "s1"])
                <> None) by (vm_compute; discriminate).
  assert (Hne : "a" <> "") by discriminate.
  assert (Hx : exchangeCodeForTokens cfg issuing "a"
                 (run cfg issuing fine start [StartFlow 4000 "s1"])
               = (Ret (DObject (mkV2 (Some "tok-a") (Some "r1") (Some "M1")
                                     (Some 1700003600) (Some 1702592000))),
                  snd (exchangeCodeForTokens cfg issuing "a"
                         (run cfg issuing fine start [StartFlow 4000 "s1"]))))
    by (vm_compute; reflexivity).
  specialize (H Hup eq_refl eq_refl Hne Hx).
  cbv zeta in H.
  destruct H as ((_ & _ & _ & Ha) & _ & (Hb & _) & (Hc & Hp & _ & _)).
  cbv zeta. split; [exact Ha|]. split; [exact Hb|]. split; [exact Hc|exact Hp].
Defined.



(** The request of [getMerchantInfo] is outside the interceptors: a 401 ends
    the call after one request and no refresh. *)
Example getMerchantInfo_401 :
  let out :=
    getMerchantInfo cfg (only "/oauth/v2/refresh" (BObject fullRefresh))
                    unauthorized authorized in
  fst out
  = Throw (Err "Clover API error: 401 Request failed with status code 401")
  /\ List.length (dispatches (trace (snd out))) = 1%nat
  /\ refreshCalls (trace (snd out)) = 0%nat.
Proof. repeat split. Qed.

(** C2, failure first: the callback arrives without a code and then with
    one; the promise keeps the rejection. *)
Example failure_first_wins :
  settlements 0
    (trace (run cfg issuing fine start
              [StartFlow 4000 "s1"; Callback withoutCode;
               Callback (withCode "a")]))
  = [Rejected (Err "Missing authorization code")].
Proof. reflexivity. Qed.

(** C8 on a run: the callback of a pending flow arrives without a code. *)
Lemma callback_without_code_run :
  let w := run cfg issuing fine start [StartFlow 4000 "s1"] in
  let w' := snd (oauthCallback cfg issuing withoutCode w) in
  trace w'
  = [Respond 400 (Text "Error: Missing authorization code");
     Settle 0 (Rejected (Err "Missing authorization code"))]
  /\ posts (trace w') = []
  /\ currentTokens w' = noTokens.
Proof.
  apply (callback_without_code cfg issuing withoutCode
           (run cfg issuing fine start [StartFlow 4000 "s1"])).
  reflexivity.
Defined.

(** C9 as written fails: the exchange answers without a merchant id, the
    callback carries none either, and a record with a token but no merchant
    id is stored. *)
Lemma partial_record_stored :
  let w := run cfg (only "/oauth/v2/token" (BObject noMerchant)) fine start
               [StartFlow 4000 "s1"; Callback (withCode "a")] in
  accessToken (currentTokens w) = Some "tok"
  /\ merchantId (currentTokens w) = None
  /\ partial (currentTokens w) = true.
Proof. repeat split. Qed.

(** C9, as amended, on runs: the authorization server is down, and the
    exchange answers without a merchant id to a callback that has none. *)
Lemma store_after_failure_run :
  (currentTokens (snd (oauthCallback cfg down (withCode "a") authorized))
   = currentTokens authorized
   /\ currentTokens (snd (refreshAccessToken cfg down authorized))
      = currentTokens authorized
   /\ partial (currentTokens authorized) = false)
  /\ partial
       (currentTokens
          (snd (oauthCallback cfg (only "/oauth/v2/token" (BObject noMerchant))
                  (withCode "a") start)))
     = true.
Proof.
  destruct (store_after_failure cfg down authorized) as (H1 & H2 & _ & H4).
  destruct (store_after_failure cfg (only "/oauth/v2/token" (BObject noMerchant))
              start) as (_ & _ & H3 & _).
  assert (Hne : "a"%string <> ""%string) by discriminate.
  assert (Hx : exchangeCodeForTokens cfg
                 (only "/oauth/v2/token" (BObject noMerchant)) "a" start
               = (Ret (DObject (mkV2 (Some "tok") (Some "r1") None None None)),
                  snd (exchangeCodeForTokens cfg
                         (only "/oauth/v2/token" (BObject noMerchant)) "a"
                         start)))
    by (vm_compute; reflexivity).
  split; [split; [|split]|].
  - apply (H1 (withCode "a") "a"
              (Err "OAuth error: Request failed")); reflexivity.
  - apply (H2 (Err "OAuth refresh error: Token expired or invalid. Please reauthenticate.")).
    reflexivity.
  - apply H4. reflexivity.
  - exact (proj2 (H3 (withCode "a") "a" _ _ eq_refl Hne Hx)
             eq_refl eq_refl eq_refl).
Defined.

(** C10 on a run: a second callback with another code arrives before the
    listener is closed; the promise keeps its settlement and the stored
    record is the one of the second exchange. *)
Lemma callback_overwrites_run :
  let w := run cfg issuing fine start
               [StartFlow 4000 "s1"; Callback (withCode "a")] in
  let r := mkV2 (Some "tok-b") (Some "r1") (Some "M1")
                (Some 1700003600) (Some 1702592000) in
  let w' := snd (oauthCallback cfg issuing (withCode "b") w) in
  (promiseResolve w = None /\ accessToken (currentTokens w) = Some "tok-a")
  /\ currentTokens w' = stored (fillDefaults None (now w) r)
  /\ forall p, settlements p (trace w') = settlements p (trace w).
Proof.
  cbv zeta.
  assert (Hne : "b" <> "") by discriminate.
  assert (Hx : exchangeCodeForTokens cfg issuing "b"
                 (run cfg issuing fine start
                      [StartFlow 4000 "s1"; Callback (withCode "a")])
               = (Ret (DObject (mkV2 (Some "tok-b") (Some "r1") (Some "M1")
                                     (Some 1700003600) (Some 1702592000))),
                  snd (exchangeCodeForTokens cfg issuing "b"
                         (run cfg issuing fine start
                              [StartFlow 4000 "s1"; Callback (withCode "a")]))))
    by (vm_compute; reflexivity).
  assert (Hnone : promiseResolve
                    (run cfg issuing fine start
                         [StartFlow 4000 "s1"; Callback (withCode "a")])
                  = None) by (vm_compute; reflexivity).
  pose proof (callback_overwrites_after_resolution cfg issuing
                (withCode "b") _ _ "b" _ eq_refl Hne Hx Hnone) as H.
  cbv zeta in H. destruct H as (H1 & _ & H3).
  split; [split; [exact Hnone|vm_compute; reflexivity]|].
  split; [exact H1|exact H3].
Defined.

End Run.

(** * Further properties *)

(** ** refreshAccessToken: the two tiers *)

Section RefreshTiers.

Variable cfg : OAuthConfig.
Variable authServer : list Effect -> Request -> HttpResult.

Let refresh := refreshAccessToken cfg authServer.
Let v2 (held : string) : Request :=
  v2Request cfg "/oauth/v2/refresh" "refresh_token" held.
Let v1 (held : string) : Request := v1Request cfg "refresh_token" held.

(** On the legacy tier, whatever the legacy endpoint answers: the two
    requests, in this order, and the result. *)
Lemma refresh_legacy_cases (w : World) (held : string) :
  refreshToken (currentTokens w) = Some held -> held <> "" ->
  v2GivesWay (authServer (trace w ++ [RefreshCall]) (v2 held)) ->
  let w1 := emit (Post (v1 held)) (emit (Post (v2 held)) (emit RefreshCall w)) in
  (exists r, refresh w = (Ret (DObject r), setCurrentTokens (stored r) w1))
  \/ (exists e, refresh w = (Throw e, w1)).
Proof.
  intros Ht Hne H2 w1.
  destruct (authServer (trace w ++ [RefreshCall; Post (v2 held)]) (v1 held))
    as [[d|s|]|e1] eqn:H1.
  - left. eexists. apply (refresh_legacy_object cfg authServer w held d Ht Hne H2 H1).
  - left.
    unfold refresh, refreshAccessToken, bind, modify, get, try_catch, post.
    simpl. rewrite Ht. simpl.
    apply String.eqb_neq in Hne. rewrite Hne. simpl. fold (v2 held).
    destruct H2 as [(e & ->)| ->]; simpl; rewrite Ht; simpl; fold (v1 held);
      rewrite <- app_assoc; simpl; rewrite H1; simpl;
      match goal with
      | |- exists r, (Ret (DObject ?x), _) = _ => exists x
      end; reflexivity.
  - right.
    unfold refresh, refreshAccessToken, bind, modify, get, try_catch, post.
    simpl. rewrite Ht. simpl.
    apply String.eqb_neq in Hne. rewrite Hne. simpl. fold (v2 held).
    destruct H2 as [(e & ->)| ->]; simpl; rewrite Ht; simpl; fold (v1 held);
      rewrite <- app_assoc; simpl; rewrite H1; simpl; eexists; reflexivity.
  - right.
    unfold refresh, refreshAccessToken, bind, modify, get, try_catch, post.
    simpl. rewrite Ht. simpl.
    apply String.eqb_neq in Hne. rewrite Hne. simpl. fold (v2 held).
    destruct H2 as [(e & ->)| ->]; simpl; rewrite Ht; simpl; fold (v1 held);
      rewrite <- app_assoc; simpl; rewrite H1; simpl; eexists; reflexivity.
Qed.

Lemma v2GivesWay_dec (r : HttpResult) :
  v2GivesWay r
  \/ (exists d, r = HttpOk (BObject d)) \/ (exists s, r = HttpOk (BText s)).
Proof.
  destruct r as [[d|s|]|e].
  - right. left. now exists d.
  - right. right. now exists s.
  - left. now right.
  - left. left. now exists e.
Qed.

Lemma refresh_returned (w w' : World) (d : Data) :
  refresh w = (Ret d, w') ->
  recordOf d = Some (currentTokens w')
  /\ tokenOf d = accessToken (currentTokens w').
Proof.
  intros E. unfold refresh in E.
  destruct (refreshToken (currentTokens w)) as [held|] eqn:Ht.
  2:{ rewrite (refresh_without_token cfg authServer w) in E
        by now rewrite Ht. discriminate. }
  destruct (String.eqb_spec held "") as [->|Hne].
  { rewrite (refresh_without_token cfg authServer w) in E
      by now rewrite Ht. discriminate. }
  destruct (v2GivesWay_dec (authServer (trace w ++ [RefreshCall]) (v2 held)))
    as [Hg|[(d2 & Hd)|(s & Hs)]].
  - destruct (refresh_legacy_cases w held Ht Hne Hg) as [(r & E')|(e & E')];
      unfold refresh in E'; rewrite E' in E; [|discriminate].
    injection E as <- <-. split; reflexivity.
  - rewrite (refresh_v2_object cfg authServer w held d2 Ht Hne Hd) in E.
    injection E as <- <-. split; reflexivity.
  - rewrite (refresh_v2_text cfg authServer w held s Ht Hne Hs) in E.
    injection E as <- <-. split; reflexivity.
Qed.

(** X2: What a successful refresh returns is what it has stored: the stored
    record afterwards is the returned one, with nothing kept from the record
    before except what the legacy tier puts into the returned record itself;
    the session is not touched. *)
Theorem refresh_stores_what_it_returns (w w' : World) (d : Data) :
  refresh w = (Ret d, w') ->
  recordOf d = Some (currentTokens w')
  /\ tokenOf d = accessToken (currentTokens w')
  /\ sameClient w w'
  /\ replies (trace w') = replies (trace w).
Proof.
  intros E. destruct (refresh_returned w w' d E) as [H1 H2].
  pose proof (refresh_sameClient cfg authServer w) as Hs.
  destruct (refresh_trace cfg authServer w) as (ps & Etr & Hps).
  unfold refresh in E. rewrite E in Hs, Etr. simpl in Hs, Etr.
  repeat split; try apply Hs; auto.
  rewrite Etr. clear - Hps.
  induction (trace w) as [|e tr IH]; simpl.
  - induction ps as [|e ps IH]; simpl in *; [reflexivity|].
    apply andb_true_iff in Hps as [He Hps]. destruct e; try discriminate.
    auto.
  - destruct e; simpl; now rewrite ?IH.
Qed.

End RefreshTiers.

(** ** ensureValidToken *)

Section Guard.

Variable cfg : OAuthConfig.
Variable authServer : list Effect -> Request -> HttpResult.

Let refresh := refreshAccessToken cfg authServer.
Let guard := ensureValidToken cfg authServer.

(** The guard with an invalid record and a refresh token is the refresh,
    with every failure turned into one error. *)
Lemma guard_refreshing (w : World) :
  hasValidTokens w = false ->
  Js.truthyS (refreshToken (currentTokens w)) = true ->
  guard w
  = match refresh w with
    | (Ret d, w1) => (Ret (tokenOf d), w1)
    | (_, w1) =>
        (Throw (Err "Unable to refresh token. Please re-authenticate."), w1)
    end.
Proof.
  intros Hv Ht. unfold guard, ensureValidToken, bind at 1, get.
  rewrite Hv, Ht. simpl. unfold try_catch, bind. fold refresh.
  pose proof (refresh_outcome cfg authServer w) as (_ & Hd & Hn & _).
  fold refresh in Hd, Hn.
  destruct (refresh w) as [[[r|s|]|e|] w1]; simpl in *; try reflexivity.
  - now elim Hn.
  - now elim Hd.
Qed.

(** X3: How the guard fails: with one of two errors, never with the error of
    the authorization server, and with the stored record as it was.  Without
    a refresh token it has done nothing at all. *)
Theorem guard_failure (w w' : World) (e : Exn) :
  guard w = (Throw e, w') ->
  hasValidTokens w = false
  /\ currentTokens w' = currentTokens w
  /\ ((Js.truthyS (refreshToken (currentTokens w)) = false
       /\ e = Err "No valid tokens available. Please authenticate using the OAuth flow."
       /\ w' = w)
      \/ (Js.truthyS (refreshToken (currentTokens w)) = true
          /\ e = Err "Unable to refresh token. Please re-authenticate.")).
Proof.
  intros E.
  destruct (hasValidTokens w) eqn:Hv.
  { unfold guard in E. rewrite (guard_valid cfg authServer w Hv) in E.
    discriminate. }
  split; [reflexivity|].
  destruct (Js.truthyS (refreshToken (currentTokens w))) eqn:Ht.
  - rewrite (guard_refreshing w Hv Ht) in E.
    pose proof (refresh_failed_keeps_tokens cfg authServer w) as Hkeep.
    pose proof (refresh_returns cfg authServer w) as Hret.
    fold refresh in Hkeep, Hret.
    destruct (refresh w) as [[d|e0|] w1]; simpl in *.
    + discriminate.
    + injection E as <- <-. split; [now apply (Hkeep e0)|]. right. auto.
    + now elim Hret.
  - unfold guard, ensureValidToken, bind, get in E. rewrite Hv, Ht in E.
    simpl in E. injection E as <- <-. split; [reflexivity|]. left. auto.
Qed.

(** X4: The token the guard hands out is the stored access token, also after a
    refresh.  With a valid record the guard does nothing and the token is
    not empty; otherwise it has refreshed exactly once and has sent nothing
    to the merchant API. *)
Theorem guard_token_is_stored (w w' : World) (token : option string) :
  guard w = (Ret token, w') ->
  token = accessToken (currentTokens w')
  /\ (hasValidTokens w = true -> w' = w /\ Js.truthyS token = true)
  /\ (hasValidTokens w = false ->
      refreshCalls (trace w') = S (refreshCalls (trace w))
      /\ dispatches (trace w') = dispatches (trace w)).
Proof.
  intros E.
  destruct (hasValidTokens w) eqn:Hv.
  - unfold guard in E. rewrite (guard_valid cfg authServer w Hv) in E.
    injection E as <- <-. split; [reflexivity|]. split; [|discriminate].
    intros _. split; [reflexivity|].
    apply (hasValidTokens_complete w Hv).
  - destruct (Js.truthyS (refreshToken (currentTokens w))) eqn:Ht.
    2:{ unfold guard, ensureValidToken, bind, get in E. rewrite Hv, Ht in E.
        discriminate. }
    rewrite (guard_refreshing w Hv Ht) in E.
    pose proof (refresh_returned cfg authServer w) as Hst.
    destruct (refresh_trace cfg authServer w) as (ps & Etr & Hps).
    fold refresh in Hst, Etr.
    destruct (refresh w) as [[d|e0|] w1]; simpl in *; try discriminate.
    injection E as <- <-.
    destruct (Hst w1 d eq_refl) as [_ Htok].
    split; [exact Htok|]. split; [discriminate|]. intros _.
    destruct (posts_only ps Hps) as (_ & Hd & Hc).
    rewrite Etr, refreshCalls_app, dispatches_app. simpl.
    rewrite Hd, Hc, app_nil_r. split; [lia|reflexivity].
Qed.

End Guard.

(** ** The callback route *)

Section Route.

Variable cfg : OAuthConfig.
Variable authServer : list Effect -> Request -> HttpResult.

Let exchange := exchangeCodeForTokens cfg authServer.
Let callback := oauthCallback cfg authServer.

Lemma replies_app (a b : list Effect) : replies (a ++ b) = replies a ++ replies b.
Proof.
  induction a as [|e a IH]; simpl; [reflexivity|].
  destruct e; simpl; now rewrite ?IH.
Qed.

Lemma exchange_replies (code : string) (w : World) :
  replies (trace (snd (exchange code w))) = replies (trace w)
  /\ forall p, settlements p (trace (snd (exchange code w)))
               = settlements p (trace w).
Proof.
  split.
  - destruct (exchange_world cfg authServer code w) as [E|E];
      unfold exchange; rewrite E; simpl; rewrite !replies_app; simpl;
      now rewrite ?app_nil_r.
  - intros p. apply quiet_settlements, keeps_exchange.
Qed.

(** A successful callback stores the completed record, whether or not a
    promise is pending. *)
Lemma callback_stores (q : Query) (w w1 : World) (code : string)
    (r : OAuthV2TokenResponse) :
  q_code q = Some code -> code <> "" ->
  exchange code w = (Ret (DObject r), w1) ->
  let filled := fillDefaults (q_merchant_id q) (now w) r in
  let w' := snd (callback q w) in
  currentTokens w' = stored filled
  /\ replies (trace w') = replies (trace w) ++ [(200, SuccessPage)]
  /\ forall p, promiseResolve w = Some p ->
               settlements p (trace w')
               = settlements p (trace w) ++ [Resolved filled].
Proof.
  intros Hq Hne Hx filled w'. unfold w', callback.
  rewrite (callback_exchanged cfg authServer q w w1 code r Hq Hne Hx).
  fold filled.
  destruct (exchange_replies code w) as [Hrep Hset]. rewrite Hx in Hrep, Hset.
  simpl in Hrep, Hset.
  pose proof (exchange_keeps_world cfg authServer code w) as [_ Hsame].
  fold exchange in Hsame. rewrite Hx in Hsame. simpl in Hsame.
  destruct Hsame as (_ & _ & _ & Hres & _).
  destruct (promiseResolve w) as [p|] eqn:Hp.
  - rewrite (resolvePromise_pending _ _ p) by (simpl; congruence). simpl.
    split; [reflexivity|]. split.
    + rewrite !replies_app, Hrep. simpl. now rewrite app_nil_r.
    + intros p' [= <-]. rewrite !settlements_app, Hset. simpl.
      rewrite Nat.eqb_refl. now rewrite app_nil_r.
  - rewrite resolvePromise_settled by (simpl; congruence). simpl.
    split; [reflexivity|]. split; [|discriminate].
    rewrite replies_app, Hrep. reflexivity.
Qed.

Lemma defaulted (x : option Z) :
  negb (Js.truthyN x) || Js.isNaN x = negb (Js.truthyN x).
Proof. destruct x as [n|]; simpl; [apply orb_false_r|reflexivity]. Qed.

(** The fields of a completed record. *)
Lemma fillDefaults_fields (m : option string) (t : Z)
    (r : OAuthV2TokenResponse) :
  let f := fillDefaults m t r in
  access_token f = access_token r
  /\ refresh_token f = refresh_token r
  /\ merchant_id f
     = (if negb (Js.truthyS (merchant_id r)) && Js.truthyS m
        then m else merchant_id r)
  /\ access_token_expiry f
     = (if Js.truthyN (access_token_expiry r) then access_token_expiry r
        else Some (t + 3600))
  /\ refresh_token_expiry f
     = (if Js.truthyN (refresh_token_expiry r) then refresh_token_expiry r
        else Some (t + 30 * 86400)).
Proof.
  cbv zeta. unfold fillDefaults.
  destruct (negb (Js.truthyS (merchant_id r)) && Js.truthyS m);
    cbn [access_token refresh_token merchant_id access_token_expiry
         refresh_token_expiry];
    rewrite !defaulted;
    destruct (Js.truthyN (access_token_expiry r));
    cbn [negb access_token refresh_token merchant_id access_token_expiry
         refresh_token_expiry];
    rewrite ?defaulted;
    destruct (Js.truthyN (refresh_token_expiry r));
    cbn [negb access_token refresh_token merchant_id access_token_expiry
         refresh_token_expiry];
    repeat split.
Qed.

(** X6: After a successful callback both expiries of the stored record are set:
    those of the provider when it sent them, and otherwise one hour and
    thirty days from now.  The merchant id of the provider wins over the one
    of the callback. *)
Theorem callback_sets_expiries (q : Query) (w w1 : World) (code : string)
    (r : OAuthV2TokenResponse) :
  q_code q = Some code -> code <> "" ->
  exchange code w = (Ret (DObject r), w1) ->
  0 <= now w ->
  let t := currentTokens (snd (callback q w)) in
  (Js.truthyN (accessTokenExpiry t) = true
   /\ Js.truthyN (refreshTokenExpiry t) = true)
  /\ accessTokenExpiry t
     = (if Js.truthyN (access_token_expiry r) then access_token_expiry r
        else Some (now w + 3600))
  /\ refreshTokenExpiry t
     = (if Js.truthyN (refresh_token_expiry r) then refresh_token_expiry r
        else Some (now w + 2592000))
  /\ (Js.truthyS (merchant_id r) = true -> merchantId t = merchant_id r)
  /\ (Js.truthyS (merchant_id r) = false ->
      Js.truthyS (q_merchant_id q) = true -> merchantId t = q_merchant_id q).
Proof.
  intros Hq Hne Hx Hnow t.
  destruct (callback_stores q w w1 code r Hq Hne Hx) as (Hst & _).
  unfold t. rewrite Hst. clear t Hst. unfold stored.
  destruct (fillDefaults_fields (q_merchant_id q) (now w) r)
    as (_ & _ & Hm & Ha & Hr).
  cbn [accessTokenExpiry refreshTokenExpiry merchantId].
  rewrite Hm, Ha, Hr. change (30 * 86400) with 2592000.
  split; [split|].
  - destruct (Js.truthyN (access_token_expiry r)) eqn:E; [exact E|].
    simpl. apply negb_true_iff, Z.eqb_neq. lia.
  - destruct (Js.truthyN (refresh_token_expiry r)) eqn:E; [exact E|].
    simpl. apply negb_true_iff, Z.eqb_neq. lia.
  - split; [reflexivity|]. split; [reflexivity|]. split.
    + intros ->. reflexivity.
    + intros -> ->. reflexivity.
Qed.

End Route.

(** ** Handlers and preorders on worlds *)

Section Handlers.

Variable cfg : OAuthConfig.
Variable authServer : list Effect -> Request -> HttpResult.
Variable upstream : list Effect -> ReqConfig -> ApiResult.

(** A preorder that holds across every quiet step, across every change of
    fields other than the promises and the trace, and across the three
    operations on promises, holds across every handler. *)
Variable R : World -> World -> Prop.
Hypothesis R_refl : forall w, R w w.
Hypothesis R_trans : forall a b c, R a b -> R b c -> R a c.
Hypothesis R_quiet : forall w w', quiet w w' -> R w w'.
Hypothesis R_same :
  forall w w',
    promiseResolve w' = promiseResolve w ->
    promiseReject w' = promiseReject w ->
    nextPromise w' = nextPromise w ->
    trace w' = trace w -> R w w'.
Hypothesis R_resolve : forall v, respects R (resolvePromise v).
Hypothesis R_reject : forall e, respects R (rejectPromise e).
Hypothesis R_start : forall port rnd, respects R (startOAuthFlow port rnd).

Let r_ret {A} := @respects_ret R R_refl A.
Let r_throw {A} := @respects_throw R R_refl A.
Let r_bind {A B} := @respects_bind R R_trans A B.
Let r_try {A} := @respects_try_catch R R_trans A.
Let r_get := respects_get R R_refl.

Lemma respects_keeps {A} (m : M A) : keeps m -> respects R m.
Proof. intros H w. apply R_quiet, H. Qed.

Lemma respects_respond (code : Z) (p : Page) : respects R (respond code p).
Proof. intros w. now apply R_quiet, quiet_emit. Qed.

Lemma respects_afterExchange (mid : option string) (d : Data) :
  respects R (afterExchange mid d).
Proof.
  assert (Hno : respects R noTokensInResponse).
  { apply r_bind; [apply respects_respond|]. intros; apply R_reject. }
  destruct d as [r|s|]; simpl; auto.
  - apply r_bind; [apply r_get|]. intros w0.
    apply r_bind; [intros w; apply R_quiet, quiet_setCurrentTokens|].
    intros _.
    apply r_bind; [apply respects_respond|]. intros _.
    apply r_bind; [apply R_resolve|]. intros _.
    apply r_bind; [apply r_get|]. intros w1.
    intros w. now apply R_same.
  - destruct (String.eqb s ""); auto.
    destruct (Js.truthyS mid); apply r_throw.
Qed.

Lemma respects_oauthCallback (q : Query) :
  respects R (oauthCallback cfg authServer q).
Proof.
  assert (Hmissing :
    respects R
      (respond 400 (Text "Error: Missing authorization code") ;;;
       rejectPromise (Err "Missing authorization code"))).
  { apply r_bind; [apply respects_respond|]. intros; apply R_reject. }
  unfold oauthCallback. destruct (q_code q) as [code|]; auto.
  destruct (negb (Js.truthyS (Some code))); auto.
  apply r_try.
  - apply r_bind; [apply respects_keeps, keeps_exchange|].
    intros d. apply respects_afterExchange.
  - intros e. apply r_bind; [apply respects_respond|].
    intros; apply R_reject.
Qed.

Lemma respects_handle (ev : Event) :
  respects R (handle cfg authServer upstream ev).
Proof.
  destruct ev; unfold handle.
  - apply R_start.
  - apply r_bind; [apply r_get|]. intros w0.
    destruct (server w0); [apply respects_oauthCallback|apply r_ret].
  - apply R_reject.
  - apply r_bind; [apply r_get|]. intros w0.
    destruct (timers w0); [apply r_ret|].
    apply r_bind; [intros w; now apply R_same|]. intros _.
    unfold closeServer. apply r_bind; [apply r_get|]. intros w1.
    destruct (server w1); [intros w; now apply R_same|apply r_ret].
  - apply r_bind; [apply r_get|]. intros w0.
    destruct (closing w0); [apply r_ret|].
    apply r_bind; [intros w|intros _ w]; now apply R_same.
  - apply r_bind; [apply r_get|]. intros w0.
    intros w. now apply R_same.
  - apply r_try; [|intros; apply r_ret].
    apply r_bind; [apply respects_keeps, keeps_refresh|intros; apply r_ret].
  - apply r_try; [|intros; apply r_ret].
    apply r_bind;
      [apply respects_keeps, (keeps_baseClient cfg authServer upstream 2)|
       intros; apply r_ret].
Qed.

Lemma respects_run (evs : list Event) (w : World) :
  R w (run cfg authServer upstream w evs).
Proof.
  revert w. induction evs as [|ev evs IH]; intros w; simpl.
  - apply R_refl.
  - eapply R_trans; [apply (respects_handle ev w)|apply IH].
Qed.

End Handlers.

(** ** Promises the client does not hold *)

Lemma leaves_refl (p : nat) (w : World) : leaves p w w.
Proof. intros H. auto. Qed.

Lemma leaves_trans (p : nat) (a b c : World) :
  leaves p a b -> leaves p b c -> leaves p a c.
Proof.
  intros H1 H2 Ha. destruct (H1 Ha) as [Hb E1].
  destruct (H2 Hb) as [Hc E2]. split; [exact Hc|congruence].
Qed.

Lemma leaves_quiet (p : nat) (w w' : World) : quiet w w' -> leaves p w w'.
Proof.
  intros Q (H1 & H2 & H3).
  pose proof Q as [(_ & _ & _ & Eres & Erej & _ & _ & Enext) _].
  split; [|now apply quiet_settlements].
  unfold unheld. now rewrite Eres, Erej, Enext.
Qed.

Lemma leaves_same (p : nat) (w w' : World) :
  promiseResolve w' = promiseResolve w ->
  promiseReject w' = promiseReject w ->
  nextPromise w' = nextPromise w ->
  trace w' = trace w -> leaves p w w'.
Proof.
  intros E1 E2 E3 E4 H. unfold unheld. now rewrite E1, E2, E3, E4.
Qed.

Lemma leaves_resolvePromise (p : nat) (v : OAuthV2TokenResponse) :
  respects (leaves p) (resolvePromise v).
Proof.
  intros w (H1 & H2 & H3).
  destruct (promiseResolve w) as [q|] eqn:Hq.
  - rewrite (resolvePromise_pending v w q Hq). simpl. split.
    + repeat split; simpl; auto; discriminate.
    + rewrite settlements_snoc.
      destruct (Nat.eqb_spec p q) as [->|_]; [now elim H1|apply app_nil_r].
  - rewrite (resolvePromise_settled v w Hq). simpl.
    split; [repeat split; auto; congruence|reflexivity].
Qed.

Lemma leaves_rejectPromise (p : nat) (e : Exn) :
  respects (leaves p) (rejectPromise e).
Proof.
  intros w (H1 & H2 & H3).
  destruct (promiseReject w) as [q|] eqn:Hq.
  - rewrite (rejectPromise_pending e w q Hq). simpl. split.
    + repeat split; simpl; auto; discriminate.
    + rewrite settlements_snoc.
      destruct (Nat.eqb_spec p q) as [->|_]; [now elim H2|apply app_nil_r].
  - rewrite (rejectPromise_settled e w Hq). simpl.
    split; [repeat split; auto; congruence|reflexivity].
Qed.

Lemma leaves_startOAuthFlow (p : nat) (port : Z) (rnd : string) :
  respects (leaves p) (startOAuthFlow port rnd).
Proof.
  intros w (H1 & H2 & H3). unfold startOAuthFlow, bind, get, modify.
  destruct (server w) as [running|]; simpl.
  - split; [repeat split; simpl; auto|].
    rewrite settlements_snoc.
    destruct (Nat.eqb_spec p (nextPromise w)); [lia|apply app_nil_r].
  - split; [|reflexivity].
    repeat split; simpl; auto; intros [= E]; lia.
Qed.

Section Orphans.

Variable cfg : OAuthConfig.
Variable authServer : list Effect -> Request -> HttpResult.
Variable upstream : list Effect -> ReqConfig -> ApiResult.

Let stepC := step cfg authServer upstream.
Let runC := run cfg authServer upstream.

Lemma leaves_run (p : nat) (evs : list Event) (w : World) :
  leaves p w (runC w evs).
Proof.
  apply (respects_run cfg authServer upstream (leaves p)
           (leaves_refl p) (leaves_trans p) (leaves_quiet p) (leaves_same p)
           (leaves_resolvePromise p) (leaves_rejectPromise p)
           (leaves_startOAuthFlow p)).
Qed.

Lemma reachable_inv (t : Z) (evs : list Event) :
  sessionInv (runC (initialWorld t) evs).
Proof.
  apply (evolves_run cfg authServer upstream evs (initialWorld t)),
    sessionInv_initial.
Qed.

(** X7: Only the promise whose callbacks the client holds can be settled: a
    promise made earlier that the client does not hold, or no longer holds,
    keeps its settlements, none or one, through everything that follows. *)
Theorem only_held_promise_settles (t : Z) (evs more : list Event) (p : nat) :
  let w := runC (initialWorld t) evs in
  promiseResolve w <> Some p ->
  (p < nextPromise w)%nat ->
  settlements p (trace (runC w more)) = settlements p (trace w).
Proof.
  intros w Hp Hlt.
  apply (leaves_run p more w).
  destruct (reachable_inv t evs) as (Heq & _). fold w in Heq.
  repeat split; auto. congruence.
Qed.

(** X8: A call of [startOAuthFlow] while the listener is up is rejected as
    already running and leaves the running session as it is: its state
    value, its callbacks and its listener stay, and no other promise gets a
    settlement. *)
Theorem second_start_rejected (t : Z) (evs : list Event) (port : Z)
    (rnd : string) :
  let w := runC (initialWorld t) evs in
  server w <> None ->
  let w' := stepC w (StartFlow port rnd) in
  settlements (nextPromise w) (trace w')
  = [Rejected (Err "OAuth server is already running")]
  /\ (forall p, p <> nextPromise w ->
                settlements p (trace w') = settlements p (trace w))
  /\ state w' = state w /\ server w' = server w
  /\ promiseResolve w' = promiseResolve w
  /\ promiseReject w' = promiseReject w
  /\ currentTokens w' = currentTokens w /\ timers w' = timers w.
Proof.
  intros w Hs w'.
  destruct (reachable_inv t evs) as (_ & _ & Hfresh & _). fold w in Hfresh.
  unfold w', stepC, step, handle, startOAuthFlow, bind, get, modify.
  destruct (server w) as [running|] eqn:Hsrv; [clear Hs|now elim Hs]. simpl.
  split; [|split; [|repeat split]].
  - rewrite settlements_snoc, Nat.eqb_refl, Hfresh by lia. reflexivity.
  - intros p Hp. rewrite settlements_snoc.
    destruct (Nat.eqb_spec p (nextPromise w)); [contradiction|].
    apply app_nil_r.
  - now rewrite Hsrv.
Qed.

(** X9: A shutdown timer left over from an earlier session closes the listener
    of the next one: the new flow is accepted, the timer fires, the listener
    closes, and the promise of the new flow is pending without a listener.
    No callback can reach it, the next [startOAuthFlow] takes its place, and
    it is never settled. *)
Theorem stale_timer_orphans_flow (t : Z) (evs more : list Event)
    (port port' : Z) (rnd rnd' : string) (n : nat) :
  let w := runC (initialWorld t) evs in
  server w = None -> timers w = S n ->
  let p := nextPromise w in
  let w1 := runC w [StartFlow port rnd; TimerFire; CloseDone] in
  let w2 := stepC w1 (StartFlow port' rnd') in
  (promiseResolve w1 = Some p /\ server w1 = None
   /\ settlements p (trace w1) = [])
  /\ (forall q, stepC w1 (Callback q) = w1)
  /\ promiseResolve w2 = Some (S p)
  /\ settlements p (trace (runC w2 more)) = [].
Proof.
  intros w Hs Ht p w1 w2.
  destruct (reachable_inv t evs) as (_ & _ & Hfresh & _). fold w in Hfresh.
  assert (E1 : promiseResolve w1 = Some p /\ promiseReject w1 = Some p
               /\ server w1 = None /\ trace w1 = trace w
               /\ nextPromise w1 = S p).
  { unfold w1, runC, run, step, handle, startOAuthFlow, closeServer,
      closeCallback, bind, get, modify. simpl. rewrite Hs. simpl.
    rewrite Ht. simpl. repeat split. }
  destruct E1 as (Hres & Hrej & Hsrv & Htr & Hnext).
  assert (E2 : promiseResolve w2 = Some (S p) /\ promiseReject w2 = Some (S p)
               /\ trace w2 = trace w /\ nextPromise w2 = S (S p)).
  { unfold w2, stepC, step, handle, startOAuthFlow, bind, get, modify.
    rewrite Hsrv. simpl. rewrite Hnext, Htr. repeat split. }
  destruct E2 as (Hres2 & Hrej2 & Htr2 & Hnext2).
  split; [|split; [|split]].
  - rewrite Htr. repeat split; auto; apply Hfresh; unfold p; lia.
  - intros q. unfold stepC, step, handle, bind, get. now rewrite Hsrv.
  - exact Hres2.
  - assert (Hun : unheld p w2).
    { repeat split.
      - rewrite Hres2. intros [= E]. lia.
      - rewrite Hrej2. intros [= E]. lia.
      - rewrite Hnext2. lia. }
    destruct (leaves_run p more w2 Hun) as [_ ->].
    rewrite Htr2. apply Hfresh. unfold p. lia.
Qed.

End Orphans.

(** ** What a call costs *)

Lemma spends_refl (ok : ReqConfig -> Prop) (w : World) : spends 0 0 ok w w.
Proof.
  exists []. rewrite app_nil_r. simpl. repeat split; auto.
Qed.

Lemma spends_trans (d1 r1 d2 r2 : nat) (ok : ReqConfig -> Prop)
    (a b c : World) :
  spends d1 r1 ok a b -> spends d2 r2 ok b c ->
  spends (d1 + d2) (r1 + r2) ok a c.
Proof.
  intros (t1 & E1 & D1 & R1 & F1) (t2 & E2 & D2 & R2 & F2).
  exists (t1 ++ t2). rewrite E2, E1, app_assoc.
  rewrite dispatches_app, refreshCalls_app, length_app.
  repeat split; try lia. apply Forall_app. auto.
Qed.

Lemma spends_more (d r d' r' : nat) (ok ok' : ReqConfig -> Prop)
    (w w' : World) :
  (d <= d')%nat -> (r <= r')%nat -> (forall c, ok c -> ok' c) ->
  spends d r ok w w' -> spends d' r' ok' w w'.
Proof.
  intros Hd Hr Hok (tr & E & D & R & F).
  exists tr. repeat split; auto; try lia.
  eapply Forall_impl; eauto.
Qed.

Lemma spends_nothing (d r : nat) (ok : ReqConfig -> Prop) (w : World) :
  spends d r ok w w.
Proof.
  exists []. rewrite app_nil_r. simpl. repeat split; auto; lia.
Qed.

Lemma spends_le (d r d' r' : nat) (ok : ReqConfig -> Prop) (w w' : World) :
  spends d r ok w w' -> (d <= d')%nat -> (r <= r')%nat ->
  spends d' r' ok w w'.
Proof. intros H Hd Hr. apply (spends_more d r d' r' ok ok); auto. Qed.

Lemma spends_dispatch (ok : ReqConfig -> Prop) (c : ReqConfig) (w : World) :
  ok c -> spends 1 0 ok w (emit (Dispatch c) w).
Proof.
  intros H. exists [Dispatch c]. simpl. repeat split; auto.
Qed.

Section Costs.

Variable cfg : OAuthConfig.
Variable authServer : list Effect -> Request -> HttpResult.
Variable upstream : list Effect -> ReqConfig -> ApiResult.
Variable appUuid : string -> option string.

Let refresh := refreshAccessToken cfg authServer.
Let guard := ensureValidToken cfg authServer.
Let client := baseClient cfg authServer upstream.
Let try_once := attempt cfg authServer upstream.

Lemma refresh_spends (ok : ReqConfig -> Prop) (w : World) :
  spends 0 1 ok w (snd (refresh w)).
Proof.
  destruct (refresh_trace cfg authServer w) as (ps & E & Hps).
  destruct (posts_only ps Hps) as (_ & Hd & Hc).
  exists (RefreshCall :: ps). split; [exact E|]. simpl.
  rewrite Hd, Hc. simpl. repeat split; auto.
Qed.

Lemma guard_spends (ok : ReqConfig -> Prop) (w : World) :
  spends 0 1 ok w (snd (guard w)).
Proof.
  destruct (hasValidTokens w) eqn:Hv.
  - unfold guard. rewrite (guard_valid cfg authServer w Hv). simpl.
    apply spends_nothing.
  - destruct (Js.truthyS (refreshToken (currentTokens w))) eqn:Ht.
    + unfold guard. rewrite (guard_refreshing cfg authServer w Hv Ht).
      pose proof (refresh_spends ok w) as H. unfold refresh in H.
      destruct (refreshAccessToken cfg authServer w) as [[d|e|] w1];
        exact H.
    + unfold guard, ensureValidToken, bind, get. rewrite Hv, Ht. simpl.
      apply spends_nothing.
Qed.

Lemma try_once_spends (c : ReqConfig) (w : World) :
  spends 1 1 (bearing (path c)) w (snd (try_once c w)).
Proof.
  pose proof (guard_spends (bearing (path c)) w) as Hg.
  unfold try_once, guard in *.
  destruct (ensureValidToken cfg authServer w) as [[token|e|] w1] eqn:E;
    simpl in Hg.
  - rewrite (try_once_sent cfg authServer upstream c w w1 token E). simpl.
    apply (spends_trans 0 1 1 0 _ w w1 _ Hg).
    apply spends_dispatch. split; [reflexivity|]. now exists token.
  - rewrite (try_once_unguarded cfg authServer upstream c w w1 e E). simpl.
    apply (spends_le _ _ _ _ _ _ _ Hg); lia.
  - pose proof (total_ensureValidToken cfg authServer w) as Ht.
    rewrite E in Ht. now elim Ht.
Qed.

Lemma client_cost (n : nat) (c : ReqConfig) (w : World) :
  spends 2 3 (bearing (path c)) w (snd (client (S (S n)) c w)).
Proof.
  unfold client. rewrite client_unfold. unfold try_catch.
  pose proof (try_once_spends c w) as H1.
  unfold try_once, guard, refresh in *.
  destruct (ensureValidToken cfg authServer w) as [[token|e|] w1] eqn:E.
  - rewrite (try_once_sent cfg authServer upstream c w w1 token E) in *.
    destruct (upstream _ _) as [data|st dm msg]; simpl in *.
    + apply (spends_le _ _ _ _ _ _ _ H1); lia.
    + unfold is401. simpl.
      destruct st as [s|];
        [|apply (spends_le _ _ _ _ _ _ _ H1); lia].
      destruct (Z.eqb s 401);
        [|apply (spends_le _ _ _ _ _ _ _ H1); lia].
      destruct (_retry c); simpl;
        [apply (spends_le _ _ _ _ _ _ _ H1); lia|].
      unfold bind at 1. unfold try_catch, bind at 1.
      set (w2 := emit (Dispatch _) w1) in *.
      pose proof (refresh_spends (bearing (path c)) w2) as H2.
      unfold refresh in H2.
      destruct (refreshAccessToken cfg authServer w2) as [[d|e0|] w3];
        simpl in *.
      * pose proof (try_once_spends
                      (mkReqConfig (path c) (bearer token) true) w3) as H3.
        simpl in H3.
        apply (spends_trans 1 1 1 2 _ w w2 _ H1).
        apply (spends_trans 0 1 1 1 _ w2 w3 _ H2 H3).
      * apply (spends_le 1 2); try lia.
        apply (spends_trans 1 1 0 1 _ w w2 _ H1 H2).
      * apply (spends_le 1 2); try lia.
        apply (spends_trans 1 1 0 1 _ w w2 _ H1 H2).
  - rewrite (try_once_unguarded cfg authServer upstream c w w1 e E) in *.
    destruct (guard_throws cfg authServer w w1 e E) as (m & ->). simpl in *.
    apply (spends_le _ _ _ _ _ _ _ H1); lia.
  - pose proof (total_ensureValidToken cfg authServer w) as Ht.
    rewrite E in Ht. now elim Ht.
Qed.

(** X10: Whatever the servers answer, one call of the client returns or throws
    after at most two requests to the merchant API, each on the path it was
    called with and with a bearer token, and at most three refreshes: one in
    the guard of each request and one between them. *)
Theorem client_spends (n : nat) (c : ReqConfig) (w : World) :
  spends 2 3 (bearing (path c)) w (snd (client (S (S n)) c w))
  /\ fst (client (S (S n)) c w) <> Diverge
  /\ client (S (S n)) c w = client 2 c w.
Proof.
  split; [apply client_cost|].
  split; [apply client_returns|apply client_fuel].
Qed.

End Costs.

(** ** The methods of CloverApiClient *)

Section MethodProperties.

Variable cfg : OAuthConfig.
Variable authServer : list Effect -> Request -> HttpResult.
Variable upstream : list Effect -> ReqConfig -> ApiResult.
Variable appUuid : string -> option string.

Let guard := ensureValidToken cfg authServer.
Let credentials := ensureCredentials cfg authServer.

Lemma credentials_no_key (w : World) :
  Js.truthyS (accessToken (currentTokens w)) = false ->
  credentials w = (Throw keyRequired, w).
Proof.
  intros H. unfold credentials, ensureCredentials, bind, get. simpl.
  now rewrite H.
Qed.

Lemma credentials_no_merchant (w : World) :
  Js.truthyS (accessToken (currentTokens w)) = true ->
  Js.truthyS (merchantId (currentTokens w)) = false ->
  credentials w = (Throw merchantRequired, w).
Proof.
  intros Ha Hm. unfold credentials, ensureCredentials, bind, get. simpl.
  now rewrite Ha, Hm.
Qed.

Lemma credentials_guard (w : World) :
  Js.truthyS (accessToken (currentTokens w)) = true ->
  Js.truthyS (merchantId (currentTokens w)) = true ->
  credentials w
  = match guard w with
    | (Ret _, w1) => (Ret tt, w1)
    | (Throw e, w1) => (Throw e, w1)
    | (Diverge, w1) => (Diverge, w1)
    end.
Proof.
  intros Ha Hm. unfold credentials, ensureCredentials, bind at 1, get. simpl.
  rewrite Ha, Hm. simpl. unfold bind. fold guard.
  destruct (guard w) as [[token|e|] w1]; reflexivity.
Qed.

(** The check of the credentials: it returns or throws a plain error, and
    costs at most one refresh. *)
Lemma credentials_outcome (ok : ReqConfig -> Prop) (w : World) :
  spends 0 1 ok w (snd (credentials w))
  /\ fst (credentials w) <> Diverge
  /\ forall e, fst (credentials w) = Throw e -> exists m, e = Err m.
Proof.
  destruct (Js.truthyS (accessToken (currentTokens w))) eqn:Ha.
  2:{ rewrite (credentials_no_key w Ha). simpl.
      split; [apply spends_nothing|]. split; [discriminate|].
      intros e [= <-]. unfold keyRequired. eauto. }
  destruct (Js.truthyS (merchantId (currentTokens w))) eqn:Hm.
  2:{ rewrite (credentials_no_merchant w Ha Hm). simpl.
      split; [apply spends_nothing|]. split; [discriminate|].
      intros e [= <-]. unfold merchantRequired. eauto. }
  rewrite (credentials_guard w Ha Hm).
  pose proof (guard_spends cfg authServer ok w) as Hs.
  pose proof (total_ensureValidToken cfg authServer w) as Ht.
  pose proof (guard_throws cfg authServer w) as Hth.
  unfold guard.
  destruct (ensureValidToken cfg authServer w) as [[token|e|] w1];
    simpl in *.
  - split; [exact Hs|]. split; discriminate.
  - split; [exact Hs|]. split; [discriminate|].
    intros e0 [= <-]. apply (Hth w1 e eq_refl).
  - now elim Ht.
Qed.

(** X11: Without an access token, and with one but without a merchant id, no
    method gets as far as a request or a refresh: each fails with the error
    that names what is missing and leaves the world as it is, also when a
    refresh token is stored. *)
Theorem methods_need_credentials (w : World) (id : string) :
  (Js.truthyS (accessToken (currentTokens w)) = false ->
   getItem cfg authServer upstream id w = (Throw keyRequired, w)
   /\ getOrder cfg authServer upstream id w = (Throw keyRequired, w)
   /\ getMerchantInfo cfg authServer upstream w = (Throw keyRequired, w))
  /\ (Js.truthyS (accessToken (currentTokens w)) = true ->
      Js.truthyS (merchantId (currentTokens w)) = false ->
      getItem cfg authServer upstream id w = (Throw merchantRequired, w)
      /\ getOrder cfg authServer upstream id w = (Throw merchantRequired, w)
      /\ getMerchantInfo cfg authServer upstream w
         = (Throw merchantRequired, w)).
Proof.
  split.
  - intros Ha. unfold getItem, getOrder, getMerchantInfo, bind.
    fold credentials. rewrite (credentials_no_key w Ha). auto.
  - intros Ha Hm. unfold getItem, getOrder, getMerchantInfo, bind.
    fold credentials. rewrite (credentials_no_merchant w Ha Hm). auto.
Qed.

Lemma apiError_plain (e : Exn) : forall a, apiError e <> AxiosErr a.
Proof. destruct e; discriminate. Qed.

(** The shape [getItem] and [getOrder] share: the check of the credentials,
    then the client on a path made from the stored merchant id. *)
Lemma get_by_path (f : World -> string) (ok : ReqConfig -> Prop) (w : World) :
  (forall w0 c, bearing (f w0) c -> ok c) ->
  let m :=
    credentials ;;;
    try_catch (w0 <- get ;; clientGet cfg authServer upstream (f w0))
              (fun error => throw (apiError error)) in
  spends 2 4 ok w (snd (m w))
  /\ fst (m w) <> Diverge
  /\ forall e, fst (m w) = Throw e -> forall a, e <> AxiosErr a.
Proof.
  intros Hok m.
  remember (m w) as out eqn:Eout.
  unfold m, bind at 1 in Eout. clear m.
  destruct (credentials_outcome ok w) as (Hs & Ht & Hth).
  destruct (credentials w) as [[[]|e|] w0]; cbn [fst snd] in *.
  - unfold try_catch, bind, get, clientGet in Eout.
    pose proof (client_cost cfg authServer upstream 0
                  (mkReqConfig (f w0) None false) w0) as Hc.
    pose proof (client_returns cfg authServer upstream 0
                  (mkReqConfig (f w0) None false) w0) as Hd.
    cbn [path] in Hc.
    assert (Hc' : spends 2 3 ok w0
              (snd (baseClient cfg authServer upstream 2
                      (mkReqConfig (f w0) None false) w0))).
    { apply (spends_more 2 3 2 3 (bearing (f w0))); auto. apply Hok. }
    clear Hc.
    destruct (baseClient cfg authServer upstream 2
                (mkReqConfig (f w0) None false) w0) as [[data|e|] w1];
      cbn [fst snd] in *; subst out; cbn [fst snd throw].
    + split; [apply (spends_trans 0 1 2 3 _ w w0 _ Hs Hc')|].
      split; [discriminate|intros e0 [=]].
    + split; [apply (spends_trans 0 1 2 3 _ w w0 _ Hs Hc')|].
      split; [discriminate|]. intros e0 [= <-]. apply apiError_plain.
    + now elim Hd.
  - subst out. cbn [fst snd].
    split; [apply (spends_le _ _ _ _ _ _ _ Hs); lia|].
    split; [discriminate|].
    intros e0 [= <-] a. destruct (Hth e eq_refl) as (msg & ->). discriminate.
  - now elim Ht.
Qed.

(** X12: [getItem] and [getOrder] send at most two requests to the merchant API,
    each with a bearer token and on the path of the item or order under some
    merchant, and refresh at most four times; they return or throw, and what
    they throw is never a raw axios error. *)
Theorem get_by_id_costs (id : string) (w : World) :
  let item := getItem cfg authServer upstream id w in
  let order := getOrder cfg authServer upstream id w in
  (spends 2 4
     (fun c => (exists m, path c = "/v3/merchants/" ++ m ++ "/items/" ++ id)%string
               /\ exists token, authorization c = bearer token)
     w (snd item)
   /\ fst item <> Diverge
   /\ forall e, fst item = Throw e -> forall a, e <> AxiosErr a)
  /\ (spends 2 4
        (fun c => (exists m, path c = "/v3/merchants/" ++ m ++ "/orders/" ++ id)%string
                  /\ exists token, authorization c = bearer token)
        w (snd order)
      /\ fst order <> Diverge
      /\ forall e, fst order = Throw e -> forall a, e <> AxiosErr a).
Proof.
  cbv zeta. split.
  - apply (get_by_path
             (fun w0 => "/v3/merchants/" ++ Js.show (merchantId (getTokens w0))
                          ++ "/items/" ++ id)%string).
    intros w0 c [Hp Ha]. split; [eauto|exact Ha].
  - apply (get_by_path
             (fun w0 => "/v3/merchants/" ++ Js.show (merchantId (getTokens w0))
                          ++ "/orders/" ++ id)%string).
    intros w0 c [Hp Ha]. split; [eauto|exact Ha].
Qed.

(** X13: [getMerchantInfo] goes around the interceptors: it sends at most one
    request, never one marked as a retry, and refreshes at most twice, both
    times before the request.  When the request fails, with 401 or anything
    else, the call ends there with the error "Clover API error: <status>
    <message>": nothing is refreshed and nothing is sent again. *)
Theorem getMerchantInfo_once (w : World) :
  let out := getMerchantInfo cfg authServer upstream w in
  spends 1 2
    (fun c => _retry c = false
              /\ (exists m, path c = baseUrl cfg ++ "/v3/merchants/" ++ m)%string
              /\ exists token, authorization c = bearer token)
    w (snd out)
  /\ fst out <> Diverge
  /\ (forall e, fst out = Throw e -> forall a, e <> AxiosErr a)
  /\ (forall w0 w1 token st dm msg,
        credentials w = (Ret tt, w0) ->
        guard w0 = (Ret token, w1) ->
        let c := mkReqConfig
                   (baseUrl cfg ++ "/v3/merchants/"
                      ++ Js.show (merchantId (currentTokens w1)))
                   (bearer token) false in
        upstream (trace w1) c = ApiFail st dm msg ->
        out = (Throw (Err ("Clover API error: " ++ Text.showN st ++ " "
                             ++ Js.show (Js.orS dm (Some msg)))),
               emit (Dispatch c) w1)).
Proof.
  intros out.
  set (ok := fun c : ReqConfig =>
               _retry c = false
               /\ (exists m, path c = baseUrl cfg ++ "/v3/merchants/" ++ m)%string
               /\ exists token, authorization c = bearer token).
  assert (Eout : out = getMerchantInfo cfg authServer upstream w)
    by reflexivity.
  clearbody out.
  unfold getMerchantInfo, bind at 1 in Eout. fold credentials in Eout.
  destruct (credentials_outcome ok w) as (Hs & Ht & Hth).
  destruct (credentials w) as [[[]|e|] w0]; cbn [fst snd] in *.
  - unfold try_catch, bind at 1 in Eout. fold guard in Eout.
    pose proof (guard_spends cfg authServer ok w0) as Hg.
    pose proof (total_ensureValidToken cfg authServer w0) as Htot.
    pose proof (guard_throws cfg authServer w0) as Hgt.
    unfold guard in *.
    destruct (ensureValidToken cfg authServer w0) as [[token|e|] w1] eqn:Eg;
      cbn [fst snd] in *.
    + unfold bind, get, dispatch in Eout. cbn [fst snd getTokens merchantId]
        in Eout.
      set (c := mkReqConfig
                  (baseUrl cfg ++ "/v3/merchants/"
                      ++ Js.show (merchantId (currentTokens w1)))
                  (bearer token) false) in *.
      assert (Hokc : ok c).
      { unfold ok, c. simpl. split; [reflexivity|]. split; eauto. }
      assert (Hsp : spends 1 2 ok w (emit (Dispatch c) w1)).
      { apply (spends_trans 0 1 1 1 _ w w0 _ Hs).
        apply (spends_trans 0 1 1 0 _ w0 w1 _ Hg).
        now apply spends_dispatch. }
      destruct (upstream (trace w1) c) as [data|st dm msg] eqn:Hup;
        subst out; cbn [fst snd throw apiError status dataMessage message].
      * split; [exact Hsp|]. split; [discriminate|].
        split; [intros e0 [=]|].
        intros w0' w1' token' st' dm' msg' [= <-] Hg'.
        rewrite Eg in Hg'. injection Hg' as <- <-. fold c.
        rewrite Hup. discriminate.
      * split; [exact Hsp|]. split; [discriminate|].
        split; [intros e0 [= <-]; discriminate|].
        intros w0' w1' token' st' dm' msg' [= <-] Hg'.
        rewrite Eg in Hg'. injection Hg' as <- <-. fold c.
        rewrite Hup. intros [= <- <- <-]. reflexivity.
    + destruct (Hgt w1 e eq_refl) as (m & ->).
      subst out. cbn [fst snd apiError throw].
      split; [apply (spends_le 0 2); try lia;
              apply (spends_trans 0 1 0 1 _ w w0 _ Hs Hg)|].
      split; [discriminate|].
      split; [intros e0 [= <-]; discriminate|].
      intros w0' w1' token' st' dm' msg' [= <-] Hg'.
      rewrite Eg in Hg'. discriminate.
    + now elim Htot.
  - subst out. cbn [fst snd].
    split; [apply (spends_le _ _ _ _ _ _ _ Hs); lia|].
    split; [discriminate|].
    split.
    + intros e0 [= <-] a. destruct (Hth e eq_refl) as (msg & ->).
      discriminate.
    + intros w0' w1' token' st' dm' msg' [=].
  - now elim Ht.
Qed.

End MethodProperties.

(** ** Text *)

Lemma length_append (a b : string) :
  String.length (a ++ b) = (String.length a + String.length b)%nat.
Proof. induction a as [|c a IH]; simpl; [reflexivity|now rewrite IH]. Qed.

Lemma append_nil_r (a : string) : (a ++ "")%string = a.
Proof. induction a as [|c a IH]; simpl; [reflexivity|now rewrite IH]. Qed.

Lemma append_assoc (a b c : string) :
  ((a ++ b) ++ c)%string = (a ++ b ++ c)%string.
Proof. induction a as [|x a IH]; simpl; [reflexivity|now rewrite IH]. Qed.

Lemma includes_append (c : ascii) (a b : string) :
  Text.includes c (a ++ b) = Text.includes c a || Text.includes c b.
Proof.
  induction a as [|x a IH]; simpl; [reflexivity|].
  rewrite IH. apply orb_assoc.
Qed.

Lemma dropPrefix_append (p s : string) : Text.dropPrefix p (p ++ s) = Some s.
Proof.
  induction p as [|c p IH]; simpl; [reflexivity|].
  now rewrite Ascii.eqb_refl.
Qed.

Lemma dropPrefix_sound (p s r : string) :
  Text.dropPrefix p s = Some r -> s = (p ++ r)%string.
Proof.
  revert s. induction p as [|c p IH]; intros s; simpl.
  - now intros [= ->].
  - destruct s as [|b s]; [discriminate|].
    destruct (Ascii.eqb_spec c b) as [->|]; [|discriminate].
    intros H. now rewrite (IH s H).
Qed.

Lemma length_replaceAll (a b : ascii) (s : string) :
  String.length (Text.replaceAll a b s) = String.length s.
Proof. induction s as [|c s IH]; simpl; [reflexivity|now rewrite IH]. Qed.

Lemma length_repeat (c : ascii) (n : nat) :
  String.length (Text.repeat c n) = n.
Proof. induction n as [|n IH]; simpl; [reflexivity|now rewrite IH]. Qed.

Lemma includes_repeat (c d : ascii) (n : nat) :
  Ascii.eqb d c = false -> Text.includes c (Text.repeat d n) = false.
Proof.
  intros H. induction n as [|n IH]; simpl; [reflexivity|].
  now rewrite H, IH.
Qed.

(** After [replace(/a/g, b)] there is no [a] left, and a character that was
    not there before and is not [b] is not there after. *)
Lemma includes_replaceAll_gone (a b : ascii) (s : string) :
  Ascii.eqb b a = false -> Text.includes a (Text.replaceAll a b s) = false.
Proof.
  intros H. induction s as [|c s IH]; simpl; [reflexivity|].
  rewrite IH, orb_false_r.
  destruct (Ascii.eqb_spec c a) as [->|Hne]; [exact H|].
  now apply Ascii.eqb_neq.
Qed.

Lemma includes_replaceAll_other (a b c : ascii) (s : string) :
  Ascii.eqb b c = false -> Text.includes c s = false ->
  Text.includes c (Text.replaceAll a b s) = false.
Proof.
  intros H. induction s as [|x s IH]; simpl; [reflexivity|].
  intros Hs. apply orb_false_iff in Hs as [Hx Hs].
  rewrite (IH Hs), orb_false_r.
  destruct (Ascii.eqb x a); [exact H|exact Hx].
Qed.

Lemma replaceAll_absent (a b : ascii) (s : string) :
  Text.includes a s = false -> Text.replaceAll a b s = s.
Proof.
  induction s as [|c s IH]; simpl; [reflexivity|].
  intros H. apply orb_false_iff in H as [Hc Hs].
  now rewrite Hc, (IH Hs).
Qed.

(** ** getAppId *)

(** X14: The text [getAppId] hands to the base64 decoder has a length that is a
    multiple of four and has no [-] and no [_] in it; a payload that is
    like this already is handed over as it is. *)
Theorem paddedBase64_shape (payload : string) :
  Nat.modulo (String.length (paddedBase64 payload)) 4 = 0%nat
  /\ Text.includes "-" (paddedBase64 payload) = false
  /\ Text.includes "_" (paddedBase64 payload) = false
  /\ (Nat.modulo (String.length payload) 4 = 0%nat ->
      Text.includes "-" payload = false ->
      Text.includes "_" payload = false ->
      paddedBase64 payload = payload).
Proof.
  unfold paddedBase64.
  set (base64 := Text.replaceAll "_" "/" (Text.replaceAll "-" "+" payload)).
  assert (Hlen : String.length base64 = String.length payload).
  { unfold base64. now rewrite !length_replaceAll. }
  assert (Hdash : Text.includes "-" base64 = false).
  { unfold base64. apply includes_replaceAll_other; [reflexivity|].
    now apply includes_replaceAll_gone. }
  assert (Hunder : Text.includes "_" base64 = false).
  { unfold base64. now apply includes_replaceAll_gone. }
  destruct (Nat.modulo (String.length base64) 4) as [|k] eqn:Hmod.
  - split; [exact Hmod|]. split; [exact Hdash|]. split; [exact Hunder|].
    intros _ Hd Hu. unfold base64.
    rewrite (replaceAll_absent "-" "+" payload Hd).
    now apply replaceAll_absent.
  - pose proof (Nat.mod_upper_bound (String.length base64) 4) as Hlt.
    pose proof (Nat.div_mod_eq (String.length base64) 4) as Hdiv.
    rewrite Hmod in Hlt, Hdiv.
    split; [|split; [|split]].
    + rewrite length_append, length_repeat.
      replace (String.length base64 + (4 - S k))%nat
        with ((String.length base64 / 4 + 1) * 4)%nat by lia.
      apply Nat.Div0.mod_mul.
    + rewrite includes_append, Hdash. now apply includes_repeat.
    + rewrite includes_append, Hunder. now apply includes_repeat.
    + intros H0. rewrite <- Hlen in H0. rewrite H0 in Hmod. discriminate.
Qed.

Section AppId.

Variable cfg : OAuthConfig.
Variable authServer : list Effect -> Request -> HttpResult.
Variable appUuid : string -> option string.

Let guard := ensureValidToken cfg authServer.
Let appId := getAppId cfg authServer appUuid.

(** X15: [getAppId] never throws and sends nothing to the merchant API.  It
    answers [null] exactly when the guard gives no token; with a token
    without a dot it answers the client id; any other answer is the client
    id or the [app_uuid] decoded from the padded payload of the token. *)
Theorem getAppId_answers (w : World) :
  (exists r, fst (appId w) = Ret r)
  /\ dispatches (trace (snd (appId w))) = dispatches (trace w)
  /\ snd (appId w) = snd (guard w)
  /\ (fst (appId w) = Ret None <-> forall t, fst (guard w) <> Ret (Some t))
  /\ (forall t, fst (guard w) = Ret (Some t) ->
                Text.includes "." t = false ->
                fst (appId w) = Ret (Some (clientId cfg)))
  /\ (forall x, fst (appId w) = Ret (Some x) ->
                x = clientId cfg
                \/ exists t, fst (guard w) = Ret (Some t)
                             /\ appUuid (paddedBase64 (payloadOf t)) = Some x).
Proof.
  pose proof (guard_spends cfg authServer (fun _ => True) w)
    as (tr & Etr & Hd & _).
  assert (Hdis : dispatches (trace (snd (guard w))) = dispatches (trace w)).
  { unfold guard. rewrite Etr, dispatches_app.
    destruct (dispatches tr); [apply app_nil_r|simpl in Hd; lia]. }
  pose proof (total_ensureValidToken cfg authServer w) as Ht.
  fold guard in Ht. clear Etr Hd.
  unfold appId, getAppId, try_catch, bind. fold guard.
  destruct (guard w) as [[[t|]|e|] w1]; cbn [fst snd] in *.
  - destruct (Text.includes "." t) eqn:Hdot.
    + destruct (appUuid (paddedBase64 (payloadOf t))) as [u|] eqn:Hu;
        cbn [fst snd ret].
      * split; [eauto|]. split; [exact Hdis|]. split; [reflexivity|].
        split; [split; [discriminate|intros H; now elim (H t)]|].
        split; [intros t' [= <-] Hf; rewrite Hdot in Hf; discriminate|].
        intros x [= <-]. right. exists t. split; [reflexivity|exact Hu].
      * split; [eauto|]. split; [exact Hdis|]. split; [reflexivity|].
        split; [split; [discriminate|intros H; now elim (H t)]|].
        split; [intros t' [= <-] Hf; rewrite Hdot in Hf; discriminate|]. intros x [= <-]. now left.
    + cbn [fst snd ret].
      split; [eauto|]. split; [exact Hdis|]. split; [reflexivity|].
      split; [split; [discriminate|intros H; now elim (H t)]|].
      split; [intros t' _ _; reflexivity|]. intros x [= <-]. now left.
  - cbn [fst snd ret throw].
    split; [eauto|]. split; [exact Hdis|]. split; [reflexivity|].
    split; [split; [discriminate|reflexivity]|].
    split; [intros t [=]|intros x [=]].
  - cbn [fst snd ret].
    split; [eauto|]. split; [exact Hdis|]. split; [reflexivity|].
    split; [split; [discriminate|reflexivity]|].
    split; [intros t [=]|intros x [=]].
  - now elim Ht.
Qed.

End AppId.

(** ** The server: resource URIs and the status text *)

Lemma idAfter_sound (prefix uri id : string) :
  Server.idAfter prefix uri = Some id ->
  uri = (prefix ++ id)%string /\ id <> "" /\ Text.includes "/" id = false.
Proof.
  unfold Server.idAfter.
  destruct (Text.dropPrefix prefix uri) as [rest|] eqn:E; [|discriminate].
  destruct (String.eqb_spec rest "") as [->|Hne]; simpl; [discriminate|].
  destruct (Text.includes "/" rest) eqn:Hs; simpl; [discriminate|].
  intros [= <-]. split; [now apply dropPrefix_sound|]. auto.
Qed.

Lemma idAfter_complete (prefix id : string) :
  id <> "" -> Text.includes "/" id = false ->
  Server.idAfter prefix (prefix ++ id) = Some id.
Proof.
  intros Hne Hs. unfold Server.idAfter. rewrite dropPrefix_append, Hs.
  apply String.eqb_neq in Hne. now rewrite Hne.
Qed.

(** X16: A resource URI is read back as it is written: [clover://items/<id>] is
    an item with that id and [clover://orders/<id>] an order, for every id
    that is not empty and has no slash, and nothing else is an item or an
    order. *)
Theorem resource_uri_roundtrip (uri id : string) :
  (id <> "" -> Text.includes "/" id = false ->
   Server.resourceOf ("clover://items/" ++ id) = Server.ItemResource id
   /\ Server.resourceOf ("clover://orders/" ++ id) = Server.OrderResource id)
  /\ (Server.resourceOf uri = Server.ItemResource id ->
      uri = ("clover://items/" ++ id)%string
      /\ id <> "" /\ Text.includes "/" id = false)
  /\ (Server.resourceOf uri = Server.OrderResource id ->
      uri = ("clover://orders/" ++ id)%string
      /\ id <> "" /\ Text.includes "/" id = false).
Proof.
  split; [|split].
  - intros Hne Hs. split.
    + unfold Server.resourceOf. now rewrite idAfter_complete.
    + unfold Server.resourceOf.
      replace (Server.idAfter "clover://items/" ("clover://orders/" ++ id))
        with (@None string) by reflexivity.
      now rewrite idAfter_complete.
  - unfold Server.resourceOf.
    destruct (Server.idAfter "clover://items/" uri) as [i|] eqn:Ei.
    + intros [= <-]. now apply idAfter_sound.
    + destruct (Server.idAfter "clover://orders/" uri); discriminate.
  - unfold Server.resourceOf.
    destruct (Server.idAfter "clover://items/" uri) as [i|] eqn:Ei;
      [discriminate|].
    destruct (Server.idAfter "clover://orders/" uri) as [o|] eqn:Eo;
      [|discriminate].
    intros [= <-]. now apply idAfter_sound.
Qed.





(** An expiry in range has its line. *)
Lemma expiryLine_exact (label unit : string) (per : Z) (expiry : option Z)
    (t : Z) :
  (forall e, expiry = Some e -> Server.inRange e t = true) ->
  Server.expiryLine label unit per expiry t
  = Some (match expiry with
          | Some e =>
              if Z.eqb e 0 then ""
              else Text.nl ++ label ++ " expires in: "
                     ++ Text.showZ ((e - t) / per) ++ " " ++ unit
          | None => ""
          end)%string.
Proof.
  intros H. unfold Server.expiryLine. destruct expiry as [e|]; [|reflexivity].
  simpl. destruct (Z.eqb e 0); [reflexivity|]. simpl.
  now rewrite (H e eq_refl).
Qed.

(** X18: When the credentials are valid and the expiries, the time and their
    differences are safe integers, the status text says that the credentials
    are valid, shows the masked token and the merchant id and then the two
    lines on the expiries, and the minutes it gives for the access token are
    not negative. *)
Theorem valid_status (w : World) :
  hasValidTokens w = true ->
  (forall e, accessTokenExpiry (currentTokens w) = Some e ->
             Server.inRange e (now w) = true) ->
  (forall e, refreshTokenExpiry (currentTokens w) = Some e ->
             Server.inRange e (now w) = true) ->
  exists t m access refresh,
    accessToken (currentTokens w) = Some t
    /\ merchantId (currentTokens w) = Some m /\ m <> ""
    /\ Server.expiryLine "Access Token" "minutes" 60
         (accessTokenExpiry (currentTokens w)) (now w) = Some access
    /\ Server.expiryLine "Refresh Token" "days" 86400
         (refreshTokenExpiry (currentTokens w)) (now w) = Some refresh
    /\ Server.oauthStatus w
       = Some ("OAuth credentials are available and valid."
                 ++ Text.nl ++ Text.nl ++ "Access Token: " ++ Server.maskToken t
                 ++ Text.nl ++ "Merchant ID: " ++ m
                 ++ access ++ refresh)%string
    /\ forall e, accessTokenExpiry (currentTokens w) = Some e -> e <> 0 ->
                 0 <= (e - now w) / 60
                 /\ access
                    = (Text.nl ++ "Access Token expires in: "
                         ++ Text.showZ ((e - now w) / 60) ++ " minutes")%string.
Proof.
  intros Hv Hxa Hxr.
  destruct (hasValidTokens_complete w Hv) as [Ha Hm].
  apply truthyS_spec in Ha as (t & Et & Hnt).
  apply truthyS_spec in Hm as (m & Em & Hnm).
  pose proof (expiryLine_exact "Access Token" "minutes" 60 _ _ Hxa) as Ea.
  pose proof (expiryLine_exact "Refresh Token" "days" 86400 _ _ Hxr) as Er.
  exists t, m. eexists. eexists.
  split; [exact Et|]. split; [exact Em|]. split; [exact Hnm|].
  split; [exact Ea|]. split; [exact Er|]. split.
  - unfold Server.oauthStatus. rewrite Hv. cbn [getTokens accessToken merchantId
      accessTokenExpiry refreshTokenExpiry].
    rewrite Et, Em. cbn [Js.show].
    assert (Ht : Js.truthyS (Some t) = true).
    { simpl. now apply negb_true_iff, String.eqb_neq. }
    rewrite Ht, Ea, Er. rewrite ?append_assoc. reflexivity.
  - intros e Ee Hne.
    assert (Hlt : now w < e).
    { unfold hasValidTokens in Hv. rewrite Et, Em, Ee in Hv.
      assert (Ht : Js.truthyS (Some t) = true)
        by (simpl; now apply negb_true_iff, String.eqb_neq).
      assert (Hm : Js.truthyS (Some m) = true)
        by (simpl; now apply negb_true_iff, String.eqb_neq).
      rewrite Ht, Hm in Hv. cbn [negb orb] in Hv.
      assert (He : Js.truthyN (Some e) = true)
        by (simpl; now apply negb_true_iff, Z.eqb_neq).
      rewrite He in Hv. simpl in Hv.
      destruct (Z.geb_spec (now w) e); [discriminate|lia]. }
    split.
    + apply Z.div_pos; lia.
    + rewrite Ee. apply Z.eqb_neq in Hne. now rewrite Hne.
Qed.

(** ** The [.env] mirror *)

Lemma search_sound (key s before rest : string) :
  EnvFile.search key s = Some (before, rest) ->
  s = (before ++ key ++ rest)%string.
Proof.
  revert before rest. induction s as [|c s IH]; intros before rest; simpl.
  - destruct (Text.dropPrefix key "") as [r|] eqn:E; [|discriminate].
    intros [= <- <-]. exact (dropPrefix_sound key "" r E).
  - destruct (Text.dropPrefix key (String c s)) as [r|] eqn:E.
    + intros [= <- <-]. exact (dropPrefix_sound key (String c s) r E).
    + destruct (EnvFile.search key s) as [[b r]|] eqn:Es; [|discriminate].
      intros [= <- <-]. simpl. now rewrite (IH b r eq_refl).
Qed.

Lemma search_absent (key s : string) :
  (forall before rest, s <> (before ++ key ++ rest)%string) ->
  EnvFile.search key s = None.
Proof.
  intros H. destruct (EnvFile.search key s) as [[b r]|] eqn:E; [|reflexivity].
  elim (H b r). now apply search_sound.
Qed.

Lemma replaceLine_absent (key replacement s : string) :
  (forall before rest, s <> (before ++ key ++ rest)%string) ->
  EnvFile.replaceLine key replacement s = s.
Proof.
  intros H. unfold EnvFile.replaceLine. now rewrite (search_absent key s H).
Qed.

(** The search finds a key that is there. *)
Lemma search_finds (key before rest : string) :
  EnvFile.search key (before ++ key ++ rest) <> None.
Proof.
  induction before as [|c before IH].
  - change ("" ++ key ++ rest)%string with (key ++ rest)%string.
    destruct (key ++ rest)%string as [|x s] eqn:E; simpl.
    + rewrite <- E, dropPrefix_append. discriminate.
    + rewrite <- E, dropPrefix_append. discriminate.
  - change (String c before ++ key ++ rest)%string
      with (String c (before ++ key ++ rest)).
    simpl.
    destruct (Text.dropPrefix key (String c (before ++ key ++ rest)));
      [discriminate|].
    destruct (EnvFile.search key (before ++ key ++ rest)) as [[b r]|];
      [discriminate|now elim IH].
Qed.

Lemma search_none (key s : string) :
  EnvFile.search key s = None ->
  forall before rest, s <> (before ++ key ++ rest)%string.
Proof. intros H before rest ->. now apply (search_finds key before rest). Qed.

(** X19: A key that is not in the file is not put there: when neither
    [CLOVER_API_KEY=] nor [CLOVER_MERCHANT_ID=] occurs in the content, the
    update leaves the content as it is, whatever the tokens; and without a
    file there is none afterwards. *)
Theorem env_without_keys (tokens : Tokens) (content : string) :
  (forall before rest,
      content <> (before ++ "CLOVER_API_KEY=" ++ rest)%string) ->
  (forall before rest,
      content <> (before ++ "CLOVER_MERCHANT_ID=" ++ rest)%string) ->
  EnvFile.updateEnvFile tokens (Some content) = Some content
  /\ EnvFile.updateEnvFile tokens None = None.
Proof.
  intros Hk Hm. split; [|reflexivity]. unfold EnvFile.updateEnvFile.
  assert (E1 : match accessToken tokens with
               | Some token =>
                   if Js.truthyS (Some token)
                   then EnvFile.replaceLine "CLOVER_API_KEY="
                          ("CLOVER_API_KEY=" ++ token) content
                   else content
               | None => content
               end = content).
  { destruct (accessToken tokens) as [a|]; [|reflexivity].
    destruct (Js.truthyS (Some a)); [|reflexivity].
    now apply replaceLine_absent. }
  rewrite E1.
  destruct (merchantId tokens) as [m|]; [|reflexivity].
  destruct (Js.truthyS (Some m)); [|reflexivity].
  now rewrite replaceLine_absent.
Qed.

(** *** Lines *)

Lemma noEol_append (a b : string) :
  noEol (a ++ b) = noEol a && noEol b.
Proof.
  unfold noEol. rewrite !includes_append.
  destruct (Text.includes "010" a), (Text.includes "013" a),
    (Text.includes "010" b), (Text.includes "013" b); reflexivity.
Qed.

Lemma restOfLine_end (l : string) :
  noEol l = true -> EnvFile.restOfLine l = (l, ""%string).
Proof.
  induction l as [|c l IH]; simpl; [reflexivity|].
  unfold noEol. simpl. intros H.
  apply andb_true_iff in H as [H1 H2].
  apply negb_true_iff, orb_false_iff in H1 as [Hc1 Hl1].
  apply negb_true_iff, orb_false_iff in H2 as [Hc2 Hl2].
  unfold EnvFile.isLineTerminator. rewrite Hc1, Hc2. simpl.
  rewrite IH; [reflexivity|]. unfold noEol. now rewrite Hl1, Hl2.
Qed.

Lemma restOfLine_nl (l rest : string) :
  noEol l = true ->
  EnvFile.restOfLine (l ++ String "010" rest) = (l, String "010" rest).
Proof.
  induction l as [|c l IH]; simpl; [reflexivity|].
  unfold noEol. simpl. intros H.
  apply andb_true_iff in H as [H1 H2].
  apply negb_true_iff, orb_false_iff in H1 as [Hc1 Hl1].
  apply negb_true_iff, orb_false_iff in H2 as [Hc2 Hl2].
  unfold EnvFile.isLineTerminator. rewrite Hc1, Hc2. simpl.
  simpl in IH. rewrite IH; [reflexivity|]. unfold noEol. now rewrite Hl1, Hl2.
Qed.

Lemma substitute_plain (replacement matched before rest : string) :
  noDollar replacement = true ->
  EnvFile.substitute replacement matched before rest = replacement.
Proof.
  induction replacement as [|c r IH]; simpl; [reflexivity|].
  unfold noDollar. simpl. intros H.
  apply negb_true_iff, orb_false_iff in H as [Hc Hr].
  rewrite Hc. rewrite IH; [reflexivity|]. unfold noDollar. now rewrite Hr.
Qed.

Lemma dropPrefix_grows (key l x r : string) :
  Text.dropPrefix key l = Some r ->
  Text.dropPrefix key (l ++ x) = Some (r ++ x)%string.
Proof.
  revert l. induction key as [|k key IH]; intros l; simpl.
  - now intros [= ->].
  - destruct l as [|c l]; [discriminate|]. simpl.
    destruct (Ascii.eqb k c); [apply IH|discriminate].
Qed.

(** A key that starts in [l] and is not all in [l] is longer than [l]. *)
Lemma dropPrefix_late (key l x y : string) :
  Text.dropPrefix key l = None ->
  Text.dropPrefix key (l ++ x) = Some y ->
  (String.length l < String.length key)%nat.
Proof.
  revert l. induction key as [|k key IH]; intros l; simpl.
  - discriminate.
  - destruct l as [|c l]; simpl; [lia|].
    destruct (Ascii.eqb k c); [|discriminate].
    intros H1 H2. specialize (IH l H1 H2). lia.
Qed.

Lemma search_length (key s before rest : string) :
  EnvFile.search key s = Some (before, rest) ->
  (String.length key <= String.length s)%nat.
Proof.
  intros H. rewrite (search_sound key s before rest H), !length_append. lia.
Qed.

Lemma search_grows (key l x before rest : string) :
  EnvFile.search key l = Some (before, rest) ->
  EnvFile.search key (l ++ x) = Some (before, (rest ++ x)%string).
Proof.
  revert before rest. induction l as [|c l IH]; intros before rest.
  - simpl. destruct (Text.dropPrefix key "") as [r|] eqn:E; [|discriminate].
    intros [= <- <-].
    pose proof (dropPrefix_grows key "" x r E) as E'. simpl in E'.
    destruct x as [|c x]; simpl; simpl in E'; now rewrite E'.
  - simpl. destruct (Text.dropPrefix key (String c l)) as [r|] eqn:E.
    + intros [= <- <-].
      pose proof (dropPrefix_grows key (String c l) x r E) as E'.
      simpl in E'. now rewrite E'.
    + destruct (EnvFile.search key l) as [[b r]|] eqn:Es; [|discriminate].
      intros [= <- <-].
      destruct (Text.dropPrefix key (String c (l ++ x))) as [y|] eqn:E'.
      * pose proof (dropPrefix_late key (String c l) x y E E') as Hlt.
        pose proof (search_length key l b r Es) as Hle.
        simpl in Hlt. lia.
      * now rewrite (IH b r eq_refl).
Qed.

(** A key without line feed does not start in a line and end behind it. *)
Lemma dropPrefix_line (key l rest : string) :
  Text.includes "010" key = false ->
  Text.dropPrefix key l = None ->
  Text.dropPrefix key (l ++ String "010" rest) = None.
Proof.
  revert l. induction key as [|k key IH]; intros l; simpl.
  - discriminate.
  - intros Hk. apply orb_false_iff in Hk as [Hk Hkey].
    destruct l as [|c l]; simpl.
    + now rewrite Hk.
    + destruct (Ascii.eqb k c); [now apply IH|reflexivity].
Qed.

Lemma search_next_line (key l rest : string) :
  Text.includes "010" key = false ->
  EnvFile.search key l = None ->
  EnvFile.search key (l ++ String "010" rest)
  = match EnvFile.search key rest with
    | Some (before, after) => Some ((l ++ String "010" before)%string, after)
    | None => None
    end.
Proof.
  intros Hk. induction l as [|c l IH]; intros Hs.
  - simpl in Hs.
    destruct (Text.dropPrefix key "") as [r|] eqn:E; [discriminate|].
    pose proof (dropPrefix_line key "" rest Hk E) as E'. simpl in E'.
    simpl. rewrite E'.
    destruct (EnvFile.search key rest) as [[b a]|]; reflexivity.
  - simpl in Hs.
    destruct (Text.dropPrefix key (String c l)) as [r|] eqn:E;
      [discriminate|].
    destruct (EnvFile.search key l) as [[b a]|] eqn:Es; [discriminate|].
    pose proof (dropPrefix_line key (String c l) rest Hk E) as E'.
    simpl in E'. simpl. rewrite E'. rewrite (IH eq_refl).
    destruct (EnvFile.search key rest) as [[b a]|]; reflexivity.
Qed.

(** A replacement text that expands to [out'] whatever was matched, on a
    text that goes on in the next line: the line is searched, and after it
    the rest. *)
Lemma replaceLine_line (key out out' l rest : string) :
  Text.includes "010" key = false ->
  (forall m b r, EnvFile.substitute out m b r = out') -> noEol l = true ->
  EnvFile.replaceLine key out (l ++ String "010" rest)
  = match EnvFile.search key l with
    | Some (before, _) => (before ++ out' ++ String "010" rest)%string
    | None => (l ++ String "010" (EnvFile.replaceLine key out rest))%string
    end.
Proof.
  intros Hk Hout Hl. unfold EnvFile.replaceLine.
  destruct (EnvFile.search key l) as [[b a]|] eqn:Es.
  - rewrite (search_grows key l (String "010" rest) b a Es).
    assert (Ha : noEol a = true).
    { rewrite (search_sound key l b a Es), !noEol_append in Hl.
      apply andb_true_iff in Hl as [_ Hl].
      now apply andb_true_iff in Hl as [_ Hl]. }
    rewrite (restOfLine_nl a rest Ha).
    now rewrite Hout.
  - rewrite (search_next_line key l rest Hk Es).
    destruct (EnvFile.search key rest) as [[b a]|].
    + destruct (EnvFile.restOfLine a) as [line after].
      rewrite !Hout.
      now rewrite !append_assoc.
    + reflexivity.
Qed.

Lemma replaceLine_last (key out out' l : string) :
  (forall m b r, EnvFile.substitute out m b r = out') -> noEol l = true ->
  EnvFile.replaceLine key out l
  = match EnvFile.search key l with
    | Some (before, _) => (before ++ out')%string
    | None => l
    end.
Proof.
  intros Hout Hl. unfold EnvFile.replaceLine.
  destruct (EnvFile.search key l) as [[b a]|] eqn:Es; [|reflexivity].
  assert (Ha : noEol a = true).
  { rewrite (search_sound key l b a Es), !noEol_append in Hl.
    apply andb_true_iff in Hl as [_ Hl].
    now apply andb_true_iff in Hl as [_ Hl]. }
  rewrite (restOfLine_end a Ha), Hout.
  now rewrite append_nil_r.
Qed.

(** On a file of lines the replacement is an edit of one line. *)
Lemma replaceLine_lines (key out out' : string) (ls : list string) :
  key <> "" -> Text.includes "010" key = false ->
  (forall m b r, EnvFile.substitute out m b r = out') ->
  Forall (fun l => noEol l = true) ls ->
  EnvFile.replaceLine key out (joinLines ls)
  = joinLines (editFirst key out' ls).
Proof.
  intros Hne Hk Hout. induction ls as [|l ls IH]; intros Hls.
  - simpl. unfold EnvFile.replaceLine. simpl.
    destruct key as [|k key]; [now elim Hne|reflexivity].
  - inversion Hls as [|l' ls' Hl Hrest]; subst.
    destruct ls as [|l2 ls].
    + simpl joinLines at 1. rewrite (replaceLine_last key out out' l Hout Hl).
      simpl. destruct (EnvFile.search key l) as [[b a]|]; reflexivity.
    + change (joinLines (l :: l2 :: ls))
        with (l ++ String "010" (joinLines (l2 :: ls)))%string.
      rewrite (replaceLine_line key out out' l _ Hk Hout Hl).
      cbn [editFirst].
      destruct (EnvFile.search key l) as [[b a]|].
      * change (joinLines ((b ++ out')%string :: l2 :: ls))
          with ((b ++ out') ++ String "010" (joinLines (l2 :: ls)))%string.
        now rewrite append_assoc.
      * rewrite (IH Hrest). cbn [editFirst].
        destruct (EnvFile.search key l2) as [[b2 a2]|]; reflexivity.
Qed.


Lemma editFirst_lines (key out : string) (ls : list string) :
  noEol key = true -> noEol out = true ->
  Forall (fun l => noEol l = true) ls ->
  Forall (fun l => noEol l = true) (editFirst key out ls)
  /\ List.length (editFirst key out ls) = List.length ls.
Proof.
  intros Hk Hout. induction ls as [|l ls IH]; intros Hls; simpl; [auto|].
  inversion Hls as [|l' ls' Hl Hrest]; subst.
  destruct (EnvFile.search key l) as [[b a]|] eqn:Es.
  - split; [|reflexivity]. constructor; [|exact Hrest].
    rewrite (search_sound key l b a Es), noEol_append in Hl.
    apply andb_true_iff in Hl as [Hb _]. now rewrite noEol_append, Hb, Hout.
  - destruct (IH Hrest) as [H1 H2]. split; [now constructor|].
    simpl. now rewrite H2.
Qed.

(** X20: On a file of lines joined by line feeds, with tokens that have no line
    terminator and no dollar sign, the update is an edit of lines: the first
    line that contains [CLOVER_API_KEY=] is rewritten from there on to the
    key and the access token, then the first line that contains
    [CLOVER_MERCHANT_ID=] to that key and the merchant id; every other line,
    what is before the key on its line, and the number of lines stay. *)
Theorem env_update_lines (tokens : Tokens) (token merchant : string)
    (ls : list string) :
  accessToken tokens = Some token -> token <> "" ->
  merchantId tokens = Some merchant -> merchant <> "" ->
  noEol token = true -> noDollar token = true ->
  noEol merchant = true -> noDollar merchant = true ->
  Forall (fun l => noEol l = true) ls ->
  let edited :=
    editFirst "CLOVER_MERCHANT_ID=" ("CLOVER_MERCHANT_ID=" ++ merchant)
      (editFirst "CLOVER_API_KEY=" ("CLOVER_API_KEY=" ++ token) ls) in
  EnvFile.updateEnvFile tokens (Some (joinLines ls)) = Some (joinLines edited)
  /\ List.length edited = List.length ls.
Proof.
  intros Ea Hna Em Hnm Het Hdt Hem Hdm Hls edited.
  assert (Hta : Js.truthyS (Some token) = true)
    by (simpl; now apply negb_true_iff, String.eqb_neq).
  assert (Htm : Js.truthyS (Some merchant) = true)
    by (simpl; now apply negb_true_iff, String.eqb_neq).
  assert (Hout1 : noDollar ("CLOVER_API_KEY=" ++ token) = true).
  { unfold noDollar in *. rewrite includes_append.
    apply negb_true_iff in Hdt. now rewrite Hdt. }
  assert (Hout2 : noDollar ("CLOVER_MERCHANT_ID=" ++ merchant) = true).
  { unfold noDollar in *. rewrite includes_append.
    apply negb_true_iff in Hdm. now rewrite Hdm. }
  assert (Heol1 : noEol ("CLOVER_API_KEY=" ++ token) = true)
    by (rewrite noEol_append, Het; reflexivity).
  assert (Heol2 : noEol ("CLOVER_MERCHANT_ID=" ++ merchant) = true)
    by (rewrite noEol_append, Hem; reflexivity).
  destruct (editFirst_lines "CLOVER_API_KEY=" ("CLOVER_API_KEY=" ++ token) ls
              eq_refl Heol1 Hls) as [Hls1 Hlen1].
  destruct (editFirst_lines "CLOVER_MERCHANT_ID="
              ("CLOVER_MERCHANT_ID=" ++ merchant) _ eq_refl Heol2 Hls1)
    as [_ Hlen2].
  split; [|unfold edited; congruence].
  unfold EnvFile.updateEnvFile. rewrite Ea, Em, Hta, Htm.
  rewrite (replaceLine_lines "CLOVER_API_KEY=" _ ("CLOVER_API_KEY=" ++ token)
             ls); auto; try discriminate;
    [|intros; now apply substitute_plain].
  rewrite (replaceLine_lines "CLOVER_MERCHANT_ID=" _
             ("CLOVER_MERCHANT_ID=" ++ merchant) _); auto; try discriminate.
  intros; now apply substitute_plain.
Qed.


(** ** Await points: what holds under every schedule *)

Section AwaitPoints.

Variable cfg : OAuthConfig.
Variable authServer : list Effect -> Request -> HttpResult.

Let v2 (held : string) : Request :=
  v2Request cfg "/oauth/v2/refresh" "refresh_token" held.
Let v1 (held : string) : Request := v1Request cfg "refresh_token" held.

(** Run in one piece, the refresh with its await points is the refresh of
    the handlers. *)
Lemma refresh_atomic (w : World) :
  atOnce authServer (refreshAsync cfg) w = refreshAccessToken cfg authServer w.
Proof.
  unfold atOnce, refreshAsync, refreshAccessToken, bind at 1, modify.
  unfold bind at 1, get. cbn [fst snd].
  destruct (refreshToken (currentTokens (emit RefreshCall w))) as [held|];
    [|reflexivity].
  destruct (negb (Js.truthyS (Some held))); [reflexivity|].
  unfold await. cbn [complete].
  unfold try_catch, bind at 1, post.
  destruct (authServer (trace (emit RefreshCall w))
              (v2Request cfg "/oauth/v2/refresh" "refresh_token" held))
    as [b|e]; cbn [refreshVersionedDone].
  - unfold bind at 1.
    destruct (setTokens (asData b) (emit (Post _) (emit RefreshCall w)))
      as [[u|e|] w1] eqn:Es; cbn [complete].
    + reflexivity.
    + unfold refreshLegacy, await. cbn [complete].
      unfold bind at 1, get, bind at 1, post.
      destruct (authServer (trace w1) _) as [b1|e1];
        unfold settle, refreshLegacyDone, try_catch, throw; cbn [complete].
      * destruct ((v1Data <- v1Fields b1 ;; _) (emit (Post _) w1))
          as [[d|e2|] w2]; reflexivity.
      * reflexivity.
    + reflexivity.
  - unfold refreshLegacy, await. cbn [complete].
    unfold bind at 1, get, bind at 1, post.
    destruct (authServer (trace (emit (Post _) (emit RefreshCall w))) _)
      as [b1|e1];
      unfold settle, refreshLegacyDone, try_catch, throw; cbn [complete].
    + destruct ((v1Data <- v1Fields b1 ;; _) (emit (Post _) _))
        as [[d|e2|] w2]; reflexivity.
    + reflexivity.
Qed.


(** The last piece of a refresh settles and adds nothing to the trace. *)
Lemma refreshLegacyDone_settles (answer : HttpResult) (w : World) :
  exists r w', settle (refreshLegacyDone answer) w = (Settled r, w')
               /\ trace w' = trace w.
Proof.
  unfold settle, refreshLegacyDone.
  destruct answer as [b|e]; [|do 2 eexists; split; reflexivity].
  destruct b as [d|t|]; do 2 eexists; split; reflexivity.
Qed.

(** X1: Under every schedule a call of [refreshAccessToken] sends at most
    two requests.  Without a stored refresh token it throws at once and
    sends none.  Otherwise it sends the JSON request to [/oauth/v2/refresh]
    with the refresh token stored at the call and waits.  When the answer is
    neither a rejection nor [null] the call settles there with what it has
    stored.  When it is, the call sends the form request to [/oauth/token]
    with the refresh token that is stored by then, read again after the
    wait: the one of the first request, and then the same three fields,
    unless the store has been changed in between.  With the answer to the
    second request the call settles: there is never a third.  Run in one
    piece, this is the refresh of the handlers. *)
Theorem refresh_two_tiers (w : World) :
  (Js.truthyS (refreshToken (currentTokens w)) = false ->
   refreshAsync cfg w
   = (Settled (Throw (Err "No refresh token available")), emit RefreshCall w))
  /\ (forall held,
        refreshToken (currentTokens w) = Some held -> held <> "" ->
        exists k,
          refreshAsync cfg w = (Awaiting (v2 held) k, emit RefreshCall w)
          /\ forall answer w1,
               (~ v2GivesWay answer ->
                exists d w1',
                  k answer w1 = (Settled (Ret d), w1')
                  /\ trace w1' = trace w1
                  /\ recordOf d = Some (currentTokens w1'))
               /\ (v2GivesWay answer ->
                   exists k',
                     k answer w1
                     = (Awaiting
                          (v1Request cfg "refresh_token"
                             (Js.show (refreshToken (currentTokens w1))))
                          k',
                        w1)
                     /\ (refreshToken (currentTokens w1) = Some held ->
                         v1Request cfg "refresh_token"
                           (Js.show (refreshToken (currentTokens w1)))
                         = v1 held
                         /\ fields (v1 held) = fields (v2 held))
                     /\ forall answer' w2,
                          exists r w2',
                            k' answer' w2 = (Settled r, w2')
                            /\ trace w2' = trace w2))
  /\ atOnce authServer (refreshAsync cfg) w
     = refreshAccessToken cfg authServer w.
Proof.
  split; [|split; [|apply refresh_atomic]].
  - intros H. unfold refreshAsync. cbn [emit currentTokens].
    destruct (refreshToken (currentTokens w)) as [held|]; [|reflexivity].
    now rewrite H.
  - intros held Ht Hne. exists (refreshVersionedDone cfg). split.
    + unfold refreshAsync. cbn [emit currentTokens]. rewrite Ht.
      assert (Hh : Js.truthyS (Some held) = true).
      { simpl. now apply negb_true_iff, String.eqb_neq. }
      now rewrite Hh.
    + intros answer w1. split.
      * intros Hno. destruct answer as [b|e].
        2:{ elim Hno. left. now exists e. }
        destruct b as [d|t|].
        -- do 2 eexists. split; [reflexivity|]. split; reflexivity.
        -- do 2 eexists. split; [reflexivity|]. split; reflexivity.
        -- elim Hno. now right.
      * intros Hg.
        exists (fun answer' => settle (refreshLegacyDone answer')).
        split; [|split].
        -- destruct Hg as [(e & ->)| ->]; reflexivity.
        -- intros ->. split; reflexivity.
        -- intros answer' w2. apply refreshLegacyDone_settles.
Qed.


(** *** The callback route *)

(** A failure branch: one reply, the held promise rejected. *)
Lemma reject_answers (code : Z) (pg : Page) (e : Exn) (w : World) :
  promiseReject w = promiseResolve w -> code <> 200 ->
  exists w',
    (respond code pg ;;; rejectPromise e) w = (Ret tt, w')
    /\ answers code w w'.
Proof.
  intros Heq Hc. unfold bind, respond, modify.
  destruct (promiseReject w) as [p|] eqn:Hp.
  - rewrite (rejectPromise_pending e (emit (Respond code pg) w) p Hp).
    eexists. split; [reflexivity|]. unfold answers. simpl.
    split; [|split; [|split]].
    + exists pg. rewrite !replies_app. simpl. now rewrite app_nil_r.
    + intros p' Hp'. rewrite <- Heq in Hp'. injection Hp' as <-.
      exists (Rejected e). rewrite !settlements_app. simpl.
      rewrite Nat.eqb_refl, app_nil_r. split; [reflexivity|].
      split; [intros; contradiction|intros (v & [=])].
    + intros p' Hp'. rewrite <- Heq in Hp'.
      rewrite !settlements_app. simpl.
      destruct (Nat.eqb_spec p' p) as [->|_]; [now elim Hp'|].
      now rewrite !app_nil_r.
    + reflexivity.
  - rewrite (rejectPromise_settled e (emit (Respond code pg) w) Hp).
    eexists. split; [reflexivity|]. unfold answers. simpl.
    split; [|split; [|split]].
    + exists pg. now rewrite replies_app.
    + intros p' Hp'. congruence.
    + intros p' _. rewrite settlements_app. simpl. now rewrite app_nil_r.
    + reflexivity.
Qed.

(** The success branch: one reply, the held promise resolved. *)
Lemma resolve_answers (mid : option string) (r : OAuthV2TokenResponse)
    (w : World) :
  exists w',
    afterExchange mid (DObject r) w = (Ret tt, w') /\ answers 200 w w'.
Proof.
  unfold afterExchange, bind at 1, get, bind at 1, setTokens, modify.
  unfold bind at 1, respond, modify, bind at 1.
  set (filled := fillDefaults mid (now w) r).
  set (w0 := emit (Respond 200 SuccessPage) (setCurrentTokens _ w)).
  assert (Hres : promiseResolve w0 = promiseResolve w) by reflexivity.
  assert (Htr : trace w0 = trace w ++ [Respond 200 SuccessPage])
    by reflexivity.
  destruct (promiseResolve w) as [p|] eqn:Hp.
  - rewrite (resolvePromise_pending filled w0 p Hres).
    unfold bind, get, modify. eexists. split; [reflexivity|].
    unfold answers. simpl. rewrite ?Htr.
    split; [|split; [|split]].
    + exists SuccessPage. rewrite !replies_app. simpl. now rewrite app_nil_r.
    + intros p' Hp'. rewrite Hp in Hp'. injection Hp' as <-.
      exists (Resolved filled).
      rewrite !settlements_app. simpl.
      rewrite Nat.eqb_refl, app_nil_r. split; [reflexivity|].
      split; [intros _; now exists filled|reflexivity].
    + intros p' Hp'. rewrite !settlements_app. simpl.
      destruct (Nat.eqb_spec p' p) as [->|_]; [now elim Hp'|].
      now rewrite !app_nil_r.
    + intros H. now elim H.
  - rewrite (resolvePromise_settled filled w0 Hres).
    unfold bind, get, modify. eexists. split; [reflexivity|].
    unfold answers. simpl. rewrite ?Htr.
    split; [|split; [|split]].
    + exists SuccessPage. now rewrite replies_app.
    + intros p' Hp'. congruence.
    + intros p' _. rewrite settlements_app. simpl. now rewrite app_nil_r.
    + intros H. now elim H.
Qed.

(** The route from the point where the exchange has settled, in whatever
    world that is: it settles in one piece, sends one reply, and the promise
    it settles is the one held by then. *)
Lemma resumed_answers (mid : option string) (r : Res Data) (w : World) :
  promiseReject w = promiseResolve w -> r <> Diverge ->
  exists res w' c,
    callbackResumed mid r w = (Settled res, w')
    /\ (c = 200 \/ c = 500)
    /\ answers c w w'
    /\ (c = 200 <-> exists record, r = Ret (DObject record)).
Proof.
  intros Heq Hr.
  assert (Hno : forall x : Data, (forall record, x <> DObject record) ->
    (500 = 200 <-> exists record, Ret x = Ret (DObject record))).
  { intros x Hx. split; [discriminate|]. intros (record & [= ->]).
    now elim (Hx record). }
  assert (Hfail : forall pg e, exists w',
    (respond 500 pg ;;; rejectPromise e) w = (Ret tt, w')
    /\ answers 500 w w').
  { intros pg e. apply reject_answers; [exact Heq|discriminate]. }
  unfold callbackResumed, settle.
  destruct r as [[record|s|]|e|]; [| | | |now elim Hr].
  - destruct (resolve_answers mid record w) as (w' & E & Ha).
    unfold try_catch. rewrite E. exists (Ret tt), w', 200.
    split; [reflexivity|]. split; [now left|]. split; [exact Ha|].
    split; [intros _; now exists record|reflexivity].
  - unfold try_catch, afterExchange.
    destruct (String.eqb s "").
    + destruct (Hfail (Text "Error: Failed to obtain tokens")
                  (Err "No tokens in response")) as (w' & E & Ha).
      unfold noTokensInResponse. rewrite E. exists (Ret tt), w', 500.
      split; [reflexivity|]. split; [now right|]. split; [exact Ha|].
      apply Hno. discriminate.
    + destruct (Js.truthyS mid); unfold throw, exchangeFailed;
        match goal with
        | |- context [(respond 500 ?pg ;;; rejectPromise ?e) w] =>
            destruct (Hfail pg e) as (w' & E & Ha)
        end; rewrite E; exists (Ret tt), w', 500;
        (split; [reflexivity|]; split; [now right|]; split; [exact Ha|];
         apply Hno; discriminate).
  - unfold try_catch, afterExchange.
    destruct (Hfail (Text "Error: Failed to obtain tokens")
                (Err "No tokens in response")) as (w' & E & Ha).
    unfold noTokensInResponse. rewrite E. exists (Ret tt), w', 500.
    split; [reflexivity|]. split; [now right|]. split; [exact Ha|].
    apply Hno. discriminate.
  - unfold exchangeFailed.
    destruct (Hfail (Text ("Error: " ++ messageOf e)) e) as (w' & E & Ha).
    rewrite E. exists (Ret tt), w', 500.
    split; [reflexivity|]. split; [now right|]. split; [exact Ha|].
    split; [discriminate|intros (record & [=])].
Qed.

(** The exchange after the answer of the legacy endpoint: it settles where
    it is, with a record exactly when the answer is not a rejection and not
    [null]. *)
Lemma exchangeLegacyDone_settles (answer : HttpResult) (w : World) :
  exists r,
    exchangeLegacyDone answer w = (r, w) /\ r <> Diverge
    /\ ((exists record, r = Ret (DObject record))
        <-> exists b, answer = HttpOk b /\ b <> BNull).
Proof.
  unfold exchangeLegacyDone.
  destruct answer as [[d|t|]|e]; eexists;
    (split; [reflexivity|]; split; [discriminate|]); split.
  - intros _. eexists. split; [reflexivity|discriminate].
  - intros _. eexists. reflexivity.
  - intros _. eexists. split; [reflexivity|discriminate].
  - intros _. eexists. reflexivity.
  - intros (record & [=]).
  - intros (b & [= <-] & Hb). now elim Hb.
  - intros (record & H). destruct e; discriminate.
  - intros (b & [=] & _).
Qed.

(** Run in one piece, a piece without [await] is itself, and an [await] of
    an async function runs that function and then what comes after it. *)
Lemma complete_settle {A} (m : M A) (w : World) :
  atOnce authServer (settle m) w = m w.
Proof. unfold atOnce, settle. now destruct (m w). Qed.

Fixpoint complete_andThen {A B} (t : Async A) (f : Res A -> Step B)
    (w : World) {struct t} :
  (let (t2, w2) := andThen t f w in complete authServer t2 w2)
  = (let (r, w') := complete authServer t w in atOnce authServer (f r) w').
Proof.
  destruct t as [r|request k].
  - reflexivity.
  - cbn [andThen complete].
    destruct (k (authServer (trace w) request) (emit (Post request) w))
      as [t' w'].
    apply complete_andThen.
Qed.

Lemma exchange_atomic (code : string) (w : World) :
  atOnce authServer (exchangeAsync cfg code) w
  = exchangeCodeForTokens cfg authServer code w.
Proof.
  unfold atOnce, exchangeAsync, await. cbn [complete].
  unfold exchangeCodeForTokens, try_catch at 1 2, bind at 1, post.
  destruct (authServer (trace w) (v2Request cfg "/oauth/v2/token" "code" code))
    as [b|e]; cbn [exchangeVersionedDone].
  - reflexivity.
  - unfold await. cbn [complete]. unfold bind at 1, post.
    destruct (authServer (trace (emit (Post _) w)) (v1Request cfg "code" code))
      as [b1|e1]; unfold settle, exchangeLegacyDone.
    + unfold try_catch.
      destruct ((v1Data <- v1Fields b1 ;; _) (emit (Post _) (emit (Post _) w)))
        as [[d|e2|] w2]; reflexivity.
    + reflexivity.
Qed.

(** Run in one piece, the route with its await points is the route of the
    handlers. *)
Lemma callback_atomic (q : Query) (w : World) :
  atOnce authServer (callbackAsync cfg q) w = oauthCallback cfg authServer q w.
Proof.
  unfold callbackAsync, oauthCallback.
  destruct (q_code q) as [code|]; [|apply complete_settle].
  destruct (negb (Js.truthyS (Some code))); [apply complete_settle|].
  unfold atOnce at 1.
  pose proof (exchange_atomic code w) as Ex. unfold atOnce in Ex.
  destruct (exchangeAsync cfg code w) as [t w0].
  rewrite complete_andThen, Ex.
  unfold try_catch at 1, bind at 1.
  destruct (exchangeCodeForTokens cfg authServer code w) as [[d|e|] w1];
    unfold callbackResumed; rewrite complete_settle.
  - unfold try_catch.
    destruct (afterExchange (q_merchant_id q) d w1) as [[u|e|] w2];
      reflexivity.
  - reflexivity.
  - reflexivity.
Qed.

(** X5: Under every schedule a request to the callback route gets exactly
    one reply, with status 200, 400 or 500, and the reply and the settlement
    of the promise come in the same piece of the handler.  Without a code
    the handler replies 400 and rejects the held promise at once.  With a
    code it sends the versioned request and waits; when that request is
    rejected it sends the legacy one and waits again.  From the answer on it
    runs in one piece, in whatever world there is by then: it replies 200
    when the answer gives a record and 500 otherwise, and it settles the
    promise that is held by then, resolving it exactly with 200; when none
    is held by then, because another callback has settled it in between, it
    replies all the same and settles nothing.  With a status other than 200
    it leaves the stored record as it is.  Run in one piece, this is the
    route of the handlers. *)
Theorem callback_replies_once (q : Query) (w : World) :
  (Js.truthyS (q_code q) = false ->
   exists w',
     callbackAsync cfg q w = (Settled (Ret tt), w')
     /\ (promiseReject w = promiseResolve w -> answers 400 w w'))
  /\ (forall code,
        q_code q = Some code -> code <> "" ->
        exists k,
          callbackAsync cfg q w
          = (Awaiting (v2Request cfg "/oauth/v2/token" "code" code) k, w)
          /\ forall answer w1,
               promiseReject w1 = promiseResolve w1 ->
               (forall b,
                   answer = HttpOk b ->
                   exists res w1' c,
                     k answer w1 = (Settled res, w1')
                     /\ (c = 200 \/ c = 500)
                     /\ answers c w1 w1'
                     /\ (c = 200 <-> exists record, b = BObject record))
               /\ (forall e,
                     answer = HttpFail e ->
                     exists k',
                       k answer w1
                       = (Awaiting (v1Request cfg "code" code) k', w1)
                       /\ forall answer' w2,
                            promiseReject w2 = promiseResolve w2 ->
                            exists res w2' c,
                              k' answer' w2 = (Settled res, w2')
                              /\ (c = 200 \/ c = 500)
                              /\ answers c w2 w2'
                              /\ (c = 200
                                  <-> exists b, answer' = HttpOk b
                                                /\ b <> BNull)))
  /\ atOnce authServer (callbackAsync cfg q) w
     = oauthCallback cfg authServer q w.
Proof.
  split; [|split; [|apply callback_atomic]].
  - intros Hc.
    assert (E : callbackAsync cfg q w
                = settle (respond 400 (Text "Error: Missing authorization code") ;;;
                          rejectPromise (Err "Missing authorization code")) w).
    { unfold callbackAsync. destruct (q_code q) as [code|]; [|reflexivity].
      now rewrite Hc. }
    rewrite E. unfold settle.
    destruct (promiseReject w) as [p|] eqn:Hp.
    + unfold bind, respond, modify.
      rewrite (rejectPromise_pending _ (emit (Respond 400 _) w) p Hp).
      eexists. split; [reflexivity|]. intros Heq.
      destruct (reject_answers 400 (Text "Error: Missing authorization code")
                  (Err "Missing authorization code") w)
        as (w' & E' & Ha); [congruence|discriminate|].
      unfold bind, respond, modify in E'.
      rewrite (rejectPromise_pending _ (emit (Respond 400 _) w) p Hp) in E'.
      injection E' as <-. exact Ha.
    + unfold bind, respond, modify.
      rewrite (rejectPromise_settled _ (emit (Respond 400 _) w) Hp).
      eexists. split; [reflexivity|]. intros Heq.
      destruct (reject_answers 400 (Text "Error: Missing authorization code")
                  (Err "Missing authorization code") w)
        as (w' & E' & Ha); [congruence|discriminate|].
      unfold bind, respond, modify in E'.
      rewrite (rejectPromise_settled _ (emit (Respond 400 _) w) Hp) in E'.
      injection E' as <-. exact Ha.
  - intros code Hq Hne.
    assert (Ht : Js.truthyS (Some code) = true).
    { simpl. now apply negb_true_iff, String.eqb_neq. }
    eexists. split.
    + unfold callbackAsync. rewrite Hq, Ht. cbn [negb].
      unfold exchangeAsync, await. cbn [andThen]. reflexivity.
    + intros answer w1 Heq1. split.
      * intros b ->. cbn [exchangeVersionedDone].
        unfold settle at 1, ret. cbn [andThen].
        destruct (resumed_answers (q_merchant_id q) (Ret (asData b)) w1 Heq1)
          as (res & w1' & c & E & Hc & Ha & Hiff); [discriminate|].
        exists res, w1', c. split; [exact E|]. split; [exact Hc|].
        split; [exact Ha|]. rewrite Hiff. split.
        -- intros (record & [= Hd]). destruct b as [d|t|]; try discriminate.
           now exists d.
        -- intros (record & ->). eexists. reflexivity.
      * intros e ->. cbn [exchangeVersionedDone]. unfold await at 1.
        cbn [andThen]. eexists. split; [reflexivity|].
        intros answer' w2 Heq2.
        destruct (exchangeLegacyDone_settles answer' w2)
          as (r & Er & Hr & Hiff2).
        unfold settle at 1. rewrite Er. cbn [andThen].
        destruct (resumed_answers (q_merchant_id q) r w2 Heq2 Hr)
          as (res & w2' & c & E & Hc & Ha & Hiff).
        exists res, w2', c. split; [exact E|]. split; [exact Hc|].
        split; [exact Ha|]. now rewrite Hiff, Hiff2.
Qed.

End AwaitPoints.

(** ** The properties above on runs *)

Module More.

Import Scenario.
Import Cases.

(** X1 on a schedule: the authorization server rejects the versioned
    request, and before its answer comes a callback has stored another
    record; the legacy request carries the refresh token of that record. *)
Lemma refresh_overlap_run :
  let w1 := setCurrentTokens record (emit RefreshCall authorized) in
  exists k k',
    refreshAsync cfg authorized
    = (Awaiting (v2Request cfg "/oauth/v2/refresh" "refresh_token" "r0") k,
       emit RefreshCall authorized)
    /\ k (fail 503) w1
       = (Awaiting (v1Request cfg "refresh_token" "r1") k', w1).
Proof.
  intros w1.
  assert (Hne : "r0"%string <> ""%string) by discriminate.
  destruct (proj1 (proj2 (refresh_two_tiers cfg down authorized))
              "r0"%string eq_refl Hne) as (k & E & H).
  assert (Hg : v2GivesWay (fail 503)) by (left; eexists; reflexivity).
  destruct (proj2 (H (fail 503) w1) Hg) as (k' & Ek & _).
  exists k, k'. split; [exact E|exact Ek].
Defined.

(** X5 on a schedule: two callbacks overlap, and the second one gets its
    answer when the first has resolved the promise; it replies 200 and
    settles nothing. *)
Lemma callback_overlap_run :
  let w := run cfg issuing fine start [StartFlow 4000 "s1"] in
  let w1 := run cfg issuing fine start
                [StartFlow 4000 "s1"; Callback (withCode "a")] in
  exists k res w1',
    callbackAsync cfg (withCode "b") w
    = (Awaiting (v2Request cfg "/oauth/v2/token" "code" "b") k, w)
    /\ k (HttpOk (BObject legacyAnswer)) w1 = (Settled res, w1')
    /\ answers 200 w1 w1'
    /\ settlements 0 (trace w1') = settlements 0 (trace w1).
Proof.
  intros w w1.
  assert (Hne : "b"%string <> ""%string) by discriminate.
  destruct (proj1 (proj2 (callback_replies_once cfg issuing (withCode "b") w))
              "b"%string eq_refl Hne) as (k & E & H).
  assert (Heq : promiseReject w1 = promiseResolve w1)
    by (vm_compute; reflexivity).
  destruct (proj1 (H (HttpOk (BObject legacyAnswer)) w1 Heq)
              (BObject legacyAnswer) eq_refl)
    as (res & w1' & c & Ek & _ & Ha & Hiff).
  assert (Hc : c = 200) by (apply Hiff; eexists; reflexivity).
  subst c.
  assert (Hp : promiseResolve w1 <> Some 0%nat)
    by (vm_compute; discriminate).
  exists k, res, w1'. split; [exact E|]. split; [exact Ek|].
  split; [exact Ha|].
  exact (proj1 (proj2 (proj2 Ha)) 0%nat Hp).
Defined.

(** X2 on a run: the versioned refresh answers with a full record, and that
    record is the stored one afterwards. *)
Lemma refresh_stores_run :
  let server := only "/oauth/v2/refresh" (BObject fullRefresh) in
  let d := DObject (mkV2 (Some "new") (Some "r1") (Some "M1")
                         (Some 1700007200) (Some 1702592000)) in
  recordOf d
  = Some (currentTokens (snd (refreshAccessToken cfg server authorized))).
Proof.
  intros server d.
  assert (H : refreshAccessToken cfg server authorized
              = (Ret d, snd (refreshAccessToken cfg server authorized)))
    by (vm_compute; reflexivity).
  exact (proj1 (refresh_stores_what_it_returns cfg server authorized _ d H)).
Defined.

(** X3 on a run: the access token has run out and the authorization server
    is down; the guard fails and the record is as it was. *)
Lemma guard_failure_run :
  currentTokens (snd (ensureValidToken cfg down lapsed))
  = currentTokens lapsed.
Proof.
  assert (H : ensureValidToken cfg down lapsed
              = (Throw (Err "Unable to refresh token. Please re-authenticate."),
                 snd (ensureValidToken cfg down lapsed)))
    by (vm_compute; reflexivity).
  exact (proj1 (proj2 (guard_failure cfg down lapsed _ _ H))).
Defined.

(** X4 on a run: the access token has run out, the refresh succeeds, and the
    guard hands out the new stored token. *)
Lemma guard_token_run :
  let server := only "/oauth/v2/refresh" (BObject fullRefresh) in
  Some "new"%string
  = accessToken (currentTokens (snd (ensureValidToken cfg server lapsed))).
Proof.
  intros server.
  assert (H : ensureValidToken cfg server lapsed
              = (Ret (Some "new"%string),
                 snd (ensureValidToken cfg server lapsed)))
    by (vm_compute; reflexivity).
  exact (proj1 (guard_token_is_stored cfg server lapsed _ _ H)).
Defined.

(** X6 on a run: the provider sends neither expiry nor merchant id; the
    stored record gets one hour, thirty days and the merchant id of the
    callback. *)
Lemma callback_sets_expiries_run :
  let server := only "/oauth/v2/token" (BObject noMerchant) in
  let t := currentTokens (snd (oauthCallback cfg server withMerchant start)) in
  accessTokenExpiry t = Some 1700003600
  /\ refreshTokenExpiry t = Some 1702592000
  /\ merchantId t = Some "M9"%string.
Proof.
  intros server t.
  assert (Hne : "abc"%string <> ""%string) by discriminate.
  assert (Hx : exchangeCodeForTokens cfg server "abc" start
               = (Ret (DObject (mkV2 (Some "tok") (Some "r1") None None None)),
                  snd (exchangeCodeForTokens cfg server "abc" start)))
    by (vm_compute; reflexivity).
  assert (Hnow : 0 <= now start) by (vm_compute; discriminate).
  destruct (callback_sets_expiries cfg server withMerchant start _ "abc" _
              eq_refl Hne Hx Hnow) as (_ & Ha & Hr & _ & Hm).
  split; [exact Ha|]. split; [exact Hr|]. exact (Hm eq_refl eq_refl).
Defined.

(** X7 on a run: the first session has resolved and shut down and a second
    one is pending; callbacks of the second leave the first promise as it
    is. *)
Lemma only_held_promise_run :
  let w := run cfg issuing fine (initialWorld 1700000000) restarted in
  settlements 0
    (trace (run cfg issuing fine w
              [Callback (withCode "b"); Callback withoutCode]))
  = settlements 0 (trace w).
Proof.
  intros w.
  assert (H1 : promiseResolve w <> Some 0%nat)
    by (vm_compute; discriminate).
  assert (H2 : (0 < nextPromise w)%nat) by (vm_compute; lia).
  exact (only_held_promise_settles cfg issuing fine 1700000000 restarted
           [Callback (withCode "b"); Callback withoutCode] 0%nat H1 H2).
Defined.

(** X8 on a run: a second [startOAuthFlow] while the first is pending. *)
Lemma second_start_run :
  let w := run cfg issuing fine (initialWorld 1700000000)
               [StartFlow 4000 "s1"] in
  settlements (nextPromise w)
    (trace (step cfg issuing fine w (StartFlow 4001 "s2")))
  = [Rejected (Err "OAuth server is already running")].
Proof.
  intros w.
  assert (H : server w <> None) by (vm_compute; discriminate).
  exact (proj1 (second_start_rejected cfg issuing fine 1700000000
                  [StartFlow 4000 "s1"] 4001 "s2" H)).
Defined.

(** X9 on a run: the first session was answered twice, so two timers were
    set and one is left after the shutdown; it closes the listener of the
    second session, whose promise is never settled. *)
Lemma stale_timer_run :
  let w := run cfg issuing fine (initialWorld 1700000000) twoSuccesses in
  let w1 := run cfg issuing fine w [StartFlow 4000 "s2"; TimerFire; CloseDone]
  in
  let w2 := step cfg issuing fine w1 (StartFlow 4000 "s3") in
  settlements (nextPromise w)
    (trace (run cfg issuing fine w2
              [Callback (withCode "c"); TimerFire; CloseDone]))
  = [].
Proof.
  intros w w1 w2.
  assert (H1 : server w = None) by (vm_compute; reflexivity).
  assert (H2 : timers w = 1%nat) by (vm_compute; reflexivity).
  exact (proj2 (proj2 (proj2
           (stale_timer_orphans_flow cfg issuing fine 1700000000 twoSuccesses
              [Callback (withCode "c"); TimerFire; CloseDone]
              4000 4000 "s2" "s3" 0%nat H1 H2)))).
Defined.

(** X18 on the world that holds a full record: sixty minutes and thirty
    days are left. *)
Lemma valid_status_run :
  Server.oauthStatus authorized
  = Some ("OAuth credentials are available and valid."
            ++ Text.nl ++ Text.nl ++ "Access Token: " ++ Server.maskToken "old"
            ++ Text.nl ++ "Merchant ID: " ++ "M1"
            ++ (Text.nl ++ "Access Token expires in: "
                  ++ Text.showZ ((1700003600 - now authorized) / 60)
                  ++ " minutes")
            ++ (Text.nl ++ "Refresh Token expires in: 30 days"))%string.
Proof.
  assert (Ha : forall e, accessTokenExpiry (currentTokens authorized) = Some e ->
                         Server.inRange e (now authorized) = true)
    by (intros e [= <-]; reflexivity).
  assert (Hr : forall e, refreshTokenExpiry (currentTokens authorized) = Some e ->
                         Server.inRange e (now authorized) = true)
    by (intros e [= <-]; reflexivity).
  destruct (valid_status authorized eq_refl Ha Hr)
    as (t & m & access & refresh & Et & Em & _ & _ & Er & Es & Hmin).
  injection Et as <-. injection Em as <-.
  assert (Hne : 1700003600 <> 0) by discriminate.
  destruct (Hmin 1700003600 eq_refl Hne) as [_ ->].
  injection Er as <-. exact Es.
Defined.

(** X19 on a file that has neither key. *)
Lemma env_without_keys_run :
  EnvFile.updateEnvFile record (Some otherEnv) = Some otherEnv
  /\ EnvFile.updateEnvFile record None = None.
Proof.
  assert (Hk : EnvFile.search "CLOVER_API_KEY=" otherEnv = None)
    by (vm_compute; reflexivity).
  assert (Hm : EnvFile.search "CLOVER_MERCHANT_ID=" otherEnv = None)
    by (vm_compute; reflexivity).
  exact (env_without_keys record otherEnv
           (search_none "CLOVER_API_KEY=" otherEnv Hk)
           (search_none "CLOVER_MERCHANT_ID=" otherEnv Hm)).
Defined.

(** X20 on a file of four lines. *)
Lemma env_update_lines_run :
  EnvFile.updateEnvFile record (Some (joinLines envLines))
  = Some (joinLines
            (editFirst "CLOVER_MERCHANT_ID=" ("CLOVER_MERCHANT_ID=" ++ "M1")
               (editFirst "CLOVER_API_KEY=" ("CLOVER_API_KEY=" ++ "tok-a")
                  envLines))).
Proof.
  assert (Ht : "tok-a"%string <> ""%string) by discriminate.
  assert (Hm : "M1"%string <> ""%string) by discriminate.
  assert (Hls : Forall (fun l => noEol l = true) envLines)
    by (repeat constructor).
  exact (proj1 (env_update_lines record "tok-a" "M1" envLines eq_refl Ht
                  eq_refl Hm eq_refl eq_refl eq_refl eq_refl Hls)).
Defined.

(** The same update as text. *)
Example env_update_text :
  EnvFile.updateEnvFile record (Some (joinLines envLines))
  = Some (joinLines ["# clover"; "CLOVER_API_KEY=tok-a";
                     "export CLOVER_MERCHANT_ID=M1";
                     "CLOVER_API_KEY=second"]%string).
Proof. reflexivity. Qed.


(** X11 on a run: nothing is stored yet. *)
Lemma methods_need_credentials_run :
  getItem cfg down fine "I1" start = (Throw keyRequired, start)
  /\ getOrder cfg down fine "I1" start = (Throw keyRequired, start)
  /\ getMerchantInfo cfg down fine start = (Throw keyRequired, start).
Proof.
  exact (proj1 (methods_need_credentials cfg down fine start "I1") eq_refl).
Defined.

(** X16 on the id [42]. *)
Lemma resource_uri_run :
  Server.resourceOf ("clover://items/" ++ "42") = Server.ItemResource "42"
  /\ Server.resourceOf ("clover://orders/" ++ "42") = Server.OrderResource "42".
Proof.
  assert (Hne : "42"%string <> ""%string) by discriminate.
  exact (proj1 (resource_uri_roundtrip "" "42") Hne eq_refl).
Defined.


(** X14 on a payload of four base64 characters. *)
Lemma paddedBase64_run : paddedBase64 "eyJh" = "eyJh"%string.
Proof.
  exact (proj2 (proj2 (proj2 (paddedBase64_shape "eyJh")))
           eq_refl eq_refl eq_refl).
Defined.

(** X13 on a run: the merchant API answers 500 with a message of its own. *)
Lemma getMerchantInfo_run :
  let w1 := snd (ensureValidToken cfg down
                   (snd (ensureCredentials cfg down authorized))) in
  let c := mkReqConfig
             (baseUrl cfg ++ "/v3/merchants/"
                ++ Js.show (merchantId (currentTokens w1)))
             (bearer (Some "old"%string)) false in
  getMerchantInfo cfg down failing authorized
  = (Throw (Err ("Clover API error: " ++ Text.showN (Some 500) ++ " "
                   ++ Js.show (Js.orS (Some "boom"%string)
                                 (Some "Request failed with status code 500"%string)))),
     emit (Dispatch c) w1).
Proof.
  intros w1 c.
  assert (H0 : ensureCredentials cfg down authorized
               = (Ret tt, snd (ensureCredentials cfg down authorized)))
    by (vm_compute; reflexivity).
  assert (H1 : ensureValidToken cfg down
                 (snd (ensureCredentials cfg down authorized))
               = (Ret (Some "old"%string), w1))
    by (vm_compute; reflexivity).
  exact (proj2 (proj2 (proj2 (getMerchantInfo_once cfg down failing authorized)))
           _ w1 (Some "old"%string) (Some 500) (Some "boom"%string)
           "Request failed with status code 500"%string H0 H1 eq_refl).
Defined.

(** X15 on a run: the stored token has no dot. *)
Lemma getAppId_run :
  fst (getAppId cfg down (fun _ => None) authorized) = Ret (Some (clientId cfg)).
Proof.
  exact (proj1 (proj2 (proj2 (proj2 (proj2
           (getAppId_answers cfg down (fun _ => None) authorized)))))
           "old"%string eq_refl eq_refl).
Defined.

End More.
